(** * Table-based data access: chunked iteration, cube fill and metadata caches

    A shallow embedding of the table-based iterator of the data access layer
    ([TableConstDataIterator], [TableDataIterator]) and of the FEED and FIELD
    subtable handlers, together with the properties of the chunking engine,
    the cube fill routines, the write-back consistency check and the
    validity-interval caches.

    Conventions of the embedding:
    - [casacore::Double] time stamps and frequencies are rationals ([Q]); only
      comparisons and a few field operations are performed on them;
    - [casacore::Int] identifiers are [Z]; row numbers and array extents are
      [nat]; the one place where a signed sum is converted to [uInt] has the
      wrap-around written out ([to_uInt]);
    - an exception is a value [Err e] of [result]; the statements that follow
      a throwing statement are not executed. *)

From Stdlib Require Import String ZArith QArith Qabs Qround List Bool Arith Lia.
Import ListNotations.

Set Implicit Arguments.

(** ** Exceptions *)

(** The exceptions raised by the modelled code.  The comment of each
    constructor names the throwing statement of the source. *)
Inductive Error : Type :=
| SelectionError                      (* ASKAPCHECK in makeUniformDataDescID:
                                         channel selection beyond the channels available *)
| FrequencySelectionError             (* ASKAPCHECK in getChannelRange: more than one
                                         channel, or a non-linear frequency axis *)
| PolShapeMismatch (row : nat)        (* DataAccessError "Number of polarizations is not conformant" *)
| ChanShapeMismatch (row : nat)       (* DataAccessError "Number of channels is not conformant" *)
| ConsistencyError (row : nat)        (* ASKAPCHECK in writeOriginalFlag *)
| WritePolMismatch                    (* DataAccessError in writeCube: partial selection *)
| WriteChanMismatch                   (* DataAccessError in writeCube: selection does not fit *)
| AssertError                         (* ASKAPASSERT *)
| FieldIdError                        (* ASKAPCHECK in getCurrentReferenceDir *)
| MetadataLookupError                 (* DataAccessError of the subtable handlers *)
| UnknownMountError (ant : nat) (mount : string)
                                      (* DataAccessError "Unknown mount type" *)
| ArrayConformanceError               (* casacore: plane index past the end of a cube *)
| TableError.                         (* casacore: access to a row a table does not have *)

Inductive result (A : Type) : Type :=
| Ok (a : A)
| Err (e : Error).
Arguments Ok {A} a.
Arguments Err {A} e.

Definition bind {A B : Type} (c : result A) (k : A -> result B) : result B :=
  match c with
  | Ok a => k a
  | Err e => Err e
  end.

Declare Scope result_scope.
Delimit Scope result_scope with result.
Notation "x <- c ;; k" := (bind c (fun x => k))
  (at level 61, c at next level, right associativity) : result_scope.
Notation "c ;;; k" := (bind c (fun _ => k))
  (at level 61, right associativity) : result_scope.
Open Scope result_scope.

Definition is_ok {A : Type} (c : result A) : bool :=
  match c with Ok _ => true | Err _ => false end.

(** [ASKAPCHECK(cond, ...)] and [ASKAPASSERT(cond)]. *)
Definition check (cond : bool) (e : Error) : result unit :=
  if cond then Ok tt else Err e.

(** ** Comparisons on time stamps *)

Definition Qltb (x y : Q) : bool := negb (Qle_bool y x).
Definition Qleb (x y : Q) : bool := Qle_bool x y.
Definition Qeqb (x y : Q) : bool := Qeq_bool x y.

(** ** The table iterator of the storage library

    [casacore::TableIterator] with option [NoSort]: the table is taken in the
    order it has, and one step delivers the longest run of consecutive rows
    that share the key of the first unread row.  The constructor and [reset]
    already step to the first group; the iterator is past the end when the
    current group is empty. *)
Module TableIterator.
Section Def.
Variable R : Type.
Variable key : R -> Q.

Record t : Type := mk {
  whole : list R;        (* the table iterated over *)
  unread : list R;       (* rows after the current group *)
  subTable_p : list R    (* the current group *)
}.

Fixpoint span_key (k : Q) (l : list R) : list R * list R :=
  match l with
  | [] => ([], [])
  | r :: l' =>
      if Qeqb (key r) k
      then let (g, rest) := span_key k l' in (r :: g, rest)
      else ([], l)
  end.

Definition next (it : t) : t :=
  match unread it with
  | [] => mk (whole it) [] []
  | r :: l =>
      let (g, rest) := span_key (key r) l in
      mk (whole it) rest (r :: g)
  end.

Definition make (tab : list R) : t := next (mk tab tab []).

Definition reset (it : t) : t := make (whole it).

Definition pastEnd (it : t) : bool :=
  match subTable_p it with [] => true | _ :: _ => false end.

Definition table (it : t) : list R := subTable_p it.
End Def.
End TableIterator.

(** ** FEED subtable handler *)
Module Feed.

Record FeedRow : Type := {
  ANTENNA_ID : Z;
  FEED_ID : Z;
  SPECTRAL_WINDOW_ID : Z;
  TIME : Q;
  INTERVAL : Q;
  BEAM_OFFSET : list (Q * Q);     (* one pair of offsets per receptor *)
  RECEPTOR_ANGLE : list Q
}.

Record t : Type := {
  table : list FeedRow;
  itsCachedSpWindow : Z;
  itsCachedStartTime : Q;
  itsCachedStopTime : Q;
  itsAllCachedOffsetsZero : bool;
  itsIntervalFactor : Q;
  itsBeamOffsets : list (Q * Q);
  itsPositionAngles : list Q;
  itsAntennaIDs : list Z;
  itsFeedIDs : list Z;
  itsIndices : list ((Z * Z) * nat)
}.

(** Constructor: nothing is cached, which the spectral window -2 marks. *)
Definition make (tab : list FeedRow) (intervalFactor : Q) : t :=
  {| table := tab;
     itsCachedSpWindow := (-2)%Z;
     itsCachedStartTime := 0;
     itsCachedStopTime := 0;
     itsAllCachedOffsetsZero := false;
     itsIntervalFactor := intervalFactor;
     itsBeamOffsets := [];
     itsPositionAngles := [];
     itsAntennaIDs := [];
     itsFeedIDs := [];
     itsIndices := [] |}.

Definition newBeamDetails (h : t) (dTime : Q) (spWinID : Z) : bool :=
  if Qleb (itsCachedStartTime h) dTime && Qleb dTime (itsCachedStopTime h) &&
     (Z.eqb spWinID (itsCachedSpWindow h) || Z.eqb (itsCachedSpWindow h) (-1))
  then false
  else true.

Definition halfInterval (h : t) (r : FeedRow) : Q :=
  INTERVAL r * itsIntervalFactor h / 2.

(** The row selection of [fillCache]. *)
Definition expression (h : t) (dTime : Q) (spWinID : Z) (r : FeedRow) : bool :=
  (Z.eqb (SPECTRAL_WINDOW_ID r) spWinID || Z.eqb (SPECTRAL_WINDOW_ID r) (-1)) &&
  ((Qleb (TIME r - halfInterval h r) dTime && Qleb dTime (TIME r + halfInterval h r))
   || Qeqb (halfInterval h r) 0).

Definition computeBeamOffset (rcptOffsets : list (Q * Q)) : result (Q * Q) :=
  check (negb (Nat.eqb (length rcptOffsets) 0)) AssertError ;;;
  let n := inject_Z (Z.of_nat (length rcptOffsets)) in
  Ok (fold_left (fun acc o => (fst acc + fst o / n, snd acc + snd o / n))
                rcptOffsets (0, 0)).

Definition computePositionAngle (rcptAngles : list Q) : result Q :=
  match rcptAngles with
  | [] => Err AssertError
  | a :: _ => Ok a
  end.

Definition Qabs_gt (x eps : Q) : bool := Qltb eps (Qabs x).

(** One turn of the loop over the selected rows. *)
Definition fillCache_row (h : t) (row : nat) (r : FeedRow) : result t :=
  cOffset <- computeBeamOffset (BEAM_OFFSET r) ;;
  pa <- computePositionAngle (RECEPTOR_ANGLE r) ;;
  let allZero :=
    if Qabs_gt (fst cOffset) (1 # 1000000000000000) ||
       Qabs_gt (snd cOffset) (1 # 1000000000000000)
    then false else itsAllCachedOffsetsZero h in
  let zeroInterval := Qeqb (INTERVAL r) 0 in
  let cStartTime :=
    if zeroInterval then TIME r - inject_Z (10 ^ 30)
    else TIME r - INTERVAL r * itsIntervalFactor h / 2 in
  let cStopTime :=
    if zeroInterval then TIME r + inject_Z (10 ^ 30)
    else TIME r + INTERVAL r * itsIntervalFactor h / 2 in
  let start' :=
    if Nat.eqb row 0 || Qltb (itsCachedStartTime h) cStartTime
    then cStartTime else itsCachedStartTime h in
  let stop' :=
    if Nat.eqb row 0 || Qltb cStopTime (itsCachedStopTime h)
    then cStopTime else itsCachedStopTime h in
  let spw' :=
    if negb (Z.eqb (SPECTRAL_WINDOW_ID r) (-1))
    then SPECTRAL_WINDOW_ID r else itsCachedSpWindow h in
  Ok {| table := table h;
        itsCachedSpWindow := spw';
        itsCachedStartTime := start';
        itsCachedStopTime := stop';
        itsAllCachedOffsetsZero := allZero;
        itsIntervalFactor := itsIntervalFactor h;
        itsBeamOffsets := itsBeamOffsets h ++ [cOffset];
        itsPositionAngles := itsPositionAngles h ++ [pa];
        itsAntennaIDs := itsAntennaIDs h;
        itsFeedIDs := itsFeedIDs h;
        itsIndices := itsIndices h ++ [((ANTENNA_ID r, FEED_ID r), row)] |}.

Fixpoint fillCache_loop (h : t) (row : nat) (sel : list FeedRow) : result t :=
  match sel with
  | [] => Ok h
  | r :: sel' =>
      h' <- fillCache_row h row r ;;
      fillCache_loop h' (S row) sel'
  end.

Definition fillCache (h : t) (dTime : Q) (spWinID : Z) : result t :=
  let selection := filter (expression h dTime spWinID) (table h) in
  match selection with
  | [] => Err MetadataLookupError
  | r0 :: _ =>
      check (forallb (fun r => Z.leb 0 (ANTENNA_ID r) && Z.leb 0 (FEED_ID r)) selection)
            MetadataLookupError ;;;
      fillCache_loop
        {| table := table h;
           itsCachedSpWindow := SPECTRAL_WINDOW_ID r0;
           itsCachedStartTime := itsCachedStartTime h;
           itsCachedStopTime := itsCachedStopTime h;
           itsAllCachedOffsetsZero := true;
           itsIntervalFactor := itsIntervalFactor h;
           itsBeamOffsets := [];
           itsPositionAngles := [];
           itsAntennaIDs := map ANTENNA_ID selection;
           itsFeedIDs := map FEED_ID selection;
           itsIndices := [] |}
        0 selection
  end.

Definition fillCacheOnDemand (h : t) (dTime : Q) (spWinID : Z) : result t :=
  if newBeamDetails h dTime spWinID then fillCache h dTime spWinID else Ok h.

Definition allBeamOffsetsZero (h : t) (dTime : Q) (spWinID : Z) : result (bool * t) :=
  h' <- fillCacheOnDemand h dTime spWinID ;;
  Ok (itsAllCachedOffsetsZero h', h').

(** The largest of the cached ids; the look-up matrix [itsIndices] has one
    more row than the largest antenna id and one more column than the
    largest feed id, and no element before the first fill. *)
Definition maxID (ids : list Z) : Z := fold_left Z.max ids (-1)%Z.

(** [itsIndices(antID, feedID)]: the matrix is set to -2 and then assigned
    row by row, so the last row of a pair is the one found. *)
Definition index (h : t) (antID feedID : Z) : Z :=
  fold_left (fun (found : Z) (e : (Z * Z) * nat) =>
               if Z.eqb (fst (fst e)) antID && Z.eqb (snd (fst e)) feedID
               then Z.of_nat (snd e) else found)
            (itsIndices h) (-2)%Z.

Definition getIndex (h : t) (antID feedID : Z) : result nat :=
  check (Z.ltb antID (maxID (itsAntennaIDs h) + 1)) MetadataLookupError ;;;
  check (Z.ltb feedID (maxID (itsFeedIDs h) + 1)) MetadataLookupError ;;;
  check (Z.leb 0 (index h antID feedID)) MetadataLookupError ;;;
  Ok (Z.to_nat (index h antID feedID)).

(** Element [index] of a cached vector; the index is a row number of the
    cached selection. *)
Definition cached (A : Type) (v : list A) (index : nat) : result A :=
  match nth_error v index with
  | Some x => Ok x
  | None => Err AssertError
  end.

Definition getBeamOffset (h : t) (dTime : Q) (spWinID : Z) (antID feedID : Z)
  : result ((Q * Q) * t) :=
  h <- fillCacheOnDemand h dTime spWinID ;;
  index <- getIndex h antID feedID ;;
  offset <- cached (itsBeamOffsets h) index ;;
  Ok (offset, h).

Definition getBeamPA (h : t) (dTime : Q) (spWinID : Z) (antID feedID : Z)
  : result (Q * t) :=
  h <- fillCacheOnDemand h dTime spWinID ;;
  index <- getIndex h antID feedID ;;
  pa <- cached (itsPositionAngles h) index ;;
  Ok (pa, h).

Definition getAllBeamOffsets (h : t) (dTime : Q) (spWinID : Z)
  : result (list (Q * Q) * t) :=
  h <- fillCacheOnDemand h dTime spWinID ;;
  Ok (itsBeamOffsets h, h).

Definition getAllBeamPAs (h : t) (dTime : Q) (spWinID : Z) : result (list Q * t) :=
  h <- fillCacheOnDemand h dTime spWinID ;;
  Ok (itsPositionAngles h, h).

Definition getFeedIDs (h : t) (dTime : Q) (spWinID : Z) : result (list Z * t) :=
  h <- fillCacheOnDemand h dTime spWinID ;;
  Ok (itsFeedIDs h, h).

Definition getAntennaIDs (h : t) (dTime : Q) (spWinID : Z) : result (list Z * t) :=
  h <- fillCacheOnDemand h dTime spWinID ;;
  Ok (itsAntennaIDs h, h).

End Feed.

(** ** FIELD subtable handler *)
Module Field.

Definition MDirection : Type := (Q * Q)%type.

Record FieldRow : Type := {
  TIME : Q;
  REFERENCE_DIR : MDirection
}.

Record t : Type := {
  table : list FieldRow;
  itsIterator : TableIterator.t FieldRow;
  itsNeverAccessedFlag : bool;
  itsCachedStartTime : Q;
  itsCachedStopTime : Q;
  itsReferenceDir : MDirection;
  itsRandomlyAccessedReferenceDir : MDirection
}.

(** Constructor.  The cached times and directions are not initialised by
    the source; no path reads them before the first fill. *)
Definition make (tab : list FieldRow) : result t :=
  check (negb (Nat.eqb (length tab) 0)) MetadataLookupError ;;;
  Ok {| table := tab;
        itsIterator := TableIterator.make TIME tab;
        itsNeverAccessedFlag := true;
        itsCachedStartTime := 0;
        itsCachedStopTime := 0;
        itsReferenceDir := (0, 0);
        itsRandomlyAccessedReferenceDir := (0, 0) |}.

(** Reads the current group into the cache and advances the iterator.  The
    TIME column read for the stop time is the one attached to the group
    that was current before the step. *)
Definition fillCacheWithCurrentIteration (h : t) : result t :=
  let curIt := TableIterator.table (itsIterator h) in
  check (Nat.leb (length curIt) 1) MetadataLookupError ;;;
  match curIt with
  | [] => Err TableError
  | r0 :: _ =>
      let it' := TableIterator.next TIME (itsIterator h) in
      Ok {| table := table h;
            itsIterator := it';
            itsNeverAccessedFlag := itsNeverAccessedFlag h;
            itsCachedStartTime := TIME r0;
            itsCachedStopTime :=
              if negb (TableIterator.pastEnd it') then TIME r0
              else itsCachedStopTime h;
            itsReferenceDir := REFERENCE_DIR r0;
            itsRandomlyAccessedReferenceDir := itsRandomlyAccessedReferenceDir h |}
  end.

Definition newField (h : t) (dTime : Q) : bool :=
  if itsNeverAccessedFlag h then true
  else if Qltb dTime (itsCachedStartTime h) then true
  else if Nat.eqb (length (table h)) 1 then false
  else Qltb (itsCachedStopTime h) dTime.

(** The [while] loop of [fillCacheOnDemand]; every turn consumes one group
    of the iterator, so the number of rows not yet read bounds the turns. *)
Fixpoint fillCache_while (fuel : nat) (h : t) (dTime : Q) : result t :=
  match fuel with
  | O => Ok h
  | S fuel' =>
      if negb (TableIterator.pastEnd (itsIterator h)) &&
         (Qltb dTime (itsCachedStartTime h) || Qltb (itsCachedStopTime h) dTime)
      then h' <- fillCacheWithCurrentIteration h ;; fillCache_while fuel' h' dTime
      else Ok h
  end.

Definition with_iterator (h : t) (it : TableIterator.t FieldRow) : t :=
  {| table := table h;
     itsIterator := it;
     itsNeverAccessedFlag := itsNeverAccessedFlag h;
     itsCachedStartTime := itsCachedStartTime h;
     itsCachedStopTime := itsCachedStopTime h;
     itsReferenceDir := itsReferenceDir h;
     itsRandomlyAccessedReferenceDir := itsRandomlyAccessedReferenceDir h |}.

Definition fillCacheOnDemand (h : t) (dTime : Q) : result t :=
  h1 <- (if Qltb dTime (itsCachedStartTime h)
         then fillCacheWithCurrentIteration
                (with_iterator h (TableIterator.reset TIME (itsIterator h)))
         else Ok h) ;;
  check (negb (Qltb dTime (itsCachedStartTime h1))) MetadataLookupError ;;;
  if Nat.eqb (length (table h1)) 1 ||
     (Qleb (itsCachedStartTime h1) dTime && Qleb dTime (itsCachedStopTime h1))
  then Ok h1
  else fillCache_while (S (length (table h1))) h1 dTime.

Definition getReferenceDir (h : t) (dTime : Q) : result (MDirection * t) :=
  h1 <- (if itsNeverAccessedFlag h then fillCacheWithCurrentIteration h else Ok h) ;;
  h3 <- fillCacheOnDemand h1 dTime ;;
  Ok (itsReferenceDir h3,
      {| table := table h3;
         itsIterator := itsIterator h3;
         itsNeverAccessedFlag := false;
         itsCachedStartTime := itsCachedStartTime h3;
         itsCachedStopTime := itsCachedStopTime h3;
         itsReferenceDir := itsReferenceDir h3;
         itsRandomlyAccessedReferenceDir := itsRandomlyAccessedReferenceDir h3 |}).

(** Random access by field id. *)
Definition getReferenceDirByID (h : t) (fieldID : nat) : result (MDirection * t) :=
  match nth_error (table h) fieldID with
  | None => Err MetadataLookupError
  | Some r =>
      Ok (REFERENCE_DIR r,
          {| table := table h;
             itsIterator := itsIterator h;
             itsNeverAccessedFlag := itsNeverAccessedFlag h;
             itsCachedStartTime := itsCachedStartTime h;
             itsCachedStopTime := itsCachedStopTime h;
             itsReferenceDir := itsReferenceDir h;
             itsRandomlyAccessedReferenceDir := REFERENCE_DIR r |})
  end.

End Field.

Close Scope Q_scope.

(** ** The main table *)

(** An array cell of a table column: its shape ([IPosition]) and its
    elements, addressed by polarisation and channel. *)
Record Array (T : Type) : Type := {
  shape : list nat;
  elem : nat -> nat -> T
}.

Definition Complex : Type := (Q * Q)%type.

Record Row : Type := {
  TIME : Q;
  ANTENNA1 : Z;
  ANTENNA2 : Z;
  FEED1 : Z;
  FEED2 : Z;
  DATA_DESC_ID : Z;
  FIELD_ID : Z;
  FLAG_ROW : bool;
  DATA : Array Complex;
  FLAG : Array bool
}.

Record Table : Type := {
  rows : list Row;
  hasFIELD_ID : bool;     (* tableDesc().isColumn("FIELD_ID") *)
  hasFLAG_ROW : bool      (* tableDesc().isColumn("FLAG_ROW") *)
}.

(** A selection or an iteration group refers to rows of the main table
    (reference semantics): it is the list of their row numbers. *)
Definition RefTable : Type := list nat.

(** Reading row [row] of a view. *)
Definition cell (t : Table) (view : RefTable) (row : nat) : result Row :=
  match nth_error view row with
  | Some n =>
      match nth_error (rows t) n with
      | Some r => Ok r
      | None => Err TableError
      end
  | None => Err TableError
  end.

Definition timeKey (t : Table) (n : nat) : Q :=
  match nth_error (rows t) n with
  | Some r => TIME r
  | None => 0%Q
  end.

(** [table()(expr)]: the rows satisfying a table expression, in table order. *)
Definition select (t : Table) (expr : Row -> bool) : RefTable :=
  filter (fun n => match nth_error (rows t) n with
                   | Some r => expr r
                   | None => false
                   end)
         (seq 0 (length (rows t))).

Definition allRows (t : Table) : RefTable := seq 0 (length (rows t)).

(** ** Selector *)

Record Selector : Type := {
  getTableSelector : option (Row -> bool);   (* [None]: the expression isNull() *)
  getChannelSelection : Z * Z;               (* number of channels, start channel *)
  itsNFreq : Z;
  itsFreqStart : Q;
  itsFreqDirection : option Field.MDirection;  (* direction of the frequency's frame, if any *)
  itsFreqInc : Q
}.

(** Modelled from the spec: [TableDataSelector::channelsSelected], whose
    body is not part of the sources at hand; the declaration documents that
    a negative first field of the channel selection means that no
    channel-based selection has been defined. *)
Definition channelsSelected (s : Selector) : bool :=
  Z.leb 0 (fst (getChannelSelection s)).

(** Modelled from the spec: [TableDataSelector::frequenciesSelected], whose
    body is not part of the sources at hand; by default all channels are
    selected, which a negative number of frequencies stands for here. *)
Definition frequenciesSelected (s : Selector) : bool :=
  Z.leb 0 (itsNFreq s).

(** Modelled from the spec: [chooseChannels(nChan, start)] of
    [TableDataSelector], whose declaration documents that the class does not
    interpret the two numbers and just passes them across. *)
Definition chooseChannels (nChan start : Z) (s : Selector) : result Selector :=
  Ok {| getTableSelector := getTableSelector s;
        getChannelSelection := (nChan, start);
        itsNFreq := itsNFreq s;
        itsFreqStart := itsFreqStart s;
        itsFreqDirection := itsFreqDirection s;
        itsFreqInc := itsFreqInc s |}.

(** ** Antenna subtable *)

Record Antenna : Type := {
  itsMounts : list string
}.

Definition getNumberOfAntennas (a : Antenna) : nat := length (itsMounts a).

Definition getMount (a : Antenna) (ant : nat) : string :=
  nth ant (itsMounts a) EmptyString.

(** Modelled from the spec: the antenna handler's constructor is not part of
    the sources at hand; its declaration documents that the flag holds when
    the mount of every antenna is either EQUATORIAL or equatorial. *)
Definition allEquatorial (a : Antenna) : bool :=
  forallb (fun m => String.eqb m "EQUATORIAL" || String.eqb m "equatorial") (itsMounts a).

(** ** Validity of the caches *)

Record Caches : Type := {
  itsDirectionCache : bool;
  itsParallacticAngleCache : bool;
  itsDishPointingCache : bool;
  accIterationCaches : bool;    (* the per-row caches of the accessor *)
  accSpectralCaches : bool;     (* the spectral and polarisation caches of the accessor *)
  accRotatedUVW : bool
}.

Definition invalidateDirection (c : Caches) : Caches :=
  {| itsDirectionCache := false;
     itsParallacticAngleCache := itsParallacticAngleCache c;
     itsDishPointingCache := itsDishPointingCache c;
     accIterationCaches := accIterationCaches c;
     accSpectralCaches := accSpectralCaches c;
     accRotatedUVW := accRotatedUVW c |}.

Definition invalidateParallacticAngle (c : Caches) : Caches :=
  {| itsDirectionCache := itsDirectionCache c;
     itsParallacticAngleCache := false;
     itsDishPointingCache := itsDishPointingCache c;
     accIterationCaches := accIterationCaches c;
     accSpectralCaches := accSpectralCaches c;
     accRotatedUVW := accRotatedUVW c |}.

Definition invalidateDishPointing (c : Caches) : Caches :=
  {| itsDirectionCache := itsDirectionCache c;
     itsParallacticAngleCache := itsParallacticAngleCache c;
     itsDishPointingCache := false;
     accIterationCaches := accIterationCaches c;
     accSpectralCaches := accSpectralCaches c;
     accRotatedUVW := accRotatedUVW c |}.

(** Modelled from the spec: the accessor's [invalidateIterationCaches] is
    only declared in the sources at hand; it invalidates the per-row caches,
    which are chunk-local. *)
Definition invalidateIterationCaches (c : Caches) : Caches :=
  {| itsDirectionCache := itsDirectionCache c;
     itsParallacticAngleCache := itsParallacticAngleCache c;
     itsDishPointingCache := itsDishPointingCache c;
     accIterationCaches := false;
     accSpectralCaches := accSpectralCaches c;
     accRotatedUVW := accRotatedUVW c |}.

(** Modelled from the spec: the accessor's [invalidateSpectralCaches] is
    only declared in the sources at hand; it invalidates the spectral and
    polarisation caches, which follow the data descriptor. *)
Definition invalidateSpectralCaches (c : Caches) : Caches :=
  {| itsDirectionCache := itsDirectionCache c;
     itsParallacticAngleCache := itsParallacticAngleCache c;
     itsDishPointingCache := itsDishPointingCache c;
     accIterationCaches := accIterationCaches c;
     accSpectralCaches := false;
     accRotatedUVW := accRotatedUVW c |}.

(** Modelled from the spec: the accessor's [invalidateRotatedUVW] is only
    declared in the sources at hand; the rotated uvw depend on the
    direction. *)
Definition invalidateRotatedUVW (c : Caches) : Caches :=
  {| itsDirectionCache := itsDirectionCache c;
     itsParallacticAngleCache := itsParallacticAngleCache c;
     itsDishPointingCache := itsDishPointingCache c;
     accIterationCaches := accIterationCaches c;
     accSpectralCaches := accSpectralCaches c;
     accRotatedUVW := false |}.

(** ** The read-only iterator *)

Record TableConstDataIterator : Type := mkIter {
  table_ : Table;   (* the main table, the store behind all views *)
  itsFeed : Feed.t;   (* subtableInfo().getFeed() *)
  itsField : Field.t;   (* subtableInfo().getField() *)
  itsAntenna : Antenna;   (* subtableInfo().getAntenna() *)
  itsDataDescription : list (Z * Z);   (* subtableInfo().getDataDescription() *)
  itsSpWindow : list (list Q);   (* subtableInfo().getSpWindow(): channel frequencies *)
  itsSelector : Selector;
  itsMaxChunkSize : Z;
  itsTabIterator : TableIterator.t nat;
  itsCurrentIteration : RefTable;
  itsCurrentTopRow : nat;
  itsNumberOfRows : nat;
  itsNumberOfChannels : nat;
  itsNumberOfPols : nat;
  itsCurrentDataDescID : Z;
  itsCurrentFieldID : Z;
  itsUseFieldID : bool;
  itsCaches : Caches;   (* validity flags of the caches *)
  itsNumberOfChannelsSelected : nat;
  itsStartChannelSelected : nat;
  itsChannelsSelected : bool;
  itsFlagData : bool;
  itsAtStart : bool
}.

(** Assignments to the members. *)
Definition set_table_ (v : Table) (it : TableConstDataIterator) : TableConstDataIterator :=
  mkIter
    v (itsFeed it) (itsField it) (itsAntenna it) (itsDataDescription it)
    (itsSpWindow it) (itsSelector it) (itsMaxChunkSize it) (itsTabIterator it)
    (itsCurrentIteration it) (itsCurrentTopRow it) (itsNumberOfRows it)
    (itsNumberOfChannels it) (itsNumberOfPols it) (itsCurrentDataDescID it)
    (itsCurrentFieldID it) (itsUseFieldID it) (itsCaches it)
    (itsNumberOfChannelsSelected it) (itsStartChannelSelected it)
    (itsChannelsSelected it) (itsFlagData it) (itsAtStart it).
Definition set_itsFeed (v : Feed.t) (it : TableConstDataIterator) : TableConstDataIterator :=
  mkIter
    (table_ it) v (itsField it) (itsAntenna it) (itsDataDescription it) (itsSpWindow it)
    (itsSelector it) (itsMaxChunkSize it) (itsTabIterator it) (itsCurrentIteration it)
    (itsCurrentTopRow it) (itsNumberOfRows it) (itsNumberOfChannels it)
    (itsNumberOfPols it) (itsCurrentDataDescID it) (itsCurrentFieldID it)
    (itsUseFieldID it) (itsCaches it) (itsNumberOfChannelsSelected it)
    (itsStartChannelSelected it) (itsChannelsSelected it) (itsFlagData it)
    (itsAtStart it).
Definition set_itsField (v : Field.t) (it : TableConstDataIterator) : TableConstDataIterator :=
  mkIter
    (table_ it) (itsFeed it) v (itsAntenna it) (itsDataDescription it) (itsSpWindow it)
    (itsSelector it) (itsMaxChunkSize it) (itsTabIterator it) (itsCurrentIteration it)
    (itsCurrentTopRow it) (itsNumberOfRows it) (itsNumberOfChannels it)
    (itsNumberOfPols it) (itsCurrentDataDescID it) (itsCurrentFieldID it)
    (itsUseFieldID it) (itsCaches it) (itsNumberOfChannelsSelected it)
    (itsStartChannelSelected it) (itsChannelsSelected it) (itsFlagData it)
    (itsAtStart it).
Definition set_itsTabIterator (v : TableIterator.t nat) (it : TableConstDataIterator) : TableConstDataIterator :=
  mkIter
    (table_ it) (itsFeed it) (itsField it) (itsAntenna it) (itsDataDescription it)
    (itsSpWindow it) (itsSelector it) (itsMaxChunkSize it) v (itsCurrentIteration it)
    (itsCurrentTopRow it) (itsNumberOfRows it) (itsNumberOfChannels it)
    (itsNumberOfPols it) (itsCurrentDataDescID it) (itsCurrentFieldID it)
    (itsUseFieldID it) (itsCaches it) (itsNumberOfChannelsSelected it)
    (itsStartChannelSelected it) (itsChannelsSelected it) (itsFlagData it)
    (itsAtStart it).
Definition set_itsCurrentIteration (v : RefTable) (it : TableConstDataIterator) : TableConstDataIterator :=
  mkIter
    (table_ it) (itsFeed it) (itsField it) (itsAntenna it) (itsDataDescription it)
    (itsSpWindow it) (itsSelector it) (itsMaxChunkSize it) (itsTabIterator it) v
    (itsCurrentTopRow it) (itsNumberOfRows it) (itsNumberOfChannels it)
    (itsNumberOfPols it) (itsCurrentDataDescID it) (itsCurrentFieldID it)
    (itsUseFieldID it) (itsCaches it) (itsNumberOfChannelsSelected it)
    (itsStartChannelSelected it) (itsChannelsSelected it) (itsFlagData it)
    (itsAtStart it).
Definition set_itsCurrentTopRow (v : nat) (it : TableConstDataIterator) : TableConstDataIterator :=
  mkIter
    (table_ it) (itsFeed it) (itsField it) (itsAntenna it) (itsDataDescription it)
    (itsSpWindow it) (itsSelector it) (itsMaxChunkSize it) (itsTabIterator it)
    (itsCurrentIteration it) v (itsNumberOfRows it) (itsNumberOfChannels it)
    (itsNumberOfPols it) (itsCurrentDataDescID it) (itsCurrentFieldID it)
    (itsUseFieldID it) (itsCaches it) (itsNumberOfChannelsSelected it)
    (itsStartChannelSelected it) (itsChannelsSelected it) (itsFlagData it)
    (itsAtStart it).
Definition set_itsNumberOfRows (v : nat) (it : TableConstDataIterator) : TableConstDataIterator :=
  mkIter
    (table_ it) (itsFeed it) (itsField it) (itsAntenna it) (itsDataDescription it)
    (itsSpWindow it) (itsSelector it) (itsMaxChunkSize it) (itsTabIterator it)
    (itsCurrentIteration it) (itsCurrentTopRow it) v (itsNumberOfChannels it)
    (itsNumberOfPols it) (itsCurrentDataDescID it) (itsCurrentFieldID it)
    (itsUseFieldID it) (itsCaches it) (itsNumberOfChannelsSelected it)
    (itsStartChannelSelected it) (itsChannelsSelected it) (itsFlagData it)
    (itsAtStart it).
Definition set_itsNumberOfChannels (v : nat) (it : TableConstDataIterator) : TableConstDataIterator :=
  mkIter
    (table_ it) (itsFeed it) (itsField it) (itsAntenna it) (itsDataDescription it)
    (itsSpWindow it) (itsSelector it) (itsMaxChunkSize it) (itsTabIterator it)
    (itsCurrentIteration it) (itsCurrentTopRow it) (itsNumberOfRows it) v
    (itsNumberOfPols it) (itsCurrentDataDescID it) (itsCurrentFieldID it)
    (itsUseFieldID it) (itsCaches it) (itsNumberOfChannelsSelected it)
    (itsStartChannelSelected it) (itsChannelsSelected it) (itsFlagData it)
    (itsAtStart it).
Definition set_itsNumberOfPols (v : nat) (it : TableConstDataIterator) : TableConstDataIterator :=
  mkIter
    (table_ it) (itsFeed it) (itsField it) (itsAntenna it) (itsDataDescription it)
    (itsSpWindow it) (itsSelector it) (itsMaxChunkSize it) (itsTabIterator it)
    (itsCurrentIteration it) (itsCurrentTopRow it) (itsNumberOfRows it)
    (itsNumberOfChannels it) v (itsCurrentDataDescID it) (itsCurrentFieldID it)
    (itsUseFieldID it) (itsCaches it) (itsNumberOfChannelsSelected it)
    (itsStartChannelSelected it) (itsChannelsSelected it) (itsFlagData it)
    (itsAtStart it).
Definition set_itsCurrentDataDescID (v : Z) (it : TableConstDataIterator) : TableConstDataIterator :=
  mkIter
    (table_ it) (itsFeed it) (itsField it) (itsAntenna it) (itsDataDescription it)
    (itsSpWindow it) (itsSelector it) (itsMaxChunkSize it) (itsTabIterator it)
    (itsCurrentIteration it) (itsCurrentTopRow it) (itsNumberOfRows it)
    (itsNumberOfChannels it) (itsNumberOfPols it) v (itsCurrentFieldID it)
    (itsUseFieldID it) (itsCaches it) (itsNumberOfChannelsSelected it)
    (itsStartChannelSelected it) (itsChannelsSelected it) (itsFlagData it)
    (itsAtStart it).
Definition set_itsCurrentFieldID (v : Z) (it : TableConstDataIterator) : TableConstDataIterator :=
  mkIter
    (table_ it) (itsFeed it) (itsField it) (itsAntenna it) (itsDataDescription it)
    (itsSpWindow it) (itsSelector it) (itsMaxChunkSize it) (itsTabIterator it)
    (itsCurrentIteration it) (itsCurrentTopRow it) (itsNumberOfRows it)
    (itsNumberOfChannels it) (itsNumberOfPols it) (itsCurrentDataDescID it) v
    (itsUseFieldID it) (itsCaches it) (itsNumberOfChannelsSelected it)
    (itsStartChannelSelected it) (itsChannelsSelected it) (itsFlagData it)
    (itsAtStart it).
Definition set_itsUseFieldID (v : bool) (it : TableConstDataIterator) : TableConstDataIterator :=
  mkIter
    (table_ it) (itsFeed it) (itsField it) (itsAntenna it) (itsDataDescription it)
    (itsSpWindow it) (itsSelector it) (itsMaxChunkSize it) (itsTabIterator it)
    (itsCurrentIteration it) (itsCurrentTopRow it) (itsNumberOfRows it)
    (itsNumberOfChannels it) (itsNumberOfPols it) (itsCurrentDataDescID it)
    (itsCurrentFieldID it) v (itsCaches it) (itsNumberOfChannelsSelected it)
    (itsStartChannelSelected it) (itsChannelsSelected it) (itsFlagData it)
    (itsAtStart it).
Definition set_itsCaches (v : Caches) (it : TableConstDataIterator) : TableConstDataIterator :=
  mkIter
    (table_ it) (itsFeed it) (itsField it) (itsAntenna it) (itsDataDescription it)
    (itsSpWindow it) (itsSelector it) (itsMaxChunkSize it) (itsTabIterator it)
    (itsCurrentIteration it) (itsCurrentTopRow it) (itsNumberOfRows it)
    (itsNumberOfChannels it) (itsNumberOfPols it) (itsCurrentDataDescID it)
    (itsCurrentFieldID it) (itsUseFieldID it) v (itsNumberOfChannelsSelected it)
    (itsStartChannelSelected it) (itsChannelsSelected it) (itsFlagData it)
    (itsAtStart it).
Definition set_itsNumberOfChannelsSelected (v : nat) (it : TableConstDataIterator) : TableConstDataIterator :=
  mkIter
    (table_ it) (itsFeed it) (itsField it) (itsAntenna it) (itsDataDescription it)
    (itsSpWindow it) (itsSelector it) (itsMaxChunkSize it) (itsTabIterator it)
    (itsCurrentIteration it) (itsCurrentTopRow it) (itsNumberOfRows it)
    (itsNumberOfChannels it) (itsNumberOfPols it) (itsCurrentDataDescID it)
    (itsCurrentFieldID it) (itsUseFieldID it) (itsCaches it) v
    (itsStartChannelSelected it) (itsChannelsSelected it) (itsFlagData it)
    (itsAtStart it).
Definition set_itsStartChannelSelected (v : nat) (it : TableConstDataIterator) : TableConstDataIterator :=
  mkIter
    (table_ it) (itsFeed it) (itsField it) (itsAntenna it) (itsDataDescription it)
    (itsSpWindow it) (itsSelector it) (itsMaxChunkSize it) (itsTabIterator it)
    (itsCurrentIteration it) (itsCurrentTopRow it) (itsNumberOfRows it)
    (itsNumberOfChannels it) (itsNumberOfPols it) (itsCurrentDataDescID it)
    (itsCurrentFieldID it) (itsUseFieldID it) (itsCaches it)
    (itsNumberOfChannelsSelected it) v (itsChannelsSelected it) (itsFlagData it)
    (itsAtStart it).
Definition set_itsChannelsSelected (v : bool) (it : TableConstDataIterator) : TableConstDataIterator :=
  mkIter
    (table_ it) (itsFeed it) (itsField it) (itsAntenna it) (itsDataDescription it)
    (itsSpWindow it) (itsSelector it) (itsMaxChunkSize it) (itsTabIterator it)
    (itsCurrentIteration it) (itsCurrentTopRow it) (itsNumberOfRows it)
    (itsNumberOfChannels it) (itsNumberOfPols it) (itsCurrentDataDescID it)
    (itsCurrentFieldID it) (itsUseFieldID it) (itsCaches it)
    (itsNumberOfChannelsSelected it) (itsStartChannelSelected it) v (itsFlagData it)
    (itsAtStart it).
Definition set_itsFlagData (v : bool) (it : TableConstDataIterator) : TableConstDataIterator :=
  mkIter
    (table_ it) (itsFeed it) (itsField it) (itsAntenna it) (itsDataDescription it)
    (itsSpWindow it) (itsSelector it) (itsMaxChunkSize it) (itsTabIterator it)
    (itsCurrentIteration it) (itsCurrentTopRow it) (itsNumberOfRows it)
    (itsNumberOfChannels it) (itsNumberOfPols it) (itsCurrentDataDescID it)
    (itsCurrentFieldID it) (itsUseFieldID it) (itsCaches it)
    (itsNumberOfChannelsSelected it) (itsStartChannelSelected it)
    (itsChannelsSelected it) v (itsAtStart it).
Definition set_itsAtStart (v : bool) (it : TableConstDataIterator) : TableConstDataIterator :=
  mkIter
    (table_ it) (itsFeed it) (itsField it) (itsAntenna it) (itsDataDescription it)
    (itsSpWindow it) (itsSelector it) (itsMaxChunkSize it) (itsTabIterator it)
    (itsCurrentIteration it) (itsCurrentTopRow it) (itsNumberOfRows it)
    (itsNumberOfChannels it) (itsNumberOfPols it) (itsCurrentDataDescID it)
    (itsCurrentFieldID it) (itsUseFieldID it) (itsCaches it)
    (itsNumberOfChannelsSelected it) (itsStartChannelSelected it)
    (itsChannelsSelected it) (itsFlagData it) v.

(** Conversion of a signed sum to [casacore::uInt]. *)
Definition to_uInt (z : Z) : Z := (z mod 2 ^ 32)%Z.

Definition update_caches (f : Caches -> Caches) (it : TableConstDataIterator)
  : TableConstDataIterator :=
  set_itsCaches (f (itsCaches it)) it.

(** Modelled from the spec: the data-descriptor holder is not part of the
    sources at hand; it maps a data-descriptor id to its spectral-window id,
    the first component of the descriptor's entry. *)
Definition getSpectralWindowID (dd : list (Z * Z)) (id : Z) : result Z :=
  if Z.ltb id 0 then Err MetadataLookupError
  else match nth_error dd (Z.to_nat id) with
       | Some p => Ok (fst p)
       | None => Err MetadataLookupError
       end.

(** [n <= itsMaxChunkSize ? n : itsMaxChunkSize], for a number of rows [n]
    and the [uInt] limit. *)
Definition chunkLimit (n : nat) (maxChunkSize : Z) : nat :=
  if Z.leb (Z.of_nat n) maxChunkSize then n else Z.to_nat maxChunkSize.

Definition hasMore (it : TableConstDataIterator) : bool :=
  if negb (TableIterator.pastEnd (itsTabIterator it)) then true
  else if Nat.ltb (itsCurrentTopRow it + itsNumberOfRows it)
                  (length (itsCurrentIteration it)) then true
  else false.

(** The epoch of the chunk: the time stamp of its top row (the conversion to
    and from the epoch measure is the identity here). *)
Definition currentEpoch (it : TableConstDataIterator) : result Q :=
  r <- cell (table_ it) (itsCurrentIteration it) (itsCurrentTopRow it) ;;
  Ok (TIME r).

Definition currentSpWindowID (it : TableConstDataIterator) : result Z :=
  spWindowIndex <- getSpectralWindowID (itsDataDescription it) (itsCurrentDataDescID it) ;;
  if Z.ltb spWindowIndex 0 then Err MetadataLookupError else Ok spWindowIndex.

(** The scan [for (row = 1; row < itsNumberOfRows; ++row)] of the two
    uniformity methods: the first row whose column value differs from
    [current], if the scan meets one.  [todo] counts the turns left. *)
Fixpoint first_mismatch (col : Row -> Z) (t : Table) (view : RefTable)
    (top : nat) (current : Z) (row todo : nat) : result (option nat) :=
  match todo with
  | O => Ok None
  | S todo' =>
      r <- cell t view (row + top) ;;
      if negb (Z.eqb (col r) current) then Ok (Some row)
      else first_mismatch col t view top current (S row) todo'
  end.

Definition reduce_rows (m : option nat) (it : TableConstDataIterator)
  : TableConstDataIterator :=
  match m with
  | Some row => set_itsNumberOfRows row it
  | None => it
  end.

(** The check of the beam details made by [makeUniformDataDescID] for a new
    data descriptor while the direction cache is valid. *)
Definition checkBeamDetails (it : TableConstDataIterator) : result TableConstDataIterator :=
  if itsDirectionCache (itsCaches it) then
    spWindow <- currentSpWindowID it ;;
    epoch <- currentEpoch it ;;
    z <- Feed.allBeamOffsetsZero (itsFeed it) epoch spWindow ;;
    let it := set_itsFeed (snd z) it in
    if negb (fst z) then
      if Feed.newBeamDetails (itsFeed it) epoch spWindow
      then Ok (update_caches invalidateRotatedUVW
                 (update_caches invalidateDirection it))
      else Ok it
    else Ok it
  else Ok it.

(** The shape of the visibility cube and the validity check of the channel
    selection, for the top row [r0] of a chunk with a new data descriptor. *)
Definition setUpShape (r0 : Row) (it : TableConstDataIterator)
  : result TableConstDataIterator :=
  let shape := shape (DATA r0) in
  check (negb (Nat.eqb (length shape) 0) && Nat.ltb (length shape) 3) AssertError ;;;
  let it := set_itsNumberOfPols (nth 0 shape 0) it in
  let it := set_itsNumberOfChannels
              (if Nat.ltb 1 (length shape) then nth 1 shape 0 else 1) it in
  if channelsSelected (itsSelector it) then
    let chanSelection := getChannelSelection (itsSelector it) in
    check (Z.geb (Z.of_nat (itsNumberOfChannels it))
                 (to_uInt (fst chanSelection + snd chanSelection)))
          SelectionError ;;;
    Ok it
  else Ok it.

(** The part of [makeUniformDataDescID] run when the data descriptor of the
    top row differs from the current one. *)
Definition newDataDescriptor (newDataDescID : Z) (r0 : Row) (it : TableConstDataIterator)
  : result TableConstDataIterator :=
  let it := update_caches invalidateSpectralCaches it in
  let it := set_itsCurrentDataDescID newDataDescID it in
  it <- checkBeamDetails it ;;
  setUpShape r0 it.

Definition makeUniformDataDescID (it : TableConstDataIterator)
  : result TableConstDataIterator :=
  r0 <- cell (table_ it) (itsCurrentIteration it) (itsCurrentTopRow it) ;;
  let newDataDescID := DATA_DESC_ID r0 in
  it <- (if negb (Z.eqb (itsCurrentDataDescID it) newDataDescID)
         then newDataDescriptor newDataDescID r0 it
         else Ok it) ;;
  let it := if frequenciesSelected (itsSelector it)
            then set_itsChannelsSelected false it else it in
  m <- first_mismatch DATA_DESC_ID (table_ it) (itsCurrentIteration it)
         (itsCurrentTopRow it) (itsCurrentDataDescID it) 1 (itsNumberOfRows it - 1) ;;
  Ok (reduce_rows m it).

Definition makeUniformFieldID (it : TableConstDataIterator)
  : result TableConstDataIterator :=
  if itsUseFieldID it then
    r0 <- cell (table_ it) (itsCurrentIteration it) (itsCurrentTopRow it) ;;
    let newFieldID := FIELD_ID r0 in
    let it :=
      if negb (Z.eqb newFieldID (itsCurrentFieldID it)) then
        let it := set_itsCurrentFieldID newFieldID it in
        update_caches invalidateDishPointing
          (update_caches invalidateParallacticAngle
             (update_caches invalidateRotatedUVW
                (update_caches invalidateDirection it)))
      else it in
    m <- first_mismatch FIELD_ID (table_ it) (itsCurrentIteration it)
           (itsCurrentTopRow it) (itsCurrentFieldID it) 1 (itsNumberOfRows it - 1) ;;
    Ok (reduce_rows m it)
  else Ok it.

(** The checks of [setUpIteration] made when a cache was in use; the
    operators [||] and [&&] of the source evaluate their right operand only
    when needed, and the feed handler refills its cache when asked whether
    all beam offsets are zero. *)
Definition checkCaches (it : TableConstDataIterator) : result TableConstDataIterator :=
  epoch <- currentEpoch it ;;
  spWindow <- currentSpWindowID it ;;
  let newField := if itsUseFieldID it then false
                  else Field.newField (itsField it) epoch in
  let allEq := allEquatorial (itsAntenna it) in
  let it := if newField || negb allEq
            then update_caches invalidateParallacticAngle it else it in
  c <- (if newField then Ok (true, itsFeed it)
        else if negb allEq || Feed.newBeamDetails (itsFeed it) epoch spWindow then
          z <- Feed.allBeamOffsetsZero (itsFeed it) epoch spWindow ;;
          Ok (negb (fst z), snd z)
        else Ok (false, itsFeed it)) ;;
  let it := set_itsFeed (snd c) it in
  if fst c then
    let it := update_caches invalidateRotatedUVW
                (update_caches invalidateDirection it) in
    Ok (if newField then update_caches invalidateDishPointing it else it)
  else Ok it.

Definition setUpIteration (it : TableConstDataIterator) : result TableConstDataIterator :=
  let it := set_itsCurrentIteration (TableIterator.table (itsTabIterator it)) it in
  let it := update_caches invalidateIterationCaches it in
  let nrow := length (itsCurrentIteration it) in
  let it := set_itsNumberOfRows (chunkLimit nrow (itsMaxChunkSize it)) it in
  it <- (if (itsDirectionCache (itsCaches it) || itsParallacticAngleCache (itsCaches it))
            && Z.leb 0 (itsCurrentDataDescID it)
         then checkCaches it else Ok it) ;;
  if negb (Nat.eqb (itsNumberOfRows it) 0) then
    it <- makeUniformDataDescID it ;;
    makeUniformFieldID it
  else
    let it := set_itsNumberOfChannels 0 it in
    let it := set_itsNumberOfPols 0 it in
    let it := set_itsCurrentDataDescID (-100)%Z it in
    let it := set_itsCurrentFieldID (-100)%Z it in
    Ok (update_caches invalidateDishPointing
          (update_caches invalidateParallacticAngle
             (update_caches invalidateRotatedUVW
                (update_caches invalidateDirection it)))).

(** [init()], also known as restart. *)
Definition init (it : TableConstDataIterator) : result TableConstDataIterator :=
  if negb (itsAtStart it) then
    let it := set_itsCurrentTopRow 0 it in
    let it := set_itsCurrentDataDescID (-100)%Z it in
    let it := set_itsCurrentFieldID (-100)%Z it in
    let it := set_itsUseFieldID (hasFIELD_ID (table_ it)) it in
    let view := match getTableSelector (itsSelector it) with
                | None => allRows (table_ it)
                | Some exprNode => select (table_ it) exprNode
                end in
    let it := set_itsTabIterator (TableIterator.make (timeKey (table_ it)) view) it in
    let it := set_itsChannelsSelected false it in
    let it := set_itsFlagData false it in
    it <- setUpIteration it ;;
    Ok (set_itsAtStart true it)
  else Ok it.

(** [next()], also known as advance; the outcome carries the returned flag. *)
Definition next (it : TableConstDataIterator) : result (bool * TableConstDataIterator) :=
  let it := set_itsAtStart false it in
  let it := set_itsCurrentTopRow (itsCurrentTopRow it + itsNumberOfRows it) it in
  it <- (if Nat.leb (length (itsCurrentIteration it)) (itsCurrentTopRow it) then
           let it := set_itsCurrentTopRow 0 it in
           let it := set_itsTabIterator
                       (TableIterator.next (timeKey (table_ it)) (itsTabIterator it)) it in
           if negb (TableIterator.pastEnd (itsTabIterator it))
           then setUpIteration it else Ok it
         else
           let remainder := length (itsCurrentIteration it) - itsCurrentTopRow it in
           let it := set_itsNumberOfRows (chunkLimit remainder (itsMaxChunkSize it)) it in
           let it := update_caches invalidateIterationCaches it in
           it <- makeUniformDataDescID it ;;
           makeUniformFieldID it) ;;
  Ok (hasMore it, it).

(** The members as the initialiser list of the constructor leaves them. *)
Definition initialiser (t : Table) (feed : Feed.t) (field : Field.t)
    (ant : Antenna) (dd : list (Z * Z)) (spw : list (list Q)) (sel : Selector)
    (maxChunkSize : Z) : TableConstDataIterator :=
  {| table_ := t; itsFeed := feed; itsField := field; itsAntenna := ant;
     itsDataDescription := dd; itsSpWindow := spw; itsSelector := sel;
     itsMaxChunkSize := maxChunkSize;
     itsTabIterator := TableIterator.mk [] [] [];
     itsCurrentIteration := [];
     itsCurrentTopRow := 0; itsNumberOfRows := 0;
     itsNumberOfChannels := 0; itsNumberOfPols := 0;
     itsCurrentDataDescID := 0; itsCurrentFieldID := 0;
     itsUseFieldID := false;
     itsCaches := {| itsDirectionCache := false;
                     itsParallacticAngleCache := false;
                     itsDishPointingCache := false;
                     accIterationCaches := false;
                     accSpectralCaches := false;
                     accRotatedUVW := false |};
     itsNumberOfChannelsSelected := 0; itsStartChannelSelected := 0;
     itsChannelsSelected := false; itsFlagData := false;
     itsAtStart := false |}.

(** The constructor: the initialiser list, then [init()]. *)
Definition mkTableConstDataIterator (t : Table) (feed : Feed.t) (field : Field.t)
    (ant : Antenna) (dd : list (Z * Z)) (spw : list (list Q)) (sel : Selector)
    (maxChunkSize : Z) : result TableConstDataIterator :=
  init (initialiser t feed field ant dd spw sel maxChunkSize).

(** The rows of the chunk the accessor presents: rows
    [itsCurrentTopRow, itsCurrentTopRow + itsNumberOfRows) of the current
    group, as row numbers of the main table. *)
Definition chunkRows (it : TableConstDataIterator) : list nat :=
  firstn (itsNumberOfRows it) (skipn (itsCurrentTopRow it) (itsCurrentIteration it)).

(** The chunks seen by the loop
    [for (it.init(); it.hasMore(); it.next()) { ... *it ... }];
    [None] when [fuel] turns do not reach the end of the loop. *)
Fixpoint delivered (fuel : nat) (it : TableConstDataIterator)
  : option (result (list (list nat))) :=
  match fuel with
  | O => None
  | S fuel' =>
      if hasMore it then
        match next it with
        | Err e => Some (Err e)
        | Ok (_, it') =>
            match delivered fuel' it' with
            | Some (Ok l) => Some (Ok (chunkRows it :: l))
            | other => other
            end
        end
      else Some (Ok [])
  end.

(** ** Cubes *)

(** [casacore::Cube<T>], indexed by row, channel and polarisation. *)
Record Cube (T : Type) : Type := {
  nrow : nat;
  ncolumn : nat;
  nplane : nat;
  at_ : nat -> nat -> nat -> T
}.

Definition emptyCube (T : Type) (dflt : T) : Cube T :=
  {| nrow := 0; ncolumn := 0; nplane := 0; at_ := fun _ _ _ => dflt |}.

(** [cube.resize(n, m, k)]: nothing happens when the shape is already the
    requested one; otherwise the cube gets new storage, whose elements are
    value-initialised. *)
Definition resize (T : Type) (dflt : T) (c : Cube T) (n m k : nat) : Cube T :=
  if Nat.eqb (nrow c) n && Nat.eqb (ncolumn c) m && Nat.eqb (nplane c) k then c
  else {| nrow := n; ncolumn := m; nplane := k; at_ := fun _ _ _ => dflt |}.

(** [cube.yzPlane(row) = v]; the library refuses a plane past the end. *)
Definition set_yzPlane (T : Type) (v : T) (row : nat) (c : Cube T) : result (Cube T) :=
  if Nat.leb (nrow c) row then Err ArrayConformanceError
  else Ok {| nrow := nrow c; ncolumn := ncolumn c; nplane := nplane c;
             at_ := fun r ch p => if Nat.eqb r row then v else at_ c r ch p |}.

(** [cube = v]: every element. *)
Definition set_all (T : Type) (v : T) (c : Cube T) : Cube T :=
  {| nrow := nrow c; ncolumn := ncolumn c; nplane := nplane c;
     at_ := fun _ _ _ => v |}.

(** The loop nest copying the slice [buf] (polarisation by channel) into
    row [row] of the cube. *)
Definition copy_row (T : Type) (buf : nat -> nat -> T) (row nChan nPol : nat)
    (c : Cube T) : Cube T :=
  {| nrow := nrow c; ncolumn := ncolumn c; nplane := nplane c;
     at_ := fun r ch p =>
              if Nat.eqb r row && Nat.ltb ch nChan && Nat.ltb p nPol
              then buf p ch else at_ c r ch p |}.

Definition cube_to_list (T : Type) (c : Cube T) : list (list (list T)) :=
  map (fun r => map (fun ch => map (fun p => at_ c r ch p) (seq 0 (nplane c)))
                    (seq 0 (ncolumn c)))
      (seq 0 (nrow c)).

(** [tableCol.getSlice(row, chanSlicer, buf, False)]: all polarisations and
    the channels [startChan, startChan + nChan) of an array cell, into a
    buffer of [nPol] by [nChan] elements that is not resized; the library
    refuses a slice that leaves the cell or does not fit the buffer. *)
Definition getSlice (T : Type) (a : Array T) (startChan nChan nPol : nat)
  : result (nat -> nat -> T) :=
  let nchanCell := if Nat.ltb 1 (length (shape a)) then nth 1 (shape a) 0 else 1 in
  if Nat.eqb (nth 0 (shape a) 0) nPol && Nat.leb (startChan + nChan) nchanCell
  then Ok (fun pol chan => elem a pol (startChan + chan))
  else Err ArrayConformanceError.

(** ** Whole-row flagging *)

(** The helper template [WholeRowFlagger<T>]: [copyRequired] tells whether
    the element-by-element copy is needed for a row. *)
Class WholeRowFlagger (T : Type) : Type := {
  copyRequired : Table -> RefTable -> nat -> Cube T -> result (bool * Cube T)
}.

(** The primary template: the parameters are not used. *)
#[export] Instance WholeRowFlagger_any (T : Type) : WholeRowFlagger T | 10 := {
  copyRequired := fun _ _ _ cube => Ok (true, cube)
}.

(** The specialisation for [casacore::Bool], reading FLAG_ROW. *)
#[export] Instance WholeRowFlagger_Bool : WholeRowFlagger bool | 0 := {
  copyRequired := fun t iteration row cube =>
    if hasFLAG_ROW t then
      r <- cell t iteration row ;;
      if FLAG_ROW r then
        cube' <- set_yzPlane true row cube ;;
        Ok (false, cube')
      else Ok (true, cube)
    else Ok (true, cube)
}.

(** ** Channel range *)

(** Conversion of [long] to [int]. *)
Definition to_Int (z : Z) : Z := ((z + 2 ^ 31) mod 2 ^ 32 - 2 ^ 31)%Z.

(** [std::lrint] in the default rounding mode: to nearest, ties to even. *)
Definition lrint (x : Q) : Z :=
  let f := Qfloor x in
  match Qcompare (x - inject_Z f) (1 # 2) with
  | Lt => f
  | Gt => (f + 1)%Z
  | Eq => if Z.even f then f else (f + 1)%Z
  end.

Definition getFrequencies (spw : list (list Q)) (spWindowID : Z) : result (list Q) :=
  match nth_error spw (Z.to_nat spWindowID) with
  | Some f => Ok f
  | None => Err MetadataLookupError
  end.

Definition getCurrentReferenceDir (it : TableConstDataIterator)
  : result (Field.MDirection * TableConstDataIterator) :=
  if itsUseFieldID it then
    check (Z.leb 0 (itsCurrentFieldID it)) FieldIdError ;;;
    d <- Field.getReferenceDirByID (itsField it) (Z.to_nat (itsCurrentFieldID it)) ;;
    Ok (fst d, set_itsField (snd d) it)
  else
    epoch <- currentEpoch it ;;
    d <- Field.getReferenceDir (itsField it) epoch ;;
    Ok (fst d, set_itsField (snd d) it).

(** The channel of a linear frequency axis nearest to a frequency. *)
Definition nearestChannelOf (requiredFreq : Q) (dataFreqs : list Q) : Z :=
  let f0 := nth 0 dataFreqs 0%Q in
  let freqInc := (nth 1 dataFreqs 0%Q - f0)%Q in
  let channel := ((requiredFreq - f0) / freqInc)%Q in
  to_Int (lrint channel).

(** The test that the frequency axis is linear. *)
Definition linearAxis (dataFreqs : list Q) : bool :=
  let nFreq := length dataFreqs in
  let f0 := nth 0 dataFreqs 0%Q in
  let freqInc := (nth 1 dataFreqs 0%Q - f0)%Q in
  Qltb (Qabs ((nth (nFreq - 1) dataFreqs 0%Q - f0)
              / (inject_Z (Z.of_nat (nFreq - 1)) * freqInc) - 1)%Q)
       (1 # 1000)%Q.

Section ChannelRange.

(** The frequency conversion of the measures library, from the frame of
    the selection to the frame of the data, for the frame made of an epoch
    and a direction (and the position of antenna 0). *)
Variable backw : Q -> Field.MDirection -> Q -> Q.

(** The direction of the frame in which the frequency is converted: the one
    of the selected frequency if it has one, otherwise the pointing. *)
Definition velocityDirection (it : TableConstDataIterator)
  : result (Field.MDirection * TableConstDataIterator) :=
  match itsFreqDirection (itsSelector it) with
  | Some dir => Ok (dir, it)
  | None => getCurrentReferenceDir it
  end.

(** The frequency-based branch of [getChannelRange].  The comparisons of
    the [int] channel with the [uint] length of the axis are made after the
    conversion of the channel to [uint]. *)
Definition frequencyRange (it : TableConstDataIterator) : result TableConstDataIterator :=
  let sel := itsSelector it in
  check (Z.leb (itsNFreq sel) 1) FrequencySelectionError ;;;
  d <- velocityDirection it ;;
  let velDir := fst d in
  let it := snd d in
  epoch <- currentEpoch it ;;
  spw <- currentSpWindowID it ;;
  let requiredFreq := backw epoch velDir (itsFreqStart sel) in
  dataFreqs <- getFrequencies (itsSpWindow it) spw ;;
  let it := set_itsNumberOfChannelsSelected 1 it in
  let it := set_itsStartChannelSelected 0 it in
  let nFreq := length dataFreqs in
  if Nat.ltb 1 nFreq then
    check (linearAxis dataFreqs) FrequencySelectionError ;;;
    let nearestChannel := nearestChannelOf requiredFreq dataFreqs in
    if Z.leb 0 nearestChannel && Z.ltb (to_uInt nearestChannel) (Z.of_nat nFreq) then
      Ok (set_itsFlagData false
            (set_itsStartChannelSelected (Z.to_nat (to_uInt nearestChannel)) it))
    else if Z.geb (to_uInt nearestChannel) (Z.of_nat nFreq) then
      Ok (set_itsStartChannelSelected (nFreq - 1) it)
    else Ok it
  else Ok it.

(** The channel-based branch of [getChannelRange]. *)
Definition channelRange (it : TableConstDataIterator) : TableConstDataIterator :=
  let sel := itsSelector it in
  let chanSelection := getChannelSelection sel in
  let it := set_itsNumberOfChannelsSelected
              (if channelsSelected sel then Z.to_nat (to_uInt (fst chanSelection))
               else itsNumberOfChannels it) it in
  let it := set_itsStartChannelSelected
              (if channelsSelected sel then Z.to_nat (to_uInt (snd chanSelection))
               else 0) it in
  set_itsFlagData false it.

(** The pair is (number of channels, first channel); the mutable members
    caching the range are part of the outcome. *)
Definition getChannelRange (it : TableConstDataIterator)
  : result ((nat * nat) * TableConstDataIterator) :=
  it <- (if negb (itsChannelsSelected it) then
           let it := set_itsFlagData true it in
           it <- (if frequenciesSelected (itsSelector it)
                  then frequencyRange it
                  else Ok (channelRange it)) ;;
           Ok (set_itsChannelsSelected true it)
         else Ok it) ;;
  Ok ((itsNumberOfChannelsSelected it, itsStartChannelSelected it), it).

Definition nChannel (it : TableConstDataIterator) : result (nat * TableConstDataIterator) :=
  r <- getChannelRange it ;; Ok (fst (fst r), snd r).

Definition startChannel (it : TableConstDataIterator)
  : result (nat * TableConstDataIterator) :=
  r <- getChannelRange it ;; Ok (snd (fst r), snd r).

(** ** Reading a column into a cube *)

(** One turn of the loop over the rows of [fillCube]. *)
Definition fillCube_row (T : Type) (F : WholeRowFlagger T) (col : Row -> Array T)
    (it : TableConstDataIterator) (nChan startChan : nat) (row : nat) (cube : Cube T)
  : result (Cube T) :=
  rs <- cell (table_ it) (itsCurrentIteration it) row ;;
  let shape := shape (col rs) in
  check (negb (Nat.eqb (length shape) 0) && Nat.ltb (length shape) 3) AssertError ;;;
  let thisRowNumberOfPols := nth 0 shape 0 in
  let thisRowNumberOfChannels := if Nat.ltb 1 (length shape) then nth 1 shape 0 else 1 in
  check (Nat.eqb thisRowNumberOfPols (itsNumberOfPols it)) (PolShapeMismatch row) ;;;
  check (Nat.eqb thisRowNumberOfChannels (itsNumberOfChannels it)) (ChanShapeMismatch row) ;;;
  c <- copyRequired (table_ it) (itsCurrentIteration it) (row + itsCurrentTopRow it) cube ;;
  if fst c then
    rd <- cell (table_ it) (itsCurrentIteration it) (row + itsCurrentTopRow it) ;;
    buf <- getSlice (col rd) startChan nChan (itsNumberOfPols it) ;;
    Ok (copy_row buf row nChan (itsNumberOfPols it) (snd c))
  else Ok (snd c).

Fixpoint fillCube_loop (T : Type) (F : WholeRowFlagger T) (col : Row -> Array T)
    (it : TableConstDataIterator) (nChan startChan : nat) (row todo : nat)
    (cube : Cube T) : result (Cube T) :=
  match todo with
  | O => Ok cube
  | S todo' =>
      cube' <- fillCube_row F col it nChan startChan row cube ;;
      fillCube_loop F col it nChan startChan (S row) todo' cube'
  end.

Definition fillCube (T : Type) (F : WholeRowFlagger T) (dflt : T) (col : Row -> Array T)
    (cube : Cube T) (it : TableConstDataIterator)
  : result (Cube T * TableConstDataIterator) :=
  n <- nChannel it ;;
  let nChan := fst n in
  s <- startChannel (snd n) ;;
  let startChan := fst s in
  let it := snd s in
  let cube := resize dflt cube (itsNumberOfRows it) nChan (itsNumberOfPols it) in
  cube' <- fillCube_loop F col it nChan startChan 0 (itsNumberOfRows it) cube ;;
  Ok (cube', it).

Definition fillVisibility (vis : Cube Complex) (it : TableConstDataIterator)
  : result (Cube Complex * TableConstDataIterator) :=
  fillCube _ (0%Q, 0%Q) DATA vis it.

Definition fillFlag (flag : Cube bool) (it : TableConstDataIterator)
  : result (Cube bool * TableConstDataIterator) :=
  r <- fillCube _ false FLAG flag it ;;
  if itsFlagData (snd r) then Ok (set_all true (fst r), snd r) else Ok r.

End ChannelRange.

(** ** Writing the original cubes back

    [TableDataIterator] extends the read-only iterator; the members it adds
    (the named buffers and the iteration counter) take no part in the methods
    below, which are therefore stated on the read-only part. *)

Fixpoint list_set (A : Type) (n : nat) (v : A) (l : list A) : list A :=
  match l, n with
  | [], _ => []
  | _ :: l', O => v :: l'
  | x :: l', S n' => x :: list_set n' v l'
  end.

(** Replacement of one row of a view in the store. *)
Definition updateRow (t : Table) (view : RefTable) (row : nat) (f : Row -> result Row)
  : result Table :=
  match nth_error view row with
  | Some n =>
      match nth_error (rows t) n with
      | Some r =>
          r' <- f r ;;
          Ok {| rows := list_set n r' (rows t);
                hasFIELD_ID := hasFIELD_ID t;
                hasFLAG_ROW := hasFLAG_ROW t |}
      | None => Err TableError
      end
  | None => Err TableError
  end.

(** [visCol.put(tableRow, buf)]: the cell becomes the buffer. *)
Definition put (T : Type) (buf : nat -> nat -> T) (nPol nChan : nat) (a : Array T)
  : result (Array T) :=
  Ok {| shape := [nPol; nChan]; elem := buf |}.

(** [visCol.putSlice(tableRow, chanSlicer, buf)]: the channels
    [startChan, startChan + nChan) of the cell are overwritten; the library
    refuses a slice that leaves the cell or does not fit the buffer. *)
Definition putSlice (T : Type) (buf : nat -> nat -> T) (nPol nChan startChan : nat)
    (a : Array T) : result (Array T) :=
  let nchanCell := if Nat.ltb 1 (length (shape a)) then nth 1 (shape a) 0 else 1 in
  if Nat.eqb (nth 0 (shape a) 0) nPol && Nat.leb (startChan + nChan) nchanCell
  then Ok {| shape := shape a;
             elem := fun pol chan =>
                       if Nat.leb startChan chan && Nat.ltb chan (startChan + nChan)
                       then buf pol (chan - startChan)
                       else elem a pol chan |}
  else Err ArrayConformanceError.

Definition setDATA (a : Array Complex) (r : Row) : Row :=
  {| TIME := TIME r; ANTENNA1 := ANTENNA1 r; ANTENNA2 := ANTENNA2 r;
     FEED1 := FEED1 r; FEED2 := FEED2 r; DATA_DESC_ID := DATA_DESC_ID r;
     FIELD_ID := FIELD_ID r; FLAG_ROW := FLAG_ROW r; DATA := a; FLAG := FLAG r |}.

Definition setFLAG (a : Array bool) (r : Row) : Row :=
  {| TIME := TIME r; ANTENNA1 := ANTENNA1 r; ANTENNA2 := ANTENNA2 r;
     FEED1 := FEED1 r; FEED2 := FEED2 r; DATA_DESC_ID := DATA_DESC_ID r;
     FIELD_ID := FIELD_ID r; FLAG_ROW := FLAG_ROW r; DATA := DATA r; FLAG := a |}.

(** Whether some element of row [row] of a flag cube is not set. *)
Definition oneUnflagged (flags : Cube bool) (row : nat) : bool :=
  existsb (fun ch => existsb (fun p => negb (at_ flags row ch p)) (seq 0 (nplane flags)))
          (seq 0 (ncolumn flags)).

Section WriteBack.

Variable backw : Q -> Field.MDirection -> Q -> Q.

(** One turn of the loop of [writeCube]; [tableRow] is
    [getCurrentTopRow() + row]. *)
Definition writeCube_row (T : Type) (col : Row -> Array T)
    (setcol : Array T -> Row -> Row) (cube : Cube T) (nChan startChan : nat)
    (row : nat) (it : TableConstDataIterator) : result TableConstDataIterator :=
  let tableRow := itsCurrentTopRow it + row in
  rs <- cell (table_ it) (itsCurrentIteration it) row ;;
  let shape := shape (col rs) in
  let thisRowNumberOfPols := nth 0 shape 0 in
  let thisRowNumberOfChannels := if Nat.ltb 1 (length shape) then nth 1 shape 0 else 1 in
  check (Nat.eqb thisRowNumberOfPols (nplane cube)) WritePolMismatch ;;;
  check (negb (Nat.ltb thisRowNumberOfChannels (nChan + startChan))) WriteChanMismatch ;;;
  let useSlicer := negb (Nat.eqb startChan 0)
                   || negb (Nat.eqb (startChan + nChan) thisRowNumberOfChannels) in
  let buf := fun pol chan => at_ cube row chan pol in
  t' <- updateRow (table_ it) (itsCurrentIteration it) tableRow
          (fun r =>
             a <- (if useSlicer
                   then putSlice buf (itsNumberOfPols it) nChan startChan (col r)
                   else put buf (itsNumberOfPols it) nChan (col r)) ;;
             Ok (setcol a r)) ;;
  Ok (set_table_ t' it).

Fixpoint writeCube_loop (T : Type) (col : Row -> Array T)
    (setcol : Array T -> Row -> Row) (cube : Cube T) (nChan startChan : nat)
    (row todo : nat) (it : TableConstDataIterator) : result TableConstDataIterator :=
  match todo with
  | O => Ok it
  | S todo' =>
      it' <- writeCube_row col setcol cube nChan startChan row it ;;
      writeCube_loop col setcol cube nChan startChan (S row) todo' it'
  end.

Definition writeCube (T : Type) (col : Row -> Array T) (setcol : Array T -> Row -> Row)
    (cube : Cube T) (it : TableConstDataIterator) : result TableConstDataIterator :=
  n <- nChannel backw it ;;
  let nChan := fst n in
  s <- startChannel backw (snd n) ;;
  let startChan := fst s in
  let it := snd s in
  check (Nat.eqb (nrow cube) (itsNumberOfRows it) && Nat.eqb (ncolumn cube) nChan
         && Nat.eqb (nplane cube) (itsNumberOfPols it)) AssertError ;;;
  writeCube_loop col setcol cube nChan startChan 0 (nrow cube) it.

Definition writeOriginalVis (vis : Cube Complex) (it : TableConstDataIterator)
  : result TableConstDataIterator :=
  writeCube DATA setDATA vis it.

(** The check of the rows of the new flag cube against FLAG_ROW. *)
Fixpoint checkRowFlags (it : TableConstDataIterator) (flags : Cube bool)
    (row todo : nat) : result unit :=
  match todo with
  | O => Ok tt
  | S todo' =>
      r <- cell (table_ it) (itsCurrentIteration it) (row + itsCurrentTopRow it) ;;
      (if FLAG_ROW r
       then check (negb (oneUnflagged flags row)) (ConsistencyError row)
       else Ok tt) ;;;
      checkRowFlags it flags (S row) todo'
  end.

(** [flags] is the flag cube of the accessor, as the caller left it. *)
Definition writeOriginalFlag (flags : Cube bool) (it : TableConstDataIterator)
  : result TableConstDataIterator :=
  let rowBasedFlagUsed := hasFLAG_ROW (table_ it) in
  (if rowBasedFlagUsed then checkRowFlags it flags 0 (nrow flags) else Ok tt) ;;;
  writeCube FLAG setFLAG flags it.

End WriteBack.

(** ** Parallactic angles *)

(** [angles.resize(n)]: nothing happens when the length is already [n];
    otherwise the vector gets new storage, whose elements are
    value-initialised. *)
Definition resizeVector (angles : list Q) (n : nat) : list Q :=
  if Nat.eqb (length angles) n then angles else repeat 0%Q n.

Definition isMount (antMount upper lower : string) : bool :=
  String.eqb antMount upper || String.eqb antMount lower.

Section ParallacticAngle.

(** The position angle, computed by the measures library, between the
    reference direction and the celestial pole as seen from an antenna at
    an epoch. *)
Variable positionAngle : nat -> Q -> Field.MDirection -> Q.

(** The loop over the antennas of [fillParallacticAngleCache]. *)
Fixpoint fillAngles_loop (a : Antenna) (epoch : Q) (antReferenceDir : Field.MDirection)
    (ant todo : nat) (angles : list Q) : result (list Q) :=
  match todo with
  | O => Ok angles
  | S todo' =>
      let antMount := getMount a ant in
      angles' <-
        (if isMount antMount "ALT-AZ" "alt-az"
         then Ok (list_set ant (positionAngle ant epoch antReferenceDir) angles)
         else if isMount antMount "FIXED" "fixed"
         then Ok (list_set ant 0%Q angles)
         else if isMount antMount "X-Y" "x-y"
         then Ok (list_set ant 0%Q angles)
         else if negb (String.eqb antMount "EQUATORIAL")
                 && negb (String.eqb antMount "equatorial")
         then Err (UnknownMountError ant antMount)
         else Ok angles) ;;
      fillAngles_loop a epoch antReferenceDir (S ant) todo' angles'
  end.

(** [angles] is the buffer of the parallactic angle cache. *)
Definition fillParallacticAngleCache (angles : list Q) (it : TableConstDataIterator)
  : result (list Q * TableConstDataIterator) :=
  let angles := resizeVector angles (getNumberOfAntennas (itsAntenna it)) in
  if allEquatorial (itsAntenna it) then
    Ok (repeat 0%Q (length angles), it)
  else
    epoch <- currentEpoch it ;;
    d <- getCurrentReferenceDir it ;;
    angles' <- fillAngles_loop (itsAntenna it) epoch (fst d) 0 (length angles) angles ;;
    Ok (angles', snd d).

End ParallacticAngle.

Open Scope string_scope.

(** ** Further exceptions

    The exceptions of the parts below, by class, with the text of the
    message up to the first value streamed into it. *)
Inductive Exception : Type :=
| Raised (e : Error)                  (* an exception of the parts above *)
| CheckError (message : string)       (* ASKAPCHECK *)
| DataAccessError (message : string)  (* ASKAPTHROW(DataAccessError, ...) *)
| AskapError (message : string).      (* ASKAPTHROW(AskapError, ...) *)

Inductive outcome (A : Type) : Type :=
| Return (a : A)
| Throw (e : Exception).
Arguments Return {A} a.
Arguments Throw {A} e.

Definition andThen {A B : Type} (c : outcome A) (k : A -> outcome B) : outcome B :=
  match c with
  | Return a => k a
  | Throw e => Throw e
  end.

Declare Scope outcome_scope.
Delimit Scope outcome_scope with outcome.
Notation "x <~ c ;; k" := (andThen c (fun x => k))
  (at level 61, c at next level, right associativity) : outcome_scope.
Notation "c ~;; k" := (andThen c (fun _ => k))
  (at level 61, right associativity) : outcome_scope.
Open Scope outcome_scope.

(** A call into the parts above. *)
Definition call {A : Type} (c : result A) : outcome A :=
  match c with
  | Ok a => Return a
  | Err e => Throw (Raised e)
  end.

Definition ASKAPCHECK (cond : bool) (message : string) : outcome unit :=
  if cond then Return tt else Throw (CheckError message).

(** ** Columns read by row

    A column of the main table is the list of its cells by row number; a
    column attached to a view is read through the row numbers of the
    view. *)
Definition column (X : Type) (field : Row -> X) (t : Table) : list X :=
  map field (rows t).

Definition getCell (X : Type) (col : list X) (view : RefTable) (row : nat) : result X :=
  match nth_error view row with
  | Some n =>
      match nth_error col n with
      | Some x => Ok x
      | None => Err TableError
      end
  | None => Err TableError
  end.

(** [col.getColumnRange(Slicer(IPosition(1, start), IPosition(1, n)))]. *)
Fixpoint getColumnRange (X : Type) (col : list X) (view : RefTable) (start n : nat)
  : result (list X) :=
  match n with
  | O => Ok []
  | S n' =>
      x <- getCell col view start ;;
      l <- getColumnRange col view (S start) n' ;;
      Ok (x :: l)
  end.

(** The column of [casacore::Int] named in the call is [col]; the vector
    of [casacore::uInt] is the outcome. *)
Definition fillVectorOfIDs (col : list Z) (it : TableConstDataIterator)
  : result (list Z) :=
  buf <- getColumnRange col (itsCurrentIteration it) (itsCurrentTopRow it)
           (itsNumberOfRows it) ;;
  Ok (map to_uInt buf).

Definition fillAntenna1 (it : TableConstDataIterator) : result (list Z) :=
  fillVectorOfIDs (column ANTENNA1 (table_ it)) it.

Definition fillAntenna2 (it : TableConstDataIterator) : result (list Z) :=
  fillVectorOfIDs (column ANTENNA2 (table_ it)) it.

Definition fillFeed1 (it : TableConstDataIterator) : result (list Z) :=
  fillVectorOfIDs (column FEED1 (table_ it)) it.

Definition fillFeed2 (it : TableConstDataIterator) : result (list Z) :=
  fillVectorOfIDs (column FEED2 (table_ it)) it.

(** The cross-check of the scan numbers of the rows after the first. *)
Fixpoint scanIDsAgree (scanID : Z) (ids : list Z) : outcome unit :=
  match ids with
  | [] => Return tt
  | id :: ids' =>
      ASKAPCHECK (Z.eqb scanID id) "Scan ID seem to differ for row=" ~;;
      scanIDsAgree scanID ids'
  end.

(** [SCAN_NUMBER] is the column of that name. *)
Definition currentScanID (SCAN_NUMBER : list Z) (it : TableConstDataIterator)
  : outcome Z :=
  ids <~ call (fillVectorOfIDs SCAN_NUMBER it) ;;
  ASKAPCHECK (Nat.ltb 0 (length ids))
             "An attempt to extract scan ID for empty iteration" ~;;
  let scanID := nth 0 ids 0%Z in
  scanIDsAgree scanID (tl ids) ~;;
  Return scanID.

(** [currentFieldID()]: the member is converted to [casacore::uInt]. *)
Definition currentFieldID (it : TableConstDataIterator) : Z :=
  if itsUseFieldID it then to_uInt (itsCurrentFieldID it) else 0%Z.

(** ** Selection by scalar fields

    [TableScalarFieldSelector] keeps one table expression, [itsTableSelector],
    which every choice narrows.  A table expression is a predicate on the
    rows of the main table; the expression that [isNull()] is [None]. *)
Module TableScalarFieldSelector.
Section Def.

Variable R : Type.                        (* a row of the main table *)
Variable col : string -> R -> Z.          (* [table().col(name)], an integer column *)
Variable UVW : R -> Array Q.              (* the cell of the UVW column *)
Variable sqrt : Q -> Q.
Variable getDescIDsForSpWinID : Z -> list nat.
                                          (* of the DATA_DESCRIPTION holder *)

Definition TableExprNode : Type := option (R -> bool).

Definition ndim (a : Array Q) : nat := length (shape a).
Definition nelements (a : Array Q) : nat := fold_right Nat.mul 1 (shape a).
Definition square (x : Q) : Q := (x * x)%Q.

(** [uvwExprNode(IPosition(1, i))]. *)
Definition uvwElement (i : nat) (r : R) : Q := elem (UVW r) i 0.

Definition uvDistance (r : R) : Q :=
  sqrt (square (uvwElement 0 r) + square (uvwElement 1 r))%Q.

Definition chooseFeed (feedID : Z) (itsTableSelector : TableExprNode) : TableExprNode :=
  match itsTableSelector with
  | None =>
      Some (fun r => Z.eqb (col "FEED1" r) (to_Int feedID) &&
                     Z.eqb (col "FEED2" r) (to_Int feedID))
  | Some e =>
      Some (fun r => e r && Z.eqb (col "FEED1" r) (to_Int feedID) &&
                     Z.eqb (col "FEED2" r) (to_Int feedID))
  end.

Definition chooseUserDefinedIndex (column : string) (value : Z)
    (itsTableSelector : TableExprNode) : TableExprNode :=
  match itsTableSelector with
  | None => Some (fun r => Z.eqb (col column r) value)
  | Some e => Some (fun r => e r && Z.eqb (col column r) value)
  end.

Definition chooseBaseline (ant1 ant2 : Z) (itsTableSelector : TableExprNode)
  : TableExprNode :=
  match itsTableSelector with
  | None =>
      Some (fun r => Z.eqb (col "ANTENNA1" r) (to_Int ant1) &&
                     Z.eqb (col "ANTENNA2" r) (to_Int ant2))
  | Some e =>
      Some (fun r => e r && Z.eqb (col "ANTENNA1" r) (to_Int ant1) &&
                     Z.eqb (col "ANTENNA2" r) (to_Int ant2))
  end.

Definition chooseAntenna (ant : Z) (itsTableSelector : TableExprNode) : TableExprNode :=
  match itsTableSelector with
  | None =>
      Some (fun r => Z.eqb (col "ANTENNA1" r) (to_Int ant) ||
                     Z.eqb (col "ANTENNA2" r) (to_Int ant))
  | Some e =>
      Some (fun r => e r && (Z.eqb (col "ANTENNA1" r) (to_Int ant) ||
                             Z.eqb (col "ANTENNA2" r) (to_Int ant)))
  end.

Definition chooseMinUVDistance (uvDist : Q) (itsTableSelector : TableExprNode)
  : TableExprNode :=
  match itsTableSelector with
  | None =>
      Some (fun r => Nat.eqb (ndim (UVW r)) 1 && Nat.leb 2 (nelements (UVW r)) &&
                     Qleb uvDist (uvDistance r))
  | Some e =>
      Some (fun r => e r && Nat.eqb (ndim (UVW r)) 1 &&
                     Nat.leb 2 (nelements (UVW r)) &&
                     Qleb uvDist (uvDistance r))
  end.

Definition chooseMinNonZeroUVDistance (uvDist : Q) (itsTableSelector : TableExprNode)
  : TableExprNode :=
  let zero := fun r => Qeqb (uvwElement 0 r) 0 && Qeqb (uvwElement 1 r) 0 &&
                       Qeqb (uvwElement 2 r) 0 in
  match itsTableSelector with
  | None =>
      Some (fun r => Nat.eqb (ndim (UVW r)) 1 && Nat.leb 3 (nelements (UVW r)) &&
                     (Qleb uvDist (uvDistance r) || zero r))
  | Some e =>
      Some (fun r => e r && Nat.eqb (ndim (UVW r)) 1 &&
                     Nat.leb 3 (nelements (UVW r)) &&
                     (Qleb uvDist (uvDistance r) || zero r))
  end.

(** On an expression that is not null the number of elements is compared
    with [>], on a null one with [>=]. *)
Definition chooseMaxUVDistance (uvDist : Q) (itsTableSelector : TableExprNode)
  : TableExprNode :=
  match itsTableSelector with
  | None =>
      Some (fun r => Nat.eqb (ndim (UVW r)) 1 && Nat.leb 2 (nelements (UVW r)) &&
                     Qleb (uvDistance r) uvDist)
  | Some e =>
      Some (fun r => e r && Nat.eqb (ndim (UVW r)) 1 &&
                     Nat.ltb 2 (nelements (UVW r)) &&
                     Qleb (uvDistance r) uvDist)
  end.

Definition chooseScanNumber (scanNumber : Z) (itsTableSelector : TableExprNode)
  : TableExprNode :=
  match itsTableSelector with
  | None => Some (fun r => Z.eqb (col "SCAN_NUMBER" r) (to_Int scanNumber))
  | Some e => Some (fun r => e r && Z.eqb (col "SCAN_NUMBER" r) (to_Int scanNumber))
  end.

Definition chooseAutoCorrelations (itsTableSelector : TableExprNode) : TableExprNode :=
  match itsTableSelector with
  | None =>
      Some (fun r => Z.eqb (col "ANTENNA1" r) (col "ANTENNA2" r) &&
                     Z.eqb (col "FEED1" r) (col "FEED2" r))
  | Some e =>
      Some (fun r => e r && Z.eqb (col "ANTENNA1" r) (col "ANTENNA2" r) &&
                     Z.eqb (col "FEED1" r) (col "FEED2" r))
  end.

Definition chooseCrossCorrelations (itsTableSelector : TableExprNode) : TableExprNode :=
  match itsTableSelector with
  | None =>
      Some (fun r => negb (Z.eqb (col "ANTENNA1" r) (col "ANTENNA2" r)) ||
                     negb (Z.eqb (col "FEED1" r) (col "FEED2" r)))
  | Some e =>
      Some (fun r => e r && (negb (Z.eqb (col "ANTENNA1" r) (col "ANTENNA2" r)) ||
                             negb (Z.eqb (col "FEED1" r) (col "FEED2" r))))
  end.

(** One spectral window can correspond to several data description ids; a
    window with none replaces the expression by a dummy that holds for no
    row. *)
Definition chooseSpectralWindow (spWinID : Z) (itsTableSelector : TableExprNode)
  : TableExprNode :=
  match getDescIDsForSpWinID (to_Int spWinID) with
  | ci :: rest =>
      let tempNode :=
        fold_left (fun (node : R -> bool) (id : nat) =>
                     fun r => node r ||
                              Z.eqb (col "DATA_DESC_ID" r) (to_Int (Z.of_nat id)))
                  rest
                  (fun r => Z.eqb (col "DATA_DESC_ID" r) (to_Int (Z.of_nat ci))) in
      match itsTableSelector with
      | None => Some tempNode
      | Some e => Some (fun r => e r && tempNode r)
      end
  | [] => Some (fun r => Z.eqb (col "DATA_DESC_ID" r) (-1) && false)
  end.

(** A row passes a table expression; the null expression lets every row
    pass (the iterator then walks the whole table). *)
Definition accepts (e : TableExprNode) (r : R) : bool :=
  match e with
  | None => true
  | Some f => f r
  end.

(** A call of one of the choice methods. *)
Inductive Choice : Type :=
| ChooseFeed (feedID : Z)
| ChooseUserDefinedIndex (column : string) (value : Z)
| ChooseBaseline (ant1 ant2 : Z)
| ChooseAntenna (ant : Z)
| ChooseMinUVDistance (uvDist : Q)
| ChooseMinNonZeroUVDistance (uvDist : Q)
| ChooseMaxUVDistance (uvDist : Q)
| ChooseScanNumber (scanNumber : Z)
| ChooseAutoCorrelations
| ChooseCrossCorrelations
| ChooseSpectralWindow (spWinID : Z).

Definition choose (c : Choice) (e : TableExprNode) : TableExprNode :=
  match c with
  | ChooseFeed feedID => chooseFeed feedID e
  | ChooseUserDefinedIndex column value => chooseUserDefinedIndex column value e
  | ChooseBaseline ant1 ant2 => chooseBaseline ant1 ant2 e
  | ChooseAntenna ant => chooseAntenna ant e
  | ChooseMinUVDistance uvDist => chooseMinUVDistance uvDist e
  | ChooseMinNonZeroUVDistance uvDist => chooseMinNonZeroUVDistance uvDist e
  | ChooseMaxUVDistance uvDist => chooseMaxUVDistance uvDist e
  | ChooseScanNumber scanNumber => chooseScanNumber scanNumber e
  | ChooseAutoCorrelations => chooseAutoCorrelations e
  | ChooseCrossCorrelations => chooseCrossCorrelations e
  | ChooseSpectralWindow spWinID => chooseSpectralWindow spWinID e
  end.

(** The calls [cs], made one after the other. *)
Definition chooseAll (cs : list Choice) (e : TableExprNode) : TableExprNode :=
  fold_left (fun e c => choose c e) cs e.

Definition isMaxUVDistance (c : Choice) : bool :=
  match c with
  | ChooseMaxUVDistance _ => true
  | _ => false
  end.

(** What a choice asks of a row, when it is made on an expression that is
    not null. *)
Definition criterion (c : Choice) (r : R) : bool :=
  accepts (choose c (Some (fun _ => true))) r.

End Def.
End TableScalarFieldSelector.

(** ** Calibration solution sources

    [TableCalSolutionConstSource] and [TableCalSolutionSource] find and
    create calibration solutions in a table with one row per solution; a
    solution ID is a row number.  Of the table, the number of rows and the
    TIME column take part, the latter as the epoch of each row converted to
    UTC seconds, when the column exists.  The message of an exception is
    kept up to the first value streamed into it. *)
Module TableCalSolutionSource.

Record Table : Type := {
  nrow : nat;
  TIME : option (nat -> Q)      (* [None]: the table has no TIME column *)
}.

Definition mostRecentSolution (tab : Table) : Z :=
  if Nat.ltb 0 (nrow tab) then (Z.of_nat (nrow tab) - 1)%Z else (-1)%Z.

(** The column object attached to TIME; the table library refuses a column
    that does not exist. *)
Definition bufCol (tab : Table) : outcome (nat -> Q) :=
  match TIME tab with
  | Some col => Return col
  | None => Throw (Raised TableError)
  end.

(** [for (row = nrow; row > 0; --row)]. *)
Fixpoint searchBefore (col : nat -> Q) (time : Q) (row : nat) : outcome (Z * Q) :=
  match row with
  | O => Throw (AskapError "Unable to find solution matching the time ")
  | S row' =>
      let cTime := col row' in
      if Qleb cTime time then Return ((Z.of_nat row - 1)%Z, cTime)
      else searchBefore col time row'
  end.

Definition solutionIDBefore (tab : Table) (time : Q) : outcome (Z * Q) :=
  call (check (Nat.ltb 0 (nrow tab)) AssertError) ~;;
  col <~ bufCol tab ;;
  searchBefore col time (nrow tab).

Definition solutionID (tab : Table) (time : Q) : outcome Z :=
  r <~ solutionIDBefore tab time ;;
  Return (fst r).

(** [for (row = 0; row < nrow; ++row)]; [todo] counts the turns left. *)
Fixpoint searchAfter (col : nat -> Q) (time : Q) (row todo : nat) : option (Z * Q) :=
  match todo with
  | O => None
  | S todo' =>
      let cTime := col row in
      if Qleb time cTime then Some (Z.of_nat row, cTime)
      else searchAfter col time (S row) todo'
  end.

Definition solutionIDAfter (tab : Table) (time : Q) : outcome (Z * Q) :=
  call (check (Nat.ltb 0 (nrow tab)) AssertError) ~;;
  col <~ bufCol tab ;;
  match searchAfter col time 0 (nrow tab) with
  | Some r => Return r
  | None => solutionIDBefore tab time
  end.

(** [newSolutionID]: a table without TIME column gets one, whose cells
    hold the default value; then a row is added and its time stamp put. *)
Definition newSolutionID (tab : Table) (time : Q) : Z * Table :=
  let col := match TIME tab with
             | Some col => col
             | None => fun _ => 0%Q
             end in
  let newRow := nrow tab in
  (Z.of_nat newRow,
   {| nrow := S (nrow tab);
      TIME := Some (fun row => if Nat.eqb row newRow then time else col row) |}).

(** The check of [roSolution] and [rwSolution] on a solution ID. *)
Definition checkSolutionID (tab : Table) (id : Z) : outcome unit :=
  ASKAPCHECK (Z.leb 0 id && Z.ltb id (Z.of_nat (nrow tab)))
             "Requested solution id=".

End TableCalSolutionSource.

(** ** Calibration solution accessors *)
Module ICalSolutionConstAccessor.

Definition Cmul (a b : Complex) : Complex :=
  (fst a * fst b - snd a * snd b, fst a * snd b + snd a * fst b)%Q.

Definition Cneg (a : Complex) : Complex := (- fst a, - snd a)%Q.

(** The parallel-hand gains of an antenna and beam with their validity
    flags, as the four-argument constructor takes and the methods [g1],
    [g1IsValid], [g2] and [g2IsValid] give them. *)
Record JonesJTerm : Type := {
  g1 : Complex;
  g1IsValid : bool;
  g2 : Complex;
  g2IsValid : bool
}.

(** The cross-hand leakages, likewise. *)
Record JonesDTerm : Type := {
  d12 : Complex;
  d12IsValid : bool;
  d21 : Complex;
  d21IsValid : bool
}.

(** [JonesIndex]: antenna and beam. *)
Definition JonesIndex : Type := (Z * Z)%type.

(** The methods that the classes implementing the interface provide. *)
Record Accessor : Type := {
  gain : JonesIndex -> JonesJTerm;
  leakage : JonesIndex -> JonesDTerm;
  bandpass : JonesIndex -> Z -> JonesJTerm;
  bpleakage : JonesIndex -> Z -> JonesDTerm
}.

(** [casacore::SquareMatrix<Complex, 2>], by type of matrix; the default
    constructor of the library gives the scalar identity. *)
Inductive SquareMatrix : Type :=
| ScalarId (a : Complex)
| Diagonal (a00 a11 : Complex)
| General (a00 a01 a10 a11 : Complex).

Definition jonesAllValid (acc : Accessor) (index : JonesIndex) (chan : Z) : bool :=
  let gTerm := gain acc index in
  let bpTerm := bandpass acc index chan in
  let dTerm := leakage acc index in
  let bpdTerm := bpleakage acc index chan in
  g1IsValid gTerm && g2IsValid gTerm && g1IsValid bpTerm && g2IsValid bpTerm &&
  d12IsValid dTerm && d21IsValid dTerm && d12IsValid bpdTerm && d21IsValid bpdTerm.

(** The off-diagonal elements are assigned exactly when one of the two
    leakages is valid, which is when the matrix is of the general type. *)
Definition jonesAndValidity (acc : Accessor) (index : JonesIndex) (chan : Z)
  : SquareMatrix * bool :=
  let gTerm := gain acc index in
  let bpTerm := bandpass acc index chan in
  let dTerm := leakage acc index in
  let bpdTerm := bpleakage acc index chan in
  let leakageValid := d12IsValid dTerm && d21IsValid dTerm in
  let bpleakageValid := d12IsValid bpdTerm && d21IsValid bpdTerm in
  let anyLeakageValid := leakageValid || bpleakageValid in
  let valid := (g1IsValid gTerm && g2IsValid gTerm) || anyLeakageValid ||
               (g1IsValid bpTerm && g2IsValid bpTerm) in
  if negb valid then (ScalarId (1, 0)%Q, valid)
  else
    let r00 := if g1IsValid gTerm then g1 gTerm else (1, 0)%Q in
    let r11 := if g2IsValid gTerm then g2 gTerm else (1, 0)%Q in
    let offDiagonal :=
      if leakageValid then
        Some (Cmul (if d12IsValid dTerm then d12 dTerm else (0, 0)%Q) r00,
              Cmul (if d21IsValid dTerm then Cneg (d21 dTerm) else (0, 0)%Q) r11)
      else if bpleakageValid then
        Some (Cmul (if d12IsValid bpdTerm then d12 bpdTerm else (0, 0)%Q) r00,
              Cmul (if d21IsValid bpdTerm then Cneg (d21 bpdTerm) else (0, 0)%Q) r11)
      else None in
    let r00 := if g1IsValid bpTerm then Cmul r00 (g1 bpTerm) else r00 in
    let r11 := if g2IsValid bpTerm then Cmul r11 (g2 bpTerm) else r11 in
    match offDiagonal with
    | Some (r01, r10) =>
        (General r00
                 (if g2IsValid bpTerm then Cmul r01 (g2 bpTerm) else r01)
                 (if g1IsValid bpTerm then Cmul r10 (g1 bpTerm) else r10)
                 r11, valid)
    | None => (Diagonal r00 r11, valid)
    end.

Definition jones (acc : Accessor) (index : JonesIndex) (chan : Z) : SquareMatrix :=
  fst (jonesAndValidity acc index chan).

Definition jonesValid (acc : Accessor) (index : JonesIndex) (chan : Z) : bool :=
  snd (jonesAndValidity acc index chan).

(** The versions taking antenna, beam and channel check the channel. *)
Definition jonesOfChannel (acc : Accessor) (ant beam chan : Z) : outcome SquareMatrix :=
  ASKAPCHECK (Z.ltb chan 20736) "Channel number is supposed to be less than 20736" ~;;
  Return (jones acc (ant, beam) chan).

Definition jonesValidOfChannel (acc : Accessor) (ant beam chan : Z) : outcome bool :=
  ASKAPCHECK (Z.ltb chan 20736) "Channel number is supposed to be less than 20736" ~;;
  Return (jonesValid acc (ant, beam) chan).

Definition jonesAllValidOfChannel (acc : Accessor) (ant beam chan : Z) : outcome bool :=
  ASKAPCHECK (Z.ltb chan 20736) "Channel number is supposed to be less than 20736" ~;;
  Return (jonesAllValid acc (ant, beam) chan).

End ICalSolutionConstAccessor.

(** ** The filler of calibration solutions *)
Module TableCalSolutionFiller.
Section Def.

(** [cellDefined<T>(name, row)] of the buffer manager of the table. *)
Variable cellDefined : string -> Z -> outcome bool.

(** [for (tempRow = itsRefRow; tempRow >= 0; --tempRow)]: [todo] counts
    the rows left to look at, the row looked at is [todo - 1]. *)
Fixpoint findDefinedCube_loop (name : string) (todo : nat) : outcome Z :=
  match todo with
  | O => Throw (AskapError "Unable to find valid element in column ")
  | S todo' =>
      let tempRow := Z.of_nat todo' in
      defined <~ cellDefined name tempRow ;;
      if (defined : bool) then Return tempRow
      else findDefinedCube_loop name todo'
  end.

Definition findDefinedCube (itsRefRow : Z) (name : string) : outcome Z :=
  findDefinedCube_loop name (Z.to_nat (itsRefRow + 1)).

End Def.
End TableCalSolutionFiller.

(** ** The calibration solution accessor kept in memory

    Each kind of parameter is kept in a pair of cubes, the values and
    their validity flags, indexed by row (polarisation, or two rows per
    channel), antenna and beam.  The pair that the cache field of the
    accessor delivers, or the exception of its fill, is an argument of the
    methods below; so are the flag of the field telling that a flush is
    needed and the answer of the filler that there is no such parameter in
    the table.  The filler is not null after the constructor. *)
Module MemCalSolutionAccessor.
Import ICalSolutionConstAccessor.

Definition CubePair : Type := (Cube Complex * Cube bool)%type.

(** [JonesIndex::antenna] and [JonesIndex::beam]. *)
Definition antenna (index : JonesIndex) : Z := fst index.
Definition beam (index : JonesIndex) : Z := snd index.

Definition extract (cubes : CubePair) (row : Z) (index : JonesIndex)
  : outcome (Complex * bool) :=
  let ant := antenna index in
  let beam := beam index in
  ASKAPCHECK (Z.leb 0 ant && Z.ltb ant (Z.of_nat (ncolumn (fst cubes))))
             "Requested antenna index " ~;;
  ASKAPCHECK (Z.leb 0 beam && Z.ltb beam (Z.of_nat (nplane (fst cubes))))
             "Requested beam index " ~;;
  ASKAPCHECK (Z.leb 0 row && Z.ltb row (Z.of_nat (nrow (fst cubes))))
             "Requested row (=2*channel) index " ~;;
  Return (at_ (fst cubes) (Z.to_nat row) (Z.to_nat ant) (Z.to_nat beam),
          at_ (snd cubes) (Z.to_nat row) (Z.to_nat ant) (Z.to_nat beam)).

(** [cube(row, ant, beam) = val]. *)
Definition assign (T : Type) (c : Cube T) (row ant beam : nat) (val : T) : Cube T :=
  {| nrow := nrow c; ncolumn := ncolumn c; nplane := nplane c;
     at_ := fun r a b =>
              if Nat.eqb r row && Nat.eqb a ant && Nat.eqb b beam then val
              else at_ c r a b |}.

(** The row is not checked in a release build: a row past the end of the
    cubes is outside of what is modelled. *)
Definition store (cubes : CubePair) (val : Complex) (isValid : bool) (row : Z)
    (index : JonesIndex) : outcome CubePair :=
  let ant := antenna index in
  let beam := beam index in
  ASKAPCHECK (Z.leb 0 ant && Z.ltb ant (Z.of_nat (ncolumn (fst cubes))))
             "Requested antenna index " ~;;
  ASKAPCHECK (Z.leb 0 beam && Z.ltb beam (Z.of_nat (nplane (fst cubes))))
             "Requested beam index " ~;;
  Return (assign (fst cubes) (Z.to_nat row) (Z.to_nat ant) (Z.to_nat beam) val,
          assign (snd cubes) (Z.to_nat row) (Z.to_nat ant) (Z.to_nat beam) isValid).

Definition gain (noGain flushNeeded : bool) (value : outcome CubePair)
    (index : JonesIndex) : outcome JonesJTerm :=
  if noGain && negb flushNeeded then
    Return {| g1 := (1, 0)%Q; g1IsValid := false; g2 := (1, 0)%Q; g2IsValid := false |}
  else
    gains <~ value ;;
    g1 <~ extract gains 0 index ;;
    g2 <~ extract gains 1 index ;;
    Return {| g1 := fst g1; g1IsValid := snd g1; g2 := fst g2; g2IsValid := snd g2 |}.

Definition leakage (noLeakage flushNeeded : bool) (value : outcome CubePair)
    (index : JonesIndex) : outcome JonesDTerm :=
  if noLeakage && negb flushNeeded then
    Return {| d12 := (0, 0)%Q; d12IsValid := false; d21 := (0, 0)%Q; d21IsValid := false |}
  else
    leakages <~ value ;;
    d12 <~ extract leakages 0 index ;;
    d21 <~ extract leakages 1 index ;;
    Return {| d12 := fst d12; d12IsValid := snd d12; d21 := fst d21; d21IsValid := snd d21 |}.

(** The channel is a [casacore::uInt], and so are the rows computed from
    it. *)
Definition bandpass (noBandpass flushNeeded : bool) (value : outcome CubePair)
    (index : JonesIndex) (chan : Z) : outcome JonesJTerm :=
  if noBandpass && negb flushNeeded then
    Return {| g1 := (1, 0)%Q; g1IsValid := false; g2 := (1, 0)%Q; g2IsValid := false |}
  else
    bp <~ value ;;
    g1 <~ extract bp (to_uInt (2 * chan)) index ;;
    g2 <~ extract bp (to_uInt (2 * chan + 1)) index ;;
    Return {| g1 := fst g1; g1IsValid := snd g1; g2 := fst g2; g2IsValid := snd g2 |}.

(** The setters give the pair of cubes that the cache field holds
    afterwards. *)
Definition setGain (itsSettersAllowed : bool) (rwValue : outcome CubePair)
    (index : JonesIndex) (gains : JonesJTerm) : outcome CubePair :=
  ASKAPCHECK itsSettersAllowed
    "Setters methods are now allowed - roCheck=true in the constructor" ~;;
  buf <~ rwValue ;;
  buf <~ store buf (g1 gains) (g1IsValid gains) 0 index ;;
  store buf (g2 gains) (g2IsValid gains) 1 index.

Definition setLeakage (itsSettersAllowed : bool) (rwValue : outcome CubePair)
    (index : JonesIndex) (leakages : JonesDTerm) : outcome CubePair :=
  ASKAPCHECK itsSettersAllowed
    "Setters methods are now allowed - roCheck=true in the constructor" ~;;
  buf <~ rwValue ;;
  buf <~ store buf (d12 leakages) (d12IsValid leakages) 0 index ;;
  store buf (d21 leakages) (d21IsValid leakages) 1 index.

Definition setBandpass (itsSettersAllowed : bool) (rwValue : outcome CubePair)
    (index : JonesIndex) (bp : JonesJTerm) (chan : Z) : outcome CubePair :=
  ASKAPCHECK itsSettersAllowed
    "Setters methods are now allowed - roCheck=true in the constructor" ~;;
  bandpasses <~ rwValue ;;
  bandpasses <~ store bandpasses (g1 bp) (g1IsValid bp) (to_uInt (chan * 2)) index ;;
  store bandpasses (g2 bp) (g2IsValid bp) (to_uInt (chan * 2 + 1)) index.

End MemCalSolutionAccessor.

Close Scope string_scope.

(** ** Vocabulary of the properties *)

(** The rows the iterator is to deliver: the selection, in table order. *)
Definition selection (it : TableConstDataIterator) : RefTable :=
  match getTableSelector (itsSelector it) with
  | None => allRows (table_ it)
  | Some exprNode => select (table_ it) exprNode
  end.

(** All rows of the chunk have the value [current] in a column. *)
Definition uniformIn (col : Row -> Z) (it : TableConstDataIterator) (current : Z) : Prop :=
  forall j, j < itsNumberOfRows it ->
            exists x, cell (table_ it) (itsCurrentIteration it) (j + itsCurrentTopRow it) = Ok x
                      /\ col x = current.

(** The members that locate the chunk within the table. *)
Definition sameCursor (it it' : TableConstDataIterator) : Prop :=
  table_ it' = table_ it /\
  itsCurrentIteration it' = itsCurrentIteration it /\
  itsCurrentTopRow it' = itsCurrentTopRow it /\
  itsUseFieldID it' = itsUseFieldID it /\
  itsMaxChunkSize it' = itsMaxChunkSize it /\
  itsTabIterator it' = itsTabIterator it.

(** The members that bound the chunk: it lies within the current group, has
    at least one row and no more than the configured maximum, and is uniform
    in its data descriptor and, when FIELD_ID is in use, in its field. *)
Definition chunkInvariant (it : TableConstDataIterator) : Prop :=
  1 <= itsNumberOfRows it /\
  (Z.of_nat (itsNumberOfRows it) <= itsMaxChunkSize it)%Z /\
  itsCurrentTopRow it + itsNumberOfRows it <= length (itsCurrentIteration it) /\
  uniformIn DATA_DESC_ID it (itsCurrentDataDescID it) /\
  (itsUseFieldID it = true -> uniformIn FIELD_ID it (itsCurrentFieldID it)).

(** The chunks delivered up to the moment the table iterator passes its
    end, with the state reached then. *)
Fixpoint deliveredToEnd (fuel : nat) (it : TableConstDataIterator)
  : option (result (list (list nat) * TableConstDataIterator)) :=
  match fuel with
  | O => None
  | S fuel' =>
      if TableIterator.pastEnd (itsTabIterator it) then Some (Ok ([], it))
      else
        match next it with
        | Err e => Some (Err e)
        | Ok (_, it') =>
            match deliveredToEnd fuel' it' with
            | Some (Ok (l, itEnd)) => Some (Ok (chunkRows it :: l, itEnd))
            | other => other
            end
        end
  end.

(** The iterator presents a chunk of the current group of the table
    iterator, and the rows of [view] before the chunk are [prefix]. *)
Definition positioned (view prefix : list nat) (it : TableConstDataIterator) : Prop :=
  TableIterator.pastEnd (itsTabIterator it) = false /\
  itsCurrentIteration it = TableIterator.table (itsTabIterator it) /\
  chunkInvariant it /\
  (1 <= itsMaxChunkSize it)%Z /\
  view = prefix ++ skipn (itsCurrentTopRow it) (itsCurrentIteration it)
                ++ TableIterator.unread (itsTabIterator it).

(** The state [next] leaves when the table iterator passes its end: the
    members of the last chunk and of the last group stay in place. *)
Definition exhausted (it : TableConstDataIterator) : Prop :=
  TableIterator.pastEnd (itsTabIterator it) = true /\
  itsCurrentTopRow it = 0 /\
  1 <= itsNumberOfRows it <= length (itsCurrentIteration it) /\
  (1 <= itsMaxChunkSize it)%Z.

(** An error other than the one of the flag consistency check. *)
Definition notConsistency (e : Error) : Prop :=
  forall row : nat, e <> ConsistencyError row.

(** Row [row] of the new flag cube clears a flag of a row of the chunk that
    is flagged as a whole. *)
Definition clearsRowFlaggedRow (it : TableConstDataIterator) (flags : Cube bool)
    (row : nat) : Prop :=
  row < nrow flags /\
  exists r, cell (table_ it) (itsCurrentIteration it) (row + itsCurrentTopRow it) = Ok r /\
            FLAG_ROW r = true /\
            exists ch p, ch < ncolumn flags /\ p < nplane flags /\
                         at_ flags row ch p = false.

(** Every row number of the current group is a row of the main table. *)
Definition viewValid (it : TableConstDataIterator) : bool :=
  forallb (fun k => Nat.ltb k (length (rows (table_ it)))) (itsCurrentIteration it).

(** Every row of the current group has a flag cell of [nPol] polarisations
    by [nChan] channels. *)
Definition flagShapeIs (nPol nChan : nat) (it : TableConstDataIterator) : bool :=
  forallb (fun k => match nth_error (rows (table_ it)) k with
                    | Some r =>
                        match shape (FLAG r) with
                        | [a; b] => Nat.eqb a nPol && Nat.eqb b nChan
                        | _ => false
                        end
                    | None => false
                    end) (itsCurrentIteration it).

(** The mounts the fill knows. *)
Definition recognisedMount (m : string) : bool :=
  isMount m "ALT-AZ" "alt-az" || isMount m "FIXED" "fixed" ||
  isMount m "X-Y" "x-y" || isMount m "EQUATORIAL" "equatorial".

(** The contents of the vector of the parallactic angle cache.  The fill is
    a protected method that only the cache field calls, on its own vector:
    the vector of a new cache field is empty, and nothing but the statements
    of the fill writes to it. *)
Inductive cacheVector (a : Antenna) : list Q -> Prop :=
| cacheVector_new :                        (* the vector of a new cache field *)
    cacheVector a []
| cacheVector_resize (v : list Q) :        (* angles.resize(nAnt) *)
    cacheVector a v -> cacheVector a (resizeVector v (getNumberOfAntennas a))
| cacheVector_set (v : list Q) :           (* angles.set(0.) *)
    cacheVector a v -> cacheVector a (repeat 0%Q (length v))
| cacheVector_altaz (v : list Q) (ant : nat) (pAngle : Q) :
                                           (* angles[ant] = pAngle, alt-az *)
    cacheVector a v -> isMount (getMount a ant) "ALT-AZ" "alt-az" = true ->
    cacheVector a (list_set ant pAngle v)
| cacheVector_zero (v : list Q) (ant : nat) :
                                           (* angles[ant] = 0., fixed and x-y *)
    cacheVector a v -> cacheVector a (list_set ant 0%Q v).

(** The data descriptors of the rows of a chunk. *)
Definition dataDescIdsOf (t : Table) (chunk : list nat) : list Z :=
  map (fun n => match nth_error (rows t) n with
                | Some r => DATA_DESC_ID r
                | None => (-1)%Z
                end) chunk.

(** The shapes of the visibility cells of the rows of a chunk. *)
Definition shapesOf (t : Table) (chunk : list nat) : list (list nat) :=
  map (fun n => match nth_error (rows t) n with
                | Some r => shape (DATA r)
                | None => []
                end) chunk.

(** The whole-row flags of the rows of a chunk. *)
Definition flagRowsOf (t : Table) (chunk : list nat) : list bool :=
  map (fun n => match nth_error (rows t) n with
                | Some r => FLAG_ROW r
                | None => false
                end) chunk.

(** All the rows of a list have the same time stamp. *)
Definition oneTime (t : Table) (l : list nat) : Prop :=
  forall n m, In n l -> In m l -> (timeKey t n == timeKey t m)%Q.

(** The states in which the loop started at [it0] presents a chunk formed
    from the table: [it0] itself and every state that [next] reaches while
    the table iterator is within the table. *)
Inductive formed (it0 : TableConstDataIterator) : TableConstDataIterator -> Prop :=
| formed_first : formed it0 it0
| formed_next (it it' : TableConstDataIterator) (b : bool) :
    formed it0 it -> next it = Ok (b, it') ->
    TableIterator.pastEnd (itsTabIterator it') = false ->
    formed it0 it'.

(** The handler of a FIELD table of the single row [r] after the row has
    been read. *)
Definition singleRowCached (r : Field.FieldRow) (h : Field.t) : Prop :=
  Field.table h = [r] /\
  TableIterator.whole (Field.itsIterator h) = [r] /\
  Field.itsNeverAccessedFlag h = false /\
  Field.itsCachedStartTime h = Field.TIME r /\
  Field.itsReferenceDir h = Field.REFERENCE_DIR r.

(** A beam offset that the FEED handler counts as zero. *)
Definition zeroOffset (o : Q * Q) : bool :=
  negb (Feed.Qabs_gt (fst o) (1 # 1000000000000000) ||
        Feed.Qabs_gt (snd o) (1 # 1000000000000000)).

(** The time changes from each row of a FIELD table to the next, so that
    every group of the table iterator is a single row. *)
Fixpoint timeChanges (tab : list Field.FieldRow) : Prop :=
  match tab with
  | [] => True
  | r :: tab' =>
      match tab' with
      | [] => True
      | r' :: _ => ~ (Field.TIME r' == Field.TIME r)%Q
      end /\ timeChanges tab'
  end.

(** The direction of the first of the rows [r :: rest] whose time is the
    given one or, when there is none, of the last of these rows. *)
Fixpoint directionAt (dTime : Q) (r : Field.FieldRow) (rest : list Field.FieldRow)
  : Field.MDirection :=
  match rest with
  | [] => Field.REFERENCE_DIR r
  | r' :: rest' =>
      if Qeqb (Field.TIME r) dTime then Field.REFERENCE_DIR r
      else directionAt dTime r' rest'
  end.

(** Row [k] of the chunk holds in its cell of the column, from channel
    [startChan] on, the [nChan] channels of row [k] of the cube. *)
Definition holdsRow (T : Type) (col : Row -> Array T) (it : TableConstDataIterator)
    (cube : Cube T) (nChan startChan k : nat) : Prop :=
  exists n r,
    nth_error (itsCurrentIteration it) (itsCurrentTopRow it + k) = Some n /\
    nth_error (rows (table_ it)) n = Some r /\
    forall pol ch, ch < nChan ->
      elem (col r) pol (startChan + ch) = at_ cube k ch pol.

(** The members that locate the chunk and give its size. *)
Definition sameChunk (it it' : TableConstDataIterator) : Prop :=
  table_ it' = table_ it /\
  itsCurrentIteration it' = itsCurrentIteration it /\
  itsCurrentTopRow it' = itsCurrentTopRow it /\
  itsNumberOfRows it' = itsNumberOfRows it /\
  itsNumberOfPols it' = itsNumberOfPols it.

(** Two rows that differ at most in their cell of the column. *)
Definition sameBut (T : Type) (col : Row -> Array T) (setcol : Array T -> Row -> Row)
    (r r' : Row) : Prop :=
  r' = setcol (col r') r.

(** Equality of complex numbers and of two-by-two matrices, element by
    element, and the product of such matrices. *)
Module JonesAlgebra.
Import ICalSolutionConstAccessor.

Definition Matrix : Type := (Complex * Complex * Complex * Complex)%type.

Definition Ceq (a b : Complex) : Prop := (fst a == fst b /\ snd a == snd b)%Q.

Definition Cadd (a b : Complex) : Complex := (fst a + fst b, snd a + snd b)%Q.

(** The four elements of a matrix, row by row. *)
Definition elements (m : SquareMatrix) : Matrix :=
  match m with
  | ScalarId a => (a, (0, 0)%Q, (0, 0)%Q, a)
  | Diagonal a00 a11 => (a00, (0, 0)%Q, (0, 0)%Q, a11)
  | General a00 a01 a10 a11 => (a00, a01, a10, a11)
  end.

Definition Meq (m n : Matrix) : Prop :=
  let '(m00, m01, m10, m11) := m in
  let '(n00, n01, n10, n11) := n in
  Ceq m00 n00 /\ Ceq m01 n01 /\ Ceq m10 n10 /\ Ceq m11 n11.

Definition Mmul (m n : Matrix) : Matrix :=
  let '(m00, m01, m10, m11) := m in
  let '(n00, n01, n10, n11) := n in
  (Cadd (Cmul m00 n00) (Cmul m01 n10), Cadd (Cmul m00 n01) (Cmul m01 n11),
   Cadd (Cmul m10 n00) (Cmul m11 n10), Cadd (Cmul m10 n01) (Cmul m11 n11)).

Definition identityMatrix : Matrix :=
  ((1, 0)%Q, (0, 0)%Q, (0, 0)%Q, (1, 0)%Q).

(** The gain matrix of a term: diagonal, with 1 in place of a gain that is
    not valid. *)
Definition gainMatrix (t : JonesJTerm) : Matrix :=
  (if g1IsValid t then g1 t else (1, 0)%Q, (0, 0)%Q, (0, 0)%Q,
   if g2IsValid t then g2 t else (1, 0)%Q).

(** The leakage matrix of a term: 1 on the diagonal, [d12] above it and
    [-d21] below it. *)
Definition leakageMatrix (t : JonesDTerm) : Matrix :=
  ((1, 0)%Q, d12 t, Cneg (d21 t), (1, 0)%Q).

(** A term counts when both its elements are valid. *)
Definition gainsValid (t : JonesJTerm) : bool := g1IsValid t && g2IsValid t.
Definition leakagesValid (t : JonesDTerm) : bool := d12IsValid t && d21IsValid t.

(** The leakage that enters: the frequency-independent one when it counts,
    otherwise the one of the bandpass when that counts, otherwise none. *)
Definition effectiveLeakage (d bpd : JonesDTerm) : Matrix :=
  if leakagesValid d then leakageMatrix d
  else if leakagesValid bpd then leakageMatrix bpd
  else identityMatrix.

End JonesAlgebra.

(** ** Sample datasets *)

Module Sample.

Definition constArray (T : Type) (nPol nChan : nat) (v : T) : Array T :=
  {| shape := [nPol; nChan]; elem := fun _ _ => v |}.

(** A row of two polarisations and [nChan] channels, unflagged data. *)
Definition row (time : Q) (dataDescId : Z) (flagRow : bool) (nChan : nat) : Row :=
  {| TIME := time; ANTENNA1 := 0; ANTENNA2 := 1; FEED1 := 0; FEED2 := 0;
     DATA_DESC_ID := dataDescId; FIELD_ID := 0; FLAG_ROW := flagRow;
     DATA := constArray 2 nChan (0%Q, 0%Q);
     FLAG := constArray 2 nChan false |}.

Definition table (l : list Row) : Table :=
  {| rows := l; hasFIELD_ID := true; hasFLAG_ROW := true |}.

Definition everything : Selector :=
  {| getTableSelector := None; getChannelSelection := (-1, 0)%Z;
     itsNFreq := (-1)%Z; itsFreqStart := 0%Q; itsFreqDirection := None;
     itsFreqInc := 0%Q |}.

Definition channels (nChan start : Z) : Selector :=
  {| getTableSelector := None; getChannelSelection := (nChan, start);
     itsNFreq := (-1)%Z; itsFreqStart := 0%Q; itsFreqDirection := None;
     itsFreqInc := 0%Q |}.

Definition frequency (f : Q) : Selector :=
  {| getTableSelector := None; getChannelSelection := (-1, 0)%Z;
     itsNFreq := 1%Z; itsFreqStart := f; itsFreqDirection := None;
     itsFreqInc := 1%Q |}.

Definition feed : Feed.t := Feed.make [] 1%Q.

Definition field : Field.t :=
  let tab := [ {| Field.TIME := 0%Q; Field.REFERENCE_DIR := (0%Q, 0%Q) |} ] in
  {| Field.table := tab;
     Field.itsIterator := TableIterator.make Field.TIME tab;
     Field.itsNeverAccessedFlag := true;
     Field.itsCachedStartTime := 0%Q;
     Field.itsCachedStopTime := 0%Q;
     Field.itsReferenceDir := (0%Q, 0%Q);
     Field.itsRandomlyAccessedReferenceDir := (0%Q, 0%Q) |}.

Definition altAz : Antenna := {| itsMounts := ["ALT-AZ"%string] |}.

Definition mixedArray : Antenna :=
  {| itsMounts := ["ALT-AZ"%string; "EQUATORIAL"%string] |}.

(** Two data descriptors, both of spectral window 0, whose axis has 13
    channels from 100 in steps of 1. *)
Definition dataDescription : list (Z * Z) := [(0, 0); (1, 0)]%Z.

Definition spWindow : list (list Q) :=
  [ map (fun n => (100 + inject_Z (Z.of_nat n))%Q) (seq 0 13) ].

Definition INT_MAX : Z := 2147483647%Z.

(** The iterator over a table with the default chunk size. *)
Definition iterator (rows : list Row) (ant : Antenna) (sel : Selector)
  : result TableConstDataIterator :=
  mkTableConstDataIterator (table rows) feed field ant dataDescription spWindow
    sel INT_MAX.

(** The state in which [init] hands over to the uniformity methods: the
    first group is current and no data descriptor has been seen yet. *)
Definition beforeFirstChunk (rows : list Row) (sel : Selector)
  : TableConstDataIterator :=
  set_itsCurrentDataDescID (-100)%Z
    (set_itsNumberOfRows (length rows)
       (set_itsCurrentIteration (seq 0 (length rows))
          (initialiser (table rows) feed field altAz dataDescription spWindow
             sel INT_MAX))).

(** The iterator after one call of [next]. *)
Definition secondChunk (rows : list Row) (ant : Antenna) (sel : Selector)
  : result TableConstDataIterator :=
  it <- iterator rows ant sel ;;
  r <- next it ;;
  Ok (snd r).

(** No frame conversion: the selection is given in the frame of the data. *)
Definition sameFrame : Q -> Field.MDirection -> Q -> Q := fun _ _ f => f.

(** One time stamp, three rows, the first of data descriptor 0 and the
    other two of data descriptor 1. *)
Definition twoDescriptors : list Row :=
  [ row 1 0 false 4; row 1 1 false 4; row 1 1 false 4 ].

(** One time stamp, two rows of different data descriptors, whose spectral
    set-ups have 4 and 8 channels. *)
Definition twoShapes : list Row :=
  [ row 1 0 false 4; row 1 1 false 8 ].

(** One time stamp, three rows; the second one is flagged as a whole. *)
Definition oneRowFlagged : list Row :=
  [ row 1 0 false 2; row 1 1 true 2; row 1 1 false 2 ].

(** One row of 13 channels. *)
Definition oneRow : list Row := [ row 1 0 false 13 ].

(** A FEED table of one record centred on 15 and valid for 10. *)
Definition feedTable : list Feed.FeedRow :=
  [ {| Feed.ANTENNA_ID := 0; Feed.FEED_ID := 0; Feed.SPECTRAL_WINDOW_ID := 0;
       Feed.TIME := 15%Q; Feed.INTERVAL := 10%Q;
       Feed.BEAM_OFFSET := [(0%Q, 0%Q)]; Feed.RECEPTOR_ANGLE := [0%Q] |} ].

(** The value of a successful outcome, [d] otherwise. *)
Definition orElse (T : Type) (c : result T) (d : T) : T :=
  match c with
  | Ok x => x
  | Err _ => d
  end.

(** The second chunk of the dataset with a row flagged as a whole (rows 1
    and 2, the first of them flagged), after its channel range was read. *)
Definition flaggedChunk : TableConstDataIterator :=
  orElse (it <- secondChunk oneRowFlagged altAz everything ;;
          r <- getChannelRange sameFrame it ;;
          Ok (snd r))
         (beforeFirstChunk oneRowFlagged everything).

(** The FEED handler after a look-up at 15 for spectral window 0. *)
Definition feedCached : Feed.t :=
  orElse (Feed.fillCache (Feed.make feedTable 1%Q) 15%Q 0%Z) (Feed.make feedTable 1%Q).

(** A flag cube of two rows: all flags of the first row are set, none of the
    second. *)
Definition newFlags : Cube bool :=
  {| nrow := 2; ncolumn := 2; nplane := 2; at_ := fun r _ _ => Nat.eqb r 0 |}.

(** The integer columns of the main table, by name. *)
Definition columns (name : string) (r : Row) : Z :=
  if String.eqb name "ANTENNA1" then ANTENNA1 r
  else if String.eqb name "ANTENNA2" then ANTENNA2 r
  else if String.eqb name "FEED1" then FEED1 r
  else if String.eqb name "FEED2" then FEED2 r
  else if String.eqb name "DATA_DESC_ID" then DATA_DESC_ID r
  else if String.eqb name "FIELD_ID" then FIELD_ID r
  else 0%Z.

(** A UVW cell of two elements only, 3 and 4. *)
Definition uvw (r : Row) : Array Q :=
  {| shape := [2]; elem := fun i _ => if Nat.eqb i 0 then 3%Q else 4%Q |}.

(** The square root, on the values of the samples. *)
Definition root (x : Q) : Q := if Qeqb x 25 then 5%Q else x.

(** A DATA_DESCRIPTION table in which no spectral window has a data
    descriptor. *)
Definition noDescriptor (spWinID : Z) : list nat := [].

(** The members before [init] for the dataset of two descriptors. *)
Definition fresh : TableConstDataIterator :=
  initialiser (table twoDescriptors) feed field altAz dataDescription spWindow
    everything INT_MAX.

(** The first chunk of that dataset. *)
Definition firstChunk : TableConstDataIterator :=
  orElse (init fresh) fresh.

(** The only row of the FIELD table of the samples. *)
Definition fieldRow : Field.FieldRow :=
  {| Field.TIME := 0%Q; Field.REFERENCE_DIR := (0%Q, 0%Q) |}.

(** The time stamps of a calibration table of three solutions. *)
Definition solutionTimes (row : nat) : Q :=
  match row with
  | 0 => 10%Q
  | 1 => 20%Q
  | _ => 30%Q
  end.

Definition solutions : TableCalSolutionSource.Table :=
  {| TableCalSolutionSource.nrow := 3;
     TableCalSolutionSource.TIME := Some solutionTimes |}.

(** A calibration solution, the same for every antenna, beam and channel,
    by the validity of its gains, leakages, bandpass and bandpass leakages. *)
Definition solution (gains leakages bandpass bpleakages : bool)
  : ICalSolutionConstAccessor.Accessor :=
  {| ICalSolutionConstAccessor.gain := fun _ =>
       {| ICalSolutionConstAccessor.g1 := (2, 0)%Q;
          ICalSolutionConstAccessor.g1IsValid := gains;
          ICalSolutionConstAccessor.g2 := (0, 3)%Q;
          ICalSolutionConstAccessor.g2IsValid := gains |};
     ICalSolutionConstAccessor.leakage := fun _ =>
       {| ICalSolutionConstAccessor.d12 := (1, 1)%Q;
          ICalSolutionConstAccessor.d12IsValid := leakages;
          ICalSolutionConstAccessor.d21 := (0, 2)%Q;
          ICalSolutionConstAccessor.d21IsValid := leakages |};
     ICalSolutionConstAccessor.bandpass := fun _ _ =>
       {| ICalSolutionConstAccessor.g1 := (1, 1)%Q;
          ICalSolutionConstAccessor.g1IsValid := bandpass;
          ICalSolutionConstAccessor.g2 := (5, 0)%Q;
          ICalSolutionConstAccessor.g2IsValid := bandpass |};
     ICalSolutionConstAccessor.bpleakage := fun _ _ =>
       {| ICalSolutionConstAccessor.d12 := (7, 0)%Q;
          ICalSolutionConstAccessor.d12IsValid := bpleakages;
          ICalSolutionConstAccessor.d21 := (0, 7)%Q;
          ICalSolutionConstAccessor.d21IsValid := bpleakages |} |}.

(** The cubes of a solution for three antennas and two beams in which
    nothing is valid yet: two rows for the gains, eight for the bandpass of
    four channels. *)
Definition emptyCubes (rows : nat) : MemCalSolutionAccessor.CubePair :=
  ({| nrow := rows; ncolumn := 3; nplane := 2; at_ := fun _ _ _ => (1, 0)%Q |},
   {| nrow := rows; ncolumn := 3; nplane := 2; at_ := fun _ _ _ => false |}).

Definition gains : ICalSolutionConstAccessor.JonesJTerm :=
  {| ICalSolutionConstAccessor.g1 := (2, 0)%Q;
     ICalSolutionConstAccessor.g1IsValid := true;
     ICalSolutionConstAccessor.g2 := (0, 3)%Q;
     ICalSolutionConstAccessor.g2IsValid := false |}.

(** A cube of visibilities of two rows, two channels and two
    polarisations, all different. *)
Definition newVis : Cube Complex :=
  {| nrow := 2; ncolumn := 2; nplane := 2;
     at_ := fun r ch p => (inject_Z (Z.of_nat (4 * r + 2 * ch + p)), 1%Q) |}.

(** A FIELD table of three rows, at the times 0, 10 and 20. *)
Definition fieldTable : list Field.FieldRow :=
  [ {| Field.TIME := 0%Q; Field.REFERENCE_DIR := (1%Q, 0%Q) |};
    {| Field.TIME := 10%Q; Field.REFERENCE_DIR := (2%Q, 0%Q) |};
    {| Field.TIME := 20%Q; Field.REFERENCE_DIR := (3%Q, 0%Q) |} ].

(** One time stamp, two rows; the first one is flagged as a whole. *)
Definition firstRowFlagged : list Row :=
  [ row 1 0 true 2; row 1 0 false 2 ].

(** The first chunk of that dataset, after its channel range was read. *)
Definition flaggedFirstChunk : TableConstDataIterator :=
  orElse (it <- iterator firstRowFlagged altAz everything ;;
          r <- getChannelRange sameFrame it ;;
          Ok (snd r))
         (beforeFirstChunk firstRowFlagged everything).

(** Two time stamps, three rows of one data descriptor. *)
Definition twoTimes : list Row :=
  [ row 1 0 false 4; row 2 0 false 4; row 2 0 false 4 ].

(** The members before [init] for that dataset, its first chunk and its
    second chunk. *)
Definition freshTwoTimes : TableConstDataIterator :=
  initialiser (table twoTimes) feed field altAz
    dataDescription spWindow everything INT_MAX.

Definition firstTime : TableConstDataIterator :=
  orElse (init freshTwoTimes) freshTwoTimes.

Definition secondTime : TableConstDataIterator :=
  orElse (r <- next firstTime ;; Ok (snd r)) firstTime.

End Sample.

(** * Properties *)

(** ** Generic facts *)

Lemma bind_Ok (A B : Type) (c : result A) (k : A -> result B) (b : B) :
  bind c k = Ok b -> exists a, c = Ok a /\ k a = Ok b.
Proof.
  destruct c as [a | e]; simpl; intros H; [exists a; auto | discriminate].
Qed.

Lemma bind_Err (A B : Type) (c : result A) (k : A -> result B) (e : Error) :
  bind c k = Err e -> c = Err e \/ exists a, c = Ok a /\ k a = Err e.
Proof.
  destruct c as [a | e']; simpl; intros H;
    [right; exists a; auto | left; inversion H; reflexivity].
Qed.

Lemma check_Ok (cond : bool) (e : Error) (u : unit) :
  check cond e = Ok u -> cond = true.
Proof. destruct cond; simpl; [reflexivity | discriminate]. Qed.

Lemma check_Err (cond : bool) (e e' : Error) :
  check cond e = Err e' -> cond = false /\ e' = e.
Proof. destruct cond; simpl; intros H; [discriminate | inversion H; auto]. Qed.

(** ** Chunked iteration *)

(** C1.  The rows of all chunks delivered from restart until [hasMore]
    becomes false are NOT always the selected rows once each: for a single
    time stamp of three rows whose data descriptors are 0, 1, 1 (no
    selection, default chunk size) the loop delivers rows 0 | 1 2 | 0 1.
    After the last chunk [next] moves the table iterator past its end and
    leaves the row count of the last chunk and the last group in place, so
    [hasMore] compares stale members and reports more data. *)
Theorem delivered_rows_repeat_after_split_group :
  (it <- Sample.iterator Sample.twoDescriptors Sample.altAz Sample.everything ;;
   Ok (allRows (table_ it), delivered 10 it))
  = Ok ([0; 1; 2], Some (Ok [[0]; [1; 2]; [0; 1]])).
Proof. vm_compute. reflexivity. Qed.

(** C2.  A delivered chunk is NOT always uniform in its data descriptor: on
    the same dataset the third chunk the loop delivers consists of rows 0
    and 1, of data descriptors 0 and 1.  It is the chunk the accessor
    presents after the table iterator has passed its end. *)
Theorem delivered_chunk_mixes_descriptors :
  (it <- Sample.iterator Sample.twoDescriptors Sample.altAz Sample.everything ;;
   Ok (option_map (fun d => match d with
                            | Ok chunks => map (dataDescIdsOf (table_ it)) chunks
                            | Err _ => []
                            end) (delivered 10 it)))
  = Ok (Some [[0]; [1; 1]; [0; 1]]%Z).
Proof. vm_compute. reflexivity. Qed.

(** C3.  Restart is idempotent: a second [init()] right after a first one
    changes nothing, whatever the state the first one started from, and the
    chunk presented afterwards is the same. *)
Theorem init_idempotent (it : TableConstDataIterator) :
  (it1 <- init it ;; init it1) = init it /\
  (it1 <- init it ;; it2 <- init it1 ;; Ok (chunkRows it2, hasMore it2))
  = (it1 <- init it ;; Ok (chunkRows it1, hasMore it1)).
Proof.
  assert (H : forall it1, init it = Ok it1 -> init it1 = Ok it1).
  { intros it1. unfold init at 1.
    destruct (itsAtStart it) eqn:Hstart; simpl.
    - intros H; inversion H; subst. unfold init. rewrite Hstart. reflexivity.
    - intros H. apply bind_Ok in H. destruct H as [it' [_ H]].
      inversion H; subst. reflexivity. }
  destruct (init it) as [it1 | e] eqn:Hinit; simpl; [| auto].
  rewrite (H it1 eq_refl). simpl. auto.
Qed.

(** ** Chunks formed within the table *)

Lemma sameCursor_refl it : sameCursor it it.
Proof. repeat split. Qed.

Lemma sameCursor_trans it1 it2 it3 :
  sameCursor it1 it2 -> sameCursor it2 it3 -> sameCursor it1 it3.
Proof.
  unfold sameCursor. intros [? [? [? [? [? ?]]]]] [? [? [? [? [? ?]]]]].
  repeat split; congruence.
Qed.

Lemma first_mismatch_spec (col : Row -> Z) (t : Table) (view : RefTable)
    (top : nat) (current : Z) (todo row : nat) (m : option nat) :
  first_mismatch col t view top current row todo = Ok m ->
  match m with
  | Some r => row <= r < row + todo /\
              forall j, row <= j < r ->
                        exists x, cell t view (j + top) = Ok x /\ col x = current
  | None => forall j, row <= j < row + todo ->
                      exists x, cell t view (j + top) = Ok x /\ col x = current
  end.
Proof.
  revert row. induction todo as [| todo IH]; intros row; simpl.
  - intros H. inversion H. intros j Hj. lia.
  - intros H. apply bind_Ok in H. destruct H as [x [Hx H]].
    destruct (negb (Z.eqb (col x) current)) eqn:Hne.
    + inversion H. split; [lia |]. intros j Hj. lia.
    + apply negb_false_iff in Hne. apply Z.eqb_eq in Hne.
      apply IH in H. destruct m as [r |].
      * destruct H as [Hr Hall]. split; [lia |].
        intros j Hj. destruct (Nat.eq_dec j row) as [-> | Hjr]; [eauto |].
        apply Hall. lia.
      * intros j Hj. destruct (Nat.eq_dec j row) as [-> | Hjr]; [eauto |].
        apply H. lia.
Qed.

Lemma checkBeamDetails_cursor it it' :
  checkBeamDetails it = Ok it' ->
  sameCursor it it' /\ itsNumberOfRows it' = itsNumberOfRows it /\
  itsCurrentDataDescID it' = itsCurrentDataDescID it /\
  itsCurrentFieldID it' = itsCurrentFieldID it.
Proof.
  unfold checkBeamDetails.
  destruct (itsDirectionCache (itsCaches it)).
  - intros H.
    apply bind_Ok in H. destruct H as [spw [_ H]].
    apply bind_Ok in H. destruct H as [epoch [_ H]].
    apply bind_Ok in H. destruct H as [z [_ H]].
    destruct (negb (fst z)); [| inversion H; repeat split].
    destruct (Feed.newBeamDetails _ _ _); inversion H; repeat split.
  - intros H. inversion H. repeat split.
Qed.

Lemma setUpShape_cursor r0 it it' :
  setUpShape r0 it = Ok it' ->
  sameCursor it it' /\ itsNumberOfRows it' = itsNumberOfRows it /\
  itsCurrentDataDescID it' = itsCurrentDataDescID it /\
  itsCurrentFieldID it' = itsCurrentFieldID it.
Proof.
  unfold setUpShape. intros H.
  apply bind_Ok in H. destruct H as [u [_ H]].
  cbn [itsSelector set_itsNumberOfChannels set_itsNumberOfPols] in H.
  destruct (channelsSelected (itsSelector it)).
  - apply bind_Ok in H. destruct H as [u' [_ H]]. inversion H. repeat split.
  - inversion H. repeat split.
Qed.

Lemma makeUniformDataDescID_uniform it it' :
  1 <= itsNumberOfRows it ->
  makeUniformDataDescID it = Ok it' ->
  sameCursor it it' /\
  itsCurrentFieldID it' = itsCurrentFieldID it /\
  1 <= itsNumberOfRows it' <= itsNumberOfRows it /\
  uniformIn DATA_DESC_ID it' (itsCurrentDataDescID it').
Proof.
  intros Hn H. unfold makeUniformDataDescID in H.
  apply bind_Ok in H. destruct H as [r0 [Hr0 H]].
  apply bind_Ok in H. destruct H as [it1 [H1 H]].
  assert (Hit1 : sameCursor it it1 /\ itsNumberOfRows it1 = itsNumberOfRows it /\
                 itsCurrentDataDescID it1 = DATA_DESC_ID r0 /\
                 itsCurrentFieldID it1 = itsCurrentFieldID it).
  { destruct (negb (Z.eqb (itsCurrentDataDescID it) (DATA_DESC_ID r0))) eqn:Hne.
    - unfold newDataDescriptor in H1.
      apply bind_Ok in H1. destruct H1 as [itb [Hb H1]].
      apply checkBeamDetails_cursor in Hb. apply setUpShape_cursor in H1.
      destruct Hb as [Hc1 [Hn1 [Hd1 Hf1]]]. destruct H1 as [Hc2 [Hn2 [Hd2 Hf2]]].
      simpl in Hn1, Hd1, Hf1.
      split; [| repeat split; congruence].
      eapply sameCursor_trans; [| exact Hc2].
      eapply sameCursor_trans; [| exact Hc1]. repeat split.
    - inversion H1; subst it1. apply negb_false_iff in Hne. apply Z.eqb_eq in Hne.
      split; [apply sameCursor_refl | auto]. }
  destruct Hit1 as [Hc [Hrows [Hdd Hfld]]].
  set (it2 := if frequenciesSelected (itsSelector it1)
              then set_itsChannelsSelected false it1 else it1) in *.
  assert (Hit2 : sameCursor it1 it2 /\ itsNumberOfRows it2 = itsNumberOfRows it1 /\
                 itsCurrentDataDescID it2 = itsCurrentDataDescID it1 /\
                 itsCurrentFieldID it2 = itsCurrentFieldID it1).
  { unfold it2. destruct (frequenciesSelected (itsSelector it1)); repeat split. }
  destruct Hit2 as [Hc2 [Hrows2 [Hdd2 Hfld2]]].
  apply bind_Ok in H. destruct H as [m [Hm H]]. inversion H; subst it'. clear H.
  apply first_mismatch_spec in Hm.
  pose proof (sameCursor_trans Hc Hc2) as Hc02.
  destruct Hc02 as [Ht [Hv [Htop Hrest]]].
  assert (Htop0 : exists x, cell (table_ it2) (itsCurrentIteration it2)
                              (0 + itsCurrentTopRow it2) = Ok x /\
                            DATA_DESC_ID x = itsCurrentDataDescID it2).
  { exists r0. rewrite Ht, Hv, Htop. split; [exact Hr0 | congruence]. }
  destruct m as [r |]; cbn [reduce_rows].
  - destruct Hm as [Hr Hall].
    split; [| split; [| split]].
    + eapply sameCursor_trans; [exact Hc |]. eapply sameCursor_trans; [exact Hc2 |].
      repeat split.
    + cbn. congruence.
    + cbn. lia.
    + intros j Hj. cbn in Hj. cbn [table_ itsCurrentIteration itsCurrentTopRow
                                    itsCurrentDataDescID set_itsNumberOfRows].
      destruct j as [| j]; [exact Htop0 |]. apply Hall. lia.
  - split; [| split; [| split]].
    + eapply sameCursor_trans; [exact Hc | exact Hc2].
    + congruence.
    + lia.
    + intros j Hj. destruct j as [| j]; [exact Htop0 |]. apply Hm. lia.
Qed.

Lemma makeUniformFieldID_uniform it it' :
  1 <= itsNumberOfRows it ->
  makeUniformFieldID it = Ok it' ->
  sameCursor it it' /\
  itsCurrentDataDescID it' = itsCurrentDataDescID it /\
  1 <= itsNumberOfRows it' <= itsNumberOfRows it /\
  (itsUseFieldID it = true -> uniformIn FIELD_ID it' (itsCurrentFieldID it')).
Proof.
  intros Hn H. unfold makeUniformFieldID in H.
  destruct (itsUseFieldID it) eqn:Huse.
  2: { inversion H; subst it'. split; [apply sameCursor_refl |].
       split; [reflexivity |]. split; [lia | discriminate]. }
  apply bind_Ok in H. destruct H as [r0 [Hr0 H]].
  set (it1 := if negb (Z.eqb (FIELD_ID r0) (itsCurrentFieldID it))
              then update_caches invalidateDishPointing
                     (update_caches invalidateParallacticAngle
                        (update_caches invalidateRotatedUVW
                           (update_caches invalidateDirection
                              (set_itsCurrentFieldID (FIELD_ID r0) it))))
              else it) in *.
  assert (Hit1 : sameCursor it it1 /\ itsNumberOfRows it1 = itsNumberOfRows it /\
                 itsCurrentDataDescID it1 = itsCurrentDataDescID it /\
                 itsCurrentFieldID it1 = FIELD_ID r0).
  { unfold it1. destruct (negb (Z.eqb (FIELD_ID r0) (itsCurrentFieldID it))) eqn:Hne.
    - repeat split.
    - apply negb_false_iff in Hne. apply Z.eqb_eq in Hne. repeat split. auto. }
  destruct Hit1 as [Hc [Hrows [Hdd Hfld]]].
  apply bind_Ok in H. destruct H as [m [Hm H]]. inversion H; subst it'. clear H.
  apply first_mismatch_spec in Hm.
  pose proof Hc as [Ht [Hv [Htop Hrest]]].
  assert (Htop0 : exists x, cell (table_ it1) (itsCurrentIteration it1)
                              (0 + itsCurrentTopRow it1) = Ok x /\
                            FIELD_ID x = itsCurrentFieldID it1).
  { exists r0. rewrite Ht, Hv, Htop. split; [exact Hr0 | congruence]. }
  destruct m as [r |]; cbn [reduce_rows].
  - destruct Hm as [Hr Hall].
    split; [| split; [| split]].
    + eapply sameCursor_trans; [exact Hc |]. repeat split.
    + cbn. congruence.
    + cbn. lia.
    + intros _ j Hj. cbn in Hj. cbn [table_ itsCurrentIteration itsCurrentTopRow
                                      itsCurrentFieldID set_itsNumberOfRows].
      destruct j as [| j]; [exact Htop0 |]. apply Hall. lia.
  - split; [| split; [| split]].
    + exact Hc.
    + congruence.
    + lia.
    + intros _ j Hj. destruct j as [| j]; [exact Htop0 |]. apply Hm. lia.
Qed.

Lemma uniformIn_shrink col it it' current :
  uniformIn col it current -> sameCursor it it' ->
  itsNumberOfRows it' <= itsNumberOfRows it ->
  uniformIn col it' current.
Proof.
  intros H [Ht [Hv [Htop _]]] Hle j Hj. rewrite Ht, Hv, Htop. apply H. lia.
Qed.

(** The two passes leave a chunk of at least one row, uniform in its data
    descriptor and, when FIELD_ID is in use, in its field. *)
Lemma formed_chunk_uniform it it1 it2 :
  1 <= itsNumberOfRows it ->
  makeUniformDataDescID it = Ok it1 ->
  makeUniformFieldID it1 = Ok it2 ->
  sameCursor it it2 /\
  1 <= itsNumberOfRows it2 <= itsNumberOfRows it /\
  uniformIn DATA_DESC_ID it2 (itsCurrentDataDescID it2) /\
  (itsUseFieldID it2 = true -> uniformIn FIELD_ID it2 (itsCurrentFieldID it2)).
Proof.
  intros Hn H1 H2.
  destruct (makeUniformDataDescID_uniform it Hn H1) as [Hc1 [_ [Hr1 Hu1]]].
  destruct (makeUniformFieldID_uniform it1 ltac:(lia) H2) as [Hc2 [Hd2 [Hr2 Hu2]]].
  split; [eapply sameCursor_trans; eauto |].
  split; [lia |]. split.
  - rewrite Hd2. eapply uniformIn_shrink; eauto. lia.
  - intros Huse. apply Hu2. destruct Hc2 as [_ [_ [_ [Hx _]]]]. congruence.
Qed.

Lemma chunkLimit_bounds (n : nat) (maxChunkSize : Z) :
  1 <= n -> (1 <= maxChunkSize)%Z ->
  1 <= chunkLimit n maxChunkSize <= n /\
  (Z.of_nat (chunkLimit n maxChunkSize) <= maxChunkSize)%Z.
Proof.
  intros Hn Hmax. unfold chunkLimit.
  destruct (Z.leb (Z.of_nat n) maxChunkSize) eqn:H.
  - apply Z.leb_le in H. lia.
  - apply Z.leb_gt in H. lia.
Qed.

Lemma checkCaches_cursor it it' :
  checkCaches it = Ok it' ->
  sameCursor it it' /\ itsNumberOfRows it' = itsNumberOfRows it.
Proof.
  unfold checkCaches. intros H.
  apply bind_Ok in H. destruct H as [epoch [_ H]].
  apply bind_Ok in H. destruct H as [spw [_ H]].
  apply bind_Ok in H. destruct H as [c [_ H]].
  destruct (fst c).
  - destruct ((if itsUseFieldID it then false else Field.newField (itsField it) epoch));
      destruct (_ || negb (allEquatorial (itsAntenna it))) in H;
      inversion H; repeat split.
  - destruct (_ || negb (allEquatorial (itsAntenna it))) in H; inversion H; repeat split.
Qed.

Lemma setUpIteration_invariant it it' :
  (1 <= itsMaxChunkSize it)%Z ->
  TableIterator.pastEnd (itsTabIterator it) = false ->
  itsCurrentTopRow it = 0 ->
  setUpIteration it = Ok it' ->
  chunkInvariant it' /\ itsTabIterator it' = itsTabIterator it /\
  itsCurrentIteration it' = TableIterator.table (itsTabIterator it) /\
  itsCurrentTopRow it' = 0 /\ itsMaxChunkSize it' = itsMaxChunkSize it /\
  table_ it' = table_ it.
Proof.
  intros Hmax Hend Htop H. unfold setUpIteration in H.
  set (it0 := set_itsNumberOfRows _ _) in H.
  assert (Hlen : 1 <= length (TableIterator.table (itsTabIterator it))).
  { unfold TableIterator.pastEnd, TableIterator.table in *.
    destruct (TableIterator.subTable_p (itsTabIterator it)); [discriminate | simpl; lia]. }
  assert (H0 : 1 <= itsNumberOfRows it0 <= length (TableIterator.table (itsTabIterator it))
               /\ (Z.of_nat (itsNumberOfRows it0) <= itsMaxChunkSize it)%Z).
  { unfold it0. cbn. apply chunkLimit_bounds; assumption. }
  apply bind_Ok in H. destruct H as [it1 [H1 H]].
  assert (Hc1 : sameCursor it0 it1 /\ itsNumberOfRows it1 = itsNumberOfRows it0).
  { destruct ((itsDirectionCache (itsCaches it0) || itsParallacticAngleCache (itsCaches it0))
              && Z.leb 0 (itsCurrentDataDescID it0)).
    - apply checkCaches_cursor. exact H1.
    - inversion H1. split; [apply sameCursor_refl | reflexivity]. }
  destruct Hc1 as [Hc1 Hn1].
  assert (Hnz : negb (Nat.eqb (itsNumberOfRows it1) 0) = true).
  { apply negb_true_iff. apply Nat.eqb_neq. lia. }
  rewrite Hnz in H.
  apply bind_Ok in H. destruct H as [it2 [Hm1 Hm2]].
  destruct (@formed_chunk_uniform it1 it2 it' ltac:(lia) Hm1 Hm2) as [Hc [Hr [Hu Hf]]].
  pose proof (sameCursor_trans Hc1 Hc) as [Ht [Hv [Htp [Huse [Hmx Hti]]]]].
  cbn in Ht, Hv, Htp, Hmx, Hti.
  split; [| repeat split; congruence].
  unfold chunkInvariant. rewrite Hv, Htp, Hmx, Htop.
  split; [lia |]. split; [lia |]. split; [lia |]. split; assumption.
Qed.

(** Every chunk formed by [next] while the table iterator is not past its
    end satisfies the invariants of a chunk. *)
Lemma next_invariant it it' (b : bool) :
  (1 <= itsMaxChunkSize it)%Z ->
  next it = Ok (b, it') ->
  TableIterator.pastEnd (itsTabIterator it') = false ->
  chunkInvariant it'.
Proof.
  intros Hmax H Hend. unfold next in H.
  apply bind_Ok in H. destruct H as [it1 [H1 H]]. inversion H; subst it1. clear H.
  cbn [itsCurrentIteration itsCurrentTopRow set_itsCurrentTopRow set_itsAtStart
       itsNumberOfRows] in H1.
  destruct (Nat.leb (length (itsCurrentIteration it))
                    (itsCurrentTopRow it + itsNumberOfRows it)) eqn:Hle.
  - cbn [itsTabIterator set_itsTabIterator set_itsCurrentTopRow set_itsAtStart table_] in H1.
    destruct (negb (TableIterator.pastEnd
                      (TableIterator.next (timeKey (table_ it)) (itsTabIterator it)))) eqn:Hp.
    + apply negb_true_iff in Hp.
      apply setUpIteration_invariant in H1; [tauto | exact Hmax | exact Hp | reflexivity].
    + inversion H1; subst it'. cbn in Hend. apply negb_false_iff in Hp. congruence.
  - apply Nat.leb_gt in Hle.
    apply bind_Ok in H1. destruct H1 as [it2 [Hm1 Hm2]].
    set (it0 := update_caches invalidateIterationCaches _) in Hm1.
    assert (H0 : 1 <= itsNumberOfRows it0 <=
                 length (itsCurrentIteration it) - (itsCurrentTopRow it + itsNumberOfRows it)
                 /\ (Z.of_nat (itsNumberOfRows it0) <= itsMaxChunkSize it)%Z).
    { unfold it0. cbn. apply chunkLimit_bounds; [lia | assumption]. }
    destruct (@formed_chunk_uniform it0 it2 it' ltac:(lia) Hm1 Hm2) as [Hc [Hr [Hu Hf]]].
    destruct Hc as [Ht [Hv [Htp [Huse [Hmx Hti]]]]].
    cbn in Ht, Hv, Htp, Hmx, Hti.
    unfold chunkInvariant. rewrite Hv, Htp, Hmx.
    split; [lia |]. split; [lia |]. split; [lia |]. split; assumption.
Qed.

(** *** The table iterator partitions the table *)

Lemma span_key_app (R : Type) (key : R -> Q) (k : Q) (l g rest : list R) :
  TableIterator.span_key key k l = (g, rest) -> l = g ++ rest.
Proof.
  revert g rest. induction l as [| r l IH]; intros g rest; simpl.
  - intros H. inversion H. reflexivity.
  - destruct (Qeqb (key r) k).
    + destruct (TableIterator.span_key key k l) as [g' rest'] eqn:Hs.
      intros H. inversion H; subst. simpl. f_equal. apply IH. reflexivity.
    + intros H. inversion H. reflexivity.
Qed.

Lemma TableIterator_next_partition (R : Type) (key : R -> Q) (it : TableIterator.t R) :
  TableIterator.unread it
  = TableIterator.subTable_p (TableIterator.next key it)
    ++ TableIterator.unread (TableIterator.next key it).
Proof.
  unfold TableIterator.next. destruct (TableIterator.unread it) as [| r l]; [reflexivity |].
  destruct (TableIterator.span_key key (key r) l) as [g rest] eqn:Hs. simpl.
  f_equal. eapply span_key_app. exact Hs.
Qed.

Lemma TableIterator_next_pastEnd (R : Type) (key : R -> Q) (it : TableIterator.t R) :
  TableIterator.pastEnd (TableIterator.next key it) = true ->
  TableIterator.unread it = [].
Proof.
  unfold TableIterator.next, TableIterator.pastEnd.
  destruct (TableIterator.unread it) as [| r l]; [reflexivity |].
  destruct (TableIterator.span_key key (key r) l). simpl. discriminate.
Qed.

(** *** One step of the iteration *)

(** The three ways [next] can go from a chunk within its group. *)
Lemma next_cases it it' (b : bool) :
  (1 <= itsMaxChunkSize it)%Z ->
  itsCurrentTopRow it + itsNumberOfRows it <= length (itsCurrentIteration it) ->
  next it = Ok (b, it') ->
  itsMaxChunkSize it' = itsMaxChunkSize it /\ table_ it' = table_ it /\
  b = hasMore it' /\
  ((itsCurrentTopRow it + itsNumberOfRows it < length (itsCurrentIteration it) /\
    itsTabIterator it' = itsTabIterator it /\
    itsCurrentIteration it' = itsCurrentIteration it /\
    itsCurrentTopRow it' = itsCurrentTopRow it + itsNumberOfRows it /\
    chunkInvariant it') \/
   (itsCurrentTopRow it + itsNumberOfRows it = length (itsCurrentIteration it) /\
    itsTabIterator it' = TableIterator.next (timeKey (table_ it)) (itsTabIterator it) /\
    TableIterator.pastEnd (itsTabIterator it') = false /\
    itsCurrentIteration it' = TableIterator.table (itsTabIterator it') /\
    itsCurrentTopRow it' = 0 /\
    chunkInvariant it') \/
   (itsCurrentTopRow it + itsNumberOfRows it = length (itsCurrentIteration it) /\
    itsTabIterator it' = TableIterator.next (timeKey (table_ it)) (itsTabIterator it) /\
    TableIterator.pastEnd (itsTabIterator it') = true /\
    itsCurrentIteration it' = itsCurrentIteration it /\
    itsCurrentTopRow it' = 0 /\
    itsNumberOfRows it' = itsNumberOfRows it)).
Proof.
  intros Hmax Hin H. unfold next in H.
  apply bind_Ok in H. destruct H as [it1 [H1 H]]. inversion H; subst it1 b. clear H.
  cbn [itsCurrentIteration itsCurrentTopRow set_itsCurrentTopRow set_itsAtStart
       itsNumberOfRows] in H1.
  destruct (Nat.leb (length (itsCurrentIteration it))
                    (itsCurrentTopRow it + itsNumberOfRows it)) eqn:Hle.
  - apply Nat.leb_le in Hle.
    cbn [itsTabIterator set_itsTabIterator set_itsCurrentTopRow set_itsAtStart table_] in H1.
    destruct (negb (TableIterator.pastEnd
                      (TableIterator.next (timeKey (table_ it)) (itsTabIterator it)))) eqn:Hp.
    + apply negb_true_iff in Hp.
      apply setUpIteration_invariant in H1; [| exact Hmax | exact Hp | reflexivity].
      destruct H1 as [Hinv [Hti [Hcur [Htop [Hmx Ht]]]]].
      cbn in Hti, Hcur, Hmx, Ht.
      split; [exact Hmx |]. split; [exact Ht |]. split; [reflexivity |].
      right. left.
      split; [lia |]. split; [exact Hti |]. split; [rewrite Hti; exact Hp |].
      split; [rewrite Hti; exact Hcur |]. split; [exact Htop | exact Hinv].
    + apply negb_false_iff in Hp. inversion H1; subst it'.
      split; [reflexivity |]. split; [reflexivity |]. split; [reflexivity |].
      right. right. cbn.
      split; [lia |]. split; [reflexivity |]. split; [exact Hp |]. repeat split.
  - apply Nat.leb_gt in Hle.
    apply bind_Ok in H1. destruct H1 as [it2 [Hm1 Hm2]].
    set (it0 := update_caches invalidateIterationCaches _) in Hm1.
    assert (H0 : 1 <= itsNumberOfRows it0 <=
                 length (itsCurrentIteration it) - (itsCurrentTopRow it + itsNumberOfRows it)
                 /\ (Z.of_nat (itsNumberOfRows it0) <= itsMaxChunkSize it)%Z).
    { unfold it0. cbn. apply chunkLimit_bounds; [lia | assumption]. }
    destruct (@formed_chunk_uniform it0 it2 it' ltac:(lia) Hm1 Hm2) as [Hc [Hr [Hu Hf]]].
    destruct Hc as [Ht [Hv [Htp [Huse [Hmx Hti]]]]].
    cbn in Ht, Hv, Htp, Hmx, Hti.
    split; [exact Hmx |]. split; [exact Ht |]. split; [reflexivity |].
    left.
    split; [lia |]. split; [exact Hti |]. split; [exact Hv |]. split; [exact Htp |].
    unfold chunkInvariant. rewrite Hv, Htp, Hmx.
    split; [lia |]. split; [lia |]. split; [lia |]. split; assumption.
Qed.

Lemma chunkRows_split it :
  itsCurrentTopRow it + itsNumberOfRows it <= length (itsCurrentIteration it) ->
  skipn (itsCurrentTopRow it) (itsCurrentIteration it)
  = chunkRows it
    ++ skipn (itsCurrentTopRow it + itsNumberOfRows it) (itsCurrentIteration it).
Proof.
  intros H. unfold chunkRows.
  rewrite <- (firstn_skipn (itsNumberOfRows it)
                (skipn (itsCurrentTopRow it) (itsCurrentIteration it))) at 1.
  f_equal. rewrite skipn_skipn. f_equal. lia.
Qed.

Lemma deliveredToEnd_covers (fuel : nat) :
  forall (it : TableConstDataIterator) (view prefix : list nat),
    positioned view prefix it ->
    length (skipn (itsCurrentTopRow it) (itsCurrentIteration it))
    + length (TableIterator.unread (itsTabIterator it)) < fuel ->
    exists r, deliveredToEnd fuel it = Some r /\
              forall chunks itEnd, r = Ok (chunks, itEnd) ->
                                   view = prefix ++ concat chunks /\ exhausted itEnd.
Proof.
  induction fuel as [| fuel IH]; intros it view prefix Hpos Hfuel; [lia |].
  destruct Hpos as [Hend [Hcur [Hinv [Hmax Hview]]]].
  pose proof Hinv as [Hn1 [Hn2 [Hin [Hu Hf]]]].
  simpl. rewrite Hend.
  destruct (next it) as [[b it'] | e] eqn:Hnext.
  2: { eexists. split; [reflexivity |]. intros chunks itEnd H. discriminate. }
  destruct (next_cases it Hmax Hin Hnext) as [Hmx [Ht [_ [HA | [HB | HC]]]]].
  - destruct HA as [Hlt [Hti [Hcur' [Htop' Hinv']]]].
    assert (Hpos' : positioned view (prefix ++ chunkRows it) it').
    { split; [congruence |]. split; [congruence |]. split; [exact Hinv' |].
      split; [congruence |].
      rewrite Hcur', Htop', Hti, <- app_assoc. rewrite Hview.
      rewrite (chunkRows_split it Hin) at 1. rewrite <- app_assoc. reflexivity. }
    destruct (IH it' view (prefix ++ chunkRows it) Hpos') as [r [Hr Hres]].
    { rewrite Hcur', Htop', Hti. rewrite !length_skipn in *. lia. }
    rewrite Hr. destruct r as [[l itEnd] | e].
    + eexists. split; [reflexivity |]. intros chunks itEnd' H. injection H as <- <-.
      destruct (Hres l itEnd eq_refl) as [Hv He]. split; [| exact He].
      simpl. rewrite Hv, <- app_assoc. reflexivity.
    + eexists. split; [reflexivity |]. discriminate.
  - destruct HB as [Heq [Hti [Hend' [Hcur' [Htop' Hinv']]]]].
    assert (Hchunk : skipn (itsCurrentTopRow it) (itsCurrentIteration it) = chunkRows it).
    { rewrite (chunkRows_split it Hin). rewrite Heq, skipn_all, app_nil_r. reflexivity. }
    assert (Hpart := TableIterator_next_partition (timeKey (table_ it)) (itsTabIterator it)).
    rewrite <- Hti in Hpart.
    assert (Hpos' : positioned view (prefix ++ chunkRows it) it').
    { split; [exact Hend' |]. split; [exact Hcur' |]. split; [exact Hinv' |].
      split; [congruence |].
      rewrite Htop', Hcur'. cbn [skipn]. unfold TableIterator.table.
      rewrite <- Hpart, <- app_assoc, <- Hchunk. exact Hview. }
    destruct (IH it' view (prefix ++ chunkRows it) Hpos') as [r [Hr Hres]].
    { rewrite Htop', Hcur'. cbn [skipn]. unfold TableIterator.table.
      rewrite <- length_app, <- Hpart. rewrite length_skipn in *. lia. }
    rewrite Hr. destruct r as [[l itEnd] | e].
    + eexists. split; [reflexivity |]. intros chunks itEnd' H. injection H as <- <-.
      destruct (Hres l itEnd eq_refl) as [Hv He]. split; [| exact He].
      simpl. rewrite Hv, <- app_assoc. reflexivity.
    + eexists. split; [reflexivity |]. discriminate.
  - destruct HC as [Heq [Hti [Hend' [Hcur' [Htop' Hrows']]]]].
    assert (Hchunk : skipn (itsCurrentTopRow it) (itsCurrentIteration it) = chunkRows it).
    { rewrite (chunkRows_split it Hin). rewrite Heq, skipn_all, app_nil_r. reflexivity. }
    assert (Hnil : TableIterator.unread (itsTabIterator it) = []).
    { apply TableIterator_next_pastEnd with (key := timeKey (table_ it)). congruence. }
    destruct fuel as [| fuel]; [rewrite length_skipn in Hfuel; lia |].
    simpl. rewrite Hend'.
    eexists. split; [reflexivity |]. intros chunks itEnd H. injection H as <- <-.
    split.
    + simpl. rewrite app_nil_r. rewrite Hview, Hnil, app_nil_r, Hchunk. reflexivity.
    + split; [exact Hend' |]. split; [exact Htop' |]. split; [| congruence].
      rewrite Hrows', Hcur'. lia.
Qed.

Lemma setUpIteration_empty it it' :
  TableIterator.table (itsTabIterator it) = [] ->
  (0 <= itsMaxChunkSize it)%Z ->
  (itsCurrentDataDescID it < 0)%Z ->
  setUpIteration it = Ok it' ->
  itsTabIterator it' = itsTabIterator it /\ itsCurrentIteration it' = [] /\
  itsNumberOfRows it' = 0 /\ itsCurrentTopRow it' = itsCurrentTopRow it.
Proof.
  intros Htab Hmax Hdd H. unfold setUpIteration in H.
  set (it0 := set_itsNumberOfRows _ _) in H.
  assert (Hn0 : itsNumberOfRows it0 = 0).
  { unfold it0. cbn [itsNumberOfRows set_itsNumberOfRows itsCurrentIteration
                     set_itsCurrentIteration update_caches set_itsCaches
                     itsMaxChunkSize].
    rewrite Htab. unfold chunkLimit. cbn [length Z.of_nat].
    assert (Hz : Z.leb 0 (itsMaxChunkSize it) = true) by (apply Z.leb_le; lia).
    rewrite Hz. reflexivity. }
  assert (Hd0 : Z.leb 0 (itsCurrentDataDescID it0) = false).
  { apply Z.leb_gt. exact Hdd. }
  rewrite Hd0, andb_false_r in H. cbn [bind] in H. rewrite Hn0 in H.
  cbn [Nat.eqb negb] in H. inversion H.
  split; [reflexivity |]. split; [exact Htab |]. split; [exact Hn0 | reflexivity].
Qed.

Lemma init_positioned it it0 :
  itsAtStart it = false ->
  (1 <= itsMaxChunkSize it)%Z ->
  init it = Ok it0 ->
  (selection it = [] /\ TableIterator.pastEnd (itsTabIterator it0) = true /\
   hasMore it0 = false) \/
  positioned (selection it) [] it0.
Proof.
  intros Hstart Hmax. unfold init. rewrite Hstart.
  cbv beta zeta iota delta [negb]. intros H.
  apply bind_Ok in H. destruct H as [it2 [H2 H]]. inversion H; subst it0. clear H.
  set (it1 := set_itsFlagData false _) in H2.
  assert (Hti : itsTabIterator it1
                = TableIterator.make (timeKey (table_ it)) (selection it))
    by reflexivity.
  destruct (selection it) as [| r l] eqn:Hsel.
  - left. split; [reflexivity |].
    apply setUpIteration_empty in H2.
    + destruct H2 as [Hti2 [Hcur [Hn Htop]]].
      unfold hasMore.
      cbn [itsTabIterator itsCurrentTopRow itsNumberOfRows itsCurrentIteration
           set_itsAtStart].
      rewrite Hti2, Hti, Hcur, Hn. split; reflexivity.
    + rewrite Hti. reflexivity.
    + unfold it1. cbn [itsMaxChunkSize set_itsFlagData set_itsChannelsSelected
                       set_itsTabIterator set_itsUseFieldID set_itsCurrentFieldID
                       set_itsCurrentDataDescID set_itsCurrentTopRow]. lia.
    + reflexivity.
  - right.
    assert (Hend : TableIterator.pastEnd (itsTabIterator it1) = false).
    { rewrite Hti. unfold TableIterator.make, TableIterator.next.
      cbn [TableIterator.unread].
      destruct (TableIterator.span_key (timeKey (table_ it)) (timeKey (table_ it) r) l).
      reflexivity. }
    apply setUpIteration_invariant in H2; [| exact Hmax | exact Hend | reflexivity].
    destruct H2 as [Hinv [Hti2 [Hcur [Htop [Hmx Ht]]]]].
    split; [cbn [itsTabIterator set_itsAtStart]; congruence |].
    split; [cbn [itsTabIterator itsCurrentIteration set_itsAtStart]; congruence |].
    split; [exact Hinv |].
    split; [cbn [itsMaxChunkSize set_itsAtStart]; rewrite Hmx; exact Hmax |].
    cbn [itsCurrentTopRow itsCurrentIteration itsTabIterator set_itsAtStart].
    rewrite Htop, Hcur, Hti2, Hti. cbn [skipn app]. unfold TableIterator.make.
    unfold TableIterator.table.
    rewrite <- (TableIterator_next_partition (timeKey (table_ it))
                  (TableIterator.mk (r :: l) (r :: l) [])).
    reflexivity.
Qed.

Lemma delivered_more (fuel : nat) :
  forall (k : nat) (it : TableConstDataIterator) r,
    delivered fuel it = Some r -> delivered (fuel + k) it = Some r.
Proof.
  induction fuel as [| fuel IH]; intros k it r; simpl; [discriminate |].
  destruct (hasMore it); [| auto].
  destruct (next it) as [[b it'] | e]; [| auto].
  destruct (delivered fuel it') as [r' |] eqn:Hd; [| discriminate].
  rewrite (IH k it' r' Hd). auto.
Qed.

(** The loop first delivers the chunks up to the end of the table iterator,
    then whatever it delivers from the state left there. *)
Lemma delivered_join (f1 : nat) :
  forall (it : TableConstDataIterator) (f2 : nat),
    match deliveredToEnd f1 it with
    | None => True
    | Some (Err e) => delivered (f1 + f2) it = Some (Err e)
    | Some (Ok (g, itEnd)) =>
        forall r, delivered f2 itEnd = Some r ->
                  delivered (f1 + f2) it
                  = Some (match r with Ok s => Ok (g ++ s) | Err e => Err e end)
    end.
Proof.
  induction f1 as [| f1 IH]; intros it f2; [exact I |].
  cbn [deliveredToEnd].
  destruct (TableIterator.pastEnd (itsTabIterator it)) eqn:Hend.
  - intros r Hr. replace (S f1 + f2) with (f2 + S f1) by lia.
    rewrite (delivered_more f2 (S f1) it Hr). destruct r; reflexivity.
  - assert (Hmore : hasMore it = true) by (unfold hasMore; rewrite Hend; reflexivity).
    change (S f1 + f2) with (S (f1 + f2)). cbn [delivered]. rewrite Hmore.
    destruct (next it) as [[b it'] | e]; [| reflexivity].
    specialize (IH it' f2).
    destruct (deliveredToEnd f1 it') as [[[l itEnd] | e] |]; [| | exact I].
    + intros r Hr. rewrite (IH r Hr). destruct r; reflexivity.
    + rewrite IH. reflexivity.
Qed.

(** From the state left at the end of the table iterator the loop stops
    after at most as many chunks as the last group has rows. *)
Lemma delivered_exhausted (fuel : nat) :
  forall it : TableConstDataIterator,
    TableIterator.pastEnd (itsTabIterator it) = true ->
    (1 <= itsMaxChunkSize it)%Z ->
    1 <= itsNumberOfRows it ->
    itsCurrentTopRow it + itsNumberOfRows it <= length (itsCurrentIteration it) ->
    length (itsCurrentIteration it) - itsCurrentTopRow it < fuel ->
    exists r, delivered fuel it = Some r.
Proof.
  induction fuel as [| fuel IH]; intros it Hend Hmax Hn Hin Hfuel; [lia |].
  simpl. destruct (hasMore it) eqn:Hmore; [| eauto].
  destruct (next it) as [[b it'] | e] eqn:Hnext; [| eauto].
  unfold hasMore in Hmore. rewrite Hend in Hmore. cbn [negb] in Hmore.
  destruct (Nat.ltb (itsCurrentTopRow it + itsNumberOfRows it)
                    (length (itsCurrentIteration it))) eqn:Hlt; [| discriminate].
  apply Nat.ltb_lt in Hlt.
  destruct (next_cases it Hmax Hin Hnext) as [Hmx [Ht [_ [HA | [HB | HC]]]]];
    [| destruct HB; lia | destruct HC; lia].
  destruct HA as [_ [Hti [Hcur' [Htop' Hinv']]]].
  destruct Hinv' as [Hn1 [Hn2 [Hin' _]]].
  destruct (IH it') as [r Hr]; try congruence; try lia.
  { rewrite Hcur', Htop'. lia. }
  rewrite Hr. destruct r; eauto.
Qed.

Lemma delivered_nothing (fuel : nat) (it : TableConstDataIterator) :
  delivered (S fuel) it = Some (Ok []) <-> hasMore it = false.
Proof.
  simpl. destruct (hasMore it).
  - split; [| discriminate]. intros H.
    destruct (next it) as [[b it'] | e]; [| discriminate].
    destruct (delivered fuel it') as [[l | e] |]; discriminate.
  - split; reflexivity.
Qed.

Lemma exhausted_hasMore (it : TableConstDataIterator) :
  exhausted it ->
  (hasMore it = false <-> itsNumberOfRows it = length (itsCurrentIteration it)).
Proof.
  intros [Hend [Htop [Hn _]]]. unfold hasMore. rewrite Hend, Htop. cbn [negb Nat.add].
  destruct (Nat.ltb (itsNumberOfRows it) (length (itsCurrentIteration it))) eqn:H.
  - apply Nat.ltb_lt in H. split; [discriminate | lia].
  - apply Nat.ltb_ge in H. split; [lia | reflexivity].
Qed.

(** The loop of a freshly constructed iterator ends, and what it delivers
    is, first, the selected rows in table order, chunk by chunk, and then
    whatever [hasMore] lets through from the state left at the end of the
    table iterator: nothing exactly when [hasMore] is false there. *)
Lemma delivered_rows_then_repetition (it it0 : TableConstDataIterator) :
  itsAtStart it = false ->
  (1 <= itsMaxChunkSize it)%Z ->
  init it = Ok it0 ->
  exists fuel0, forall fuel, fuel0 <= fuel ->
    exists r, delivered fuel it0 = Some r /\
      forall chunks, r = Ok chunks ->
        exists g s f1 itEnd,
          deliveredToEnd f1 it0 = Some (Ok (g, itEnd)) /\
          chunks = g ++ s /\ concat g = selection it /\
          (s = [] <-> hasMore itEnd = false).
Proof.
  intros Hstart Hmax Hinit.
  destruct (init_positioned it Hstart Hmax Hinit) as [[Hsel [Hend Hmore]] | Hpos].
  - exists 1. intros fuel Hfuel. destruct fuel as [| fuel]; [lia |].
    exists (Ok []). split; [apply delivered_nothing; exact Hmore |].
    intros chunks H. injection H as <-.
    exists [], [], 1, it0. cbn [deliveredToEnd]. rewrite Hend.
    split; [reflexivity |]. split; [reflexivity |]. split; [symmetry; exact Hsel |].
    split; [intros _; exact Hmore | reflexivity].
  - pose (f1 := S (length (skipn (itsCurrentTopRow it0) (itsCurrentIteration it0))
                   + length (TableIterator.unread (itsTabIterator it0)))).
    destruct (@deliveredToEnd_covers f1 it0 (selection it) [] Hpos ltac:(unfold f1; lia))
      as [r1 [Hr1 Hres]].
    pose proof (delivered_join f1 it0) as Hjoin. rewrite Hr1 in Hjoin.
    destruct r1 as [[g itEnd] | e].
    + destruct (Hres g itEnd eq_refl) as [Hview Hex].
      pose (f2 := S (length (itsCurrentIteration itEnd))).
      destruct Hex as [Hend [Htop [Hn Hmx]]].
      destruct (@delivered_exhausted f2 itEnd Hend Hmx ltac:(lia) ltac:(lia)
                  ltac:(unfold f2; lia)) as [r2 Hr2].
      exists (f1 + f2). intros fuel Hfuel.
      replace fuel with (f1 + f2 + (fuel - (f1 + f2))) by lia.
      eexists. split; [apply delivered_more; apply (Hjoin f2 r2 Hr2) |].
      intros chunks H. destruct r2 as [s | e]; [| discriminate].
      injection H as <-.
      exists g, s, f1, itEnd. split; [exact Hr1 |]. split; [reflexivity |].
      split; [symmetry; exact Hview |].
      unfold f2 in Hr2. split.
      * intros ->. apply (delivered_nothing (length (itsCurrentIteration itEnd)) itEnd).
        exact Hr2.
      * intros Hno.
        apply (delivered_nothing (length (itsCurrentIteration itEnd)) itEnd) in Hno.
        rewrite Hno in Hr2. injection Hr2 as <-. reflexivity.
    + exists f1. intros fuel Hfuel.
      replace fuel with (f1 + 0 + (fuel - f1)) by lia.
      eexists. split; [apply delivered_more; apply (Hjoin 0) |].
      intros chunks H. discriminate.
Qed.

(** ** The channel selection is checked when a data descriptor is met *)

Lemma cell_Err (t : Table) (view : RefTable) (row : nat) (e : Error) :
  cell t view row = Err e -> e = TableError.
Proof.
  unfold cell. destruct (nth_error view row) as [n |]; [| now inversion 1].
  destruct (nth_error (rows t) n); now inversion 1.
Qed.

Lemma first_mismatch_Err (col : Row -> Z) (t : Table) (view : RefTable)
    (top : nat) (current : Z) (todo row : nat) (e : Error) :
  first_mismatch col t view top current row todo = Err e -> e = TableError.
Proof.
  revert row. induction todo as [| todo IH]; intros row; simpl; [discriminate |].
  intros H. apply bind_Err in H. destruct H as [H | [r [_ H]]].
  - eapply cell_Err; eauto.
  - destruct (negb (Z.eqb (col r) current)); [discriminate | eauto].
Qed.

Lemma checkBeamDetails_selector (it it1 : TableConstDataIterator) :
  checkBeamDetails it = Ok it1 -> itsSelector it1 = itsSelector it.
Proof.
  unfold checkBeamDetails.
  destruct (itsDirectionCache (itsCaches it)); [| now inversion 1].
  intros H.
  apply bind_Ok in H. destruct H as [spw [_ H]].
  apply bind_Ok in H. destruct H as [epoch [_ H]].
  apply bind_Ok in H. destruct H as [z [_ H]].
  destruct (negb (fst z)); [| now inversion H].
  destruct (Feed.newBeamDetails _ _ _); now inversion H.
Qed.

Lemma to_uInt_small (z : Z) : (0 <= z < 2 ^ 32)%Z -> to_uInt z = z.
Proof. intros H. unfold to_uInt. apply Z.mod_small. exact H. Qed.

(** The outcome of the shape set-up under a channel selection. *)
Lemma setUpShape_selected (r0 : Row) (it : TableConstDataIterator) (n start : Z) :
  getChannelSelection (itsSelector it) = (n, start) ->
  (0 <= n)%Z -> (0 <= start)%Z -> (n + start < 2 ^ 31)%Z ->
  length (shape (DATA r0)) = 1 \/ length (shape (DATA r0)) = 2 ->
  let available :=
    if Nat.ltb 1 (length (shape (DATA r0))) then nth 1 (shape (DATA r0)) 0 else 1 in
  ((Z.of_nat available < n + start)%Z -> setUpShape r0 it = Err SelectionError) /\
  ((n + start <= Z.of_nat available)%Z ->
     exists it', setUpShape r0 it = Ok it' /\
                 itsSelector it' = itsSelector it /\
                 table_ it' = table_ it /\
                 itsCurrentIteration it' = itsCurrentIteration it /\
                 itsCurrentTopRow it' = itsCurrentTopRow it /\
                 itsCurrentDataDescID it' = itsCurrentDataDescID it /\
                 itsNumberOfRows it' = itsNumberOfRows it).
Proof.
  intros Hsel Hn Hs Hsum Hshape available.
  unfold setUpShape.
  assert (Hchk : negb (Nat.eqb (length (shape (DATA r0))) 0)
                 && Nat.ltb (length (shape (DATA r0))) 3 = true).
  { destruct Hshape as [-> | ->]; reflexivity. }
  rewrite Hchk. simpl bind. cbn [itsSelector set_itsNumberOfChannels set_itsNumberOfPols].
  unfold channelsSelected. rewrite Hsel. cbn [fst snd].
  assert (Hle : Z.leb 0 n = true) by (apply Z.leb_le; exact Hn).
  rewrite Hle. cbn [itsNumberOfChannels set_itsNumberOfChannels].
  rewrite to_uInt_small by (split; [lia | apply Z.lt_trans with (2 ^ 31)%Z; [lia | reflexivity]]).
  fold available.
  split; intros H.
  - assert (Hg : Z.geb (Z.of_nat available) (n + start) = false).
    { rewrite Z.geb_leb. apply Z.leb_gt. exact H. }
    rewrite Hg. reflexivity.
  - assert (Hg : Z.geb (Z.of_nat available) (n + start) = true).
    { rewrite Z.geb_leb. apply Z.leb_le. exact H. }
    rewrite Hg. simpl. eexists. split; [reflexivity |]. repeat split.
Qed.

(** C4.  A channel selection of [n] channels from channel [start] that runs
    beyond the channels of the top row of a chunk makes
    [makeUniformDataDescID] raise the selection error exactly when that row
    brings a data descriptor different from the current one; with the
    descriptor unchanged the method never raises it, and building the
    selection raises nothing.  The top row is readable, its cube has one or
    two axes and the beam details, if looked up, are found. *)
Theorem channel_selection_checked_on_descriptor_change
    (it it1 : TableConstDataIterator) (r0 : Row) (n start : Z) (s : Selector) :
  cell (table_ it) (itsCurrentIteration it) (itsCurrentTopRow it) = Ok r0 ->
  getChannelSelection (itsSelector it) = (n, start) ->
  (0 <= n)%Z -> (0 <= start)%Z -> (n + start < 2 ^ 31)%Z ->
  checkBeamDetails (set_itsCurrentDataDescID (DATA_DESC_ID r0)
                      (update_caches invalidateSpectralCaches it)) = Ok it1 ->
  length (shape (DATA r0)) = 1 \/ length (shape (DATA r0)) = 2 ->
  let available :=
    if Nat.ltb 1 (length (shape (DATA r0))) then nth 1 (shape (DATA r0)) 0 else 1 in
  (itsCurrentDataDescID it <> DATA_DESC_ID r0 ->
     (makeUniformDataDescID it = Err SelectionError <->
      (Z.of_nat available < n + start)%Z)) /\
  (itsCurrentDataDescID it = DATA_DESC_ID r0 ->
     makeUniformDataDescID it <> Err SelectionError) /\
  (exists s', chooseChannels n start s = Ok s').
Proof.
  intros Hcell Hsel Hn Hs Hsum Hbeam Hshape available.
  assert (Hsel1 : getChannelSelection (itsSelector it1) = (n, start)).
  { rewrite (checkBeamDetails_selector _ Hbeam). exact Hsel. }
  destruct (setUpShape_selected r0 it1 Hsel1 Hn Hs Hsum Hshape) as [Hbad Hgood].
  fold available in Hbad, Hgood.
  split; [| split].
  - intros Hnew.
    assert (Hneq : negb (Z.eqb (itsCurrentDataDescID it) (DATA_DESC_ID r0)) = true).
    { apply negb_true_iff. apply Z.eqb_neq. exact Hnew. }
    unfold makeUniformDataDescID. rewrite Hcell. cbn [bind]. rewrite Hneq.
    unfold newDataDescriptor. rewrite Hbeam. cbn [bind].
    split.
    + intros H.
      destruct (Z.lt_ge_cases (Z.of_nat available) (n + start)) as [Hlt | Hge];
        [exact Hlt | exfalso].
      destruct (Hgood Hge) as [it' [Hok _]].
      rewrite Hok in H. cbn [bind] in H.
      apply bind_Err in H. destruct H as [H | [m [_ H]]]; [| discriminate].
      apply first_mismatch_Err in H. discriminate.
    + intros Hlt. rewrite (Hbad Hlt). reflexivity.
  - intros Hsame H.
    unfold makeUniformDataDescID in H. rewrite Hcell in H. cbn [bind] in H.
    assert (Heq : negb (Z.eqb (itsCurrentDataDescID it) (DATA_DESC_ID r0)) = false).
    { apply negb_false_iff. apply Z.eqb_eq. exact Hsame. }
    rewrite Heq in H. cbn [bind] in H.
    apply bind_Err in H. destruct H as [H | [m [_ H]]]; [| discriminate].
    apply first_mismatch_Err in H. discriminate.
  - eexists. reflexivity.
Qed.

(** A selection of 10 channels from channel 5 on a dataset of 13 channels is
    refused when the first chunk is formed. *)
Lemma channel_selection_checked_witness :
  makeUniformDataDescID (Sample.beforeFirstChunk Sample.oneRow (Sample.channels 10 5))
  = Err SelectionError.
Proof.
  pose (it := Sample.beforeFirstChunk Sample.oneRow (Sample.channels 10 5)).
  pose (r0 := Sample.row 1 0 false 13).
  assert (Hcell : cell (table_ it) (itsCurrentIteration it) (itsCurrentTopRow it) = Ok r0)
    by reflexivity.
  assert (Hsel : getChannelSelection (itsSelector it) = (10, 5)%Z) by reflexivity.
  assert (Hbeam : checkBeamDetails
                    (set_itsCurrentDataDescID (DATA_DESC_ID r0)
                       (update_caches invalidateSpectralCaches it))
                  = Ok (set_itsCurrentDataDescID (DATA_DESC_ID r0)
                          (update_caches invalidateSpectralCaches it)))
    by reflexivity.
  assert (Hshape : length (shape (DATA r0)) = 1 \/ length (shape (DATA r0)) = 2)
    by (right; reflexivity).
  destruct (@channel_selection_checked_on_descriptor_change
              it _ r0 10%Z 5%Z Sample.everything
              Hcell Hsel ltac:(lia) ltac:(lia) ltac:(reflexivity) Hbeam Hshape)
    as [Hnew _].
  apply Hnew.
  - simpl. discriminate.
  - simpl. lia.
Defined.

(** ** Cube fills *)

(** C9.  The shape check of the cube fill does NOT look at the rows of the
    chunk when the chunk does not start at the first row of its time group:
    it reads the shape of row [row] of the group, and the data of row
    [row + itsCurrentTopRow].  On a time stamp of two rows of different data
    descriptors, with cubes of 2 x 4 and 2 x 8, the second chunk consists of
    row 1 alone, whose cube of 2 x 8 is the one the 2 polarisations and 8
    channels of the chunk were established from, yet the fill of its
    visibilities is refused with the error about the channels of row 0. *)
Theorem shape_check_reads_rows_of_first_chunk :
  (it <- Sample.secondChunk Sample.twoShapes Sample.altAz Sample.everything ;;
   Ok (chunkRows it, itsCurrentTopRow it,
       shapesOf (table_ it) (chunkRows it),
       (itsNumberOfPols it, itsNumberOfChannels it),
       match fillVisibility Sample.sameFrame (emptyCube (0%Q, 0%Q)) it with
       | Ok _ => None
       | Err e => Some e
       end))
  = Ok ([1], 1, [[2; 8]], (2, 8), Some (ChanShapeMismatch 0)).
Proof. vm_compute. reflexivity. Qed.

(** C6.  A row flagged as a whole does NOT get its row of the flag cube set
    when the chunk does not start at the first row of its time group: the
    helper is given the row number within the group both for FLAG_ROW and for
    the plane of the cube.  On a time stamp of three rows, of data
    descriptors 0, 1, 1 and with the second row flagged as a whole, the
    second chunk holds rows 1 and 2; its flag cube, filled into an empty
    cube, has no flag set in its first row. *)
Theorem row_flag_sets_plane_of_group_row :
  (it <- Sample.secondChunk Sample.oneRowFlagged Sample.altAz Sample.everything ;;
   r <- fillFlag Sample.sameFrame (emptyCube false) it ;;
   Ok (chunkRows it, itsCurrentTopRow it, flagRowsOf (table_ it) (chunkRows it),
       cube_to_list (fst r)))
  = Ok ([1; 2], 1, [true; false],
        [ [[false; false]; [false; false]]; [[false; false]; [false; false]] ]).
Proof. vm_compute. reflexivity. Qed.

(** ** Frequency selection outside the axis *)

(** C5, as stated, fails: a frequency of 150 selected on an axis of 13
    channels from 100 in steps of 1 has nearest channel 50; the channel range
    is computed without any error, as one channel starting at channel 12,
    and the data are marked as flagged. *)
Lemma frequency_beyond_axis_not_refused :
  (it <- Sample.iterator Sample.oneRow Sample.altAz (Sample.frequency 150) ;;
   freqs <- getFrequencies (itsSpWindow it) 0 ;;
   r <- getChannelRange Sample.sameFrame it ;;
   Ok (length freqs, nearestChannelOf 150 freqs, fst r, itsFlagData (snd r)))
  = Ok (13, 50%Z, (1, 12), true).
Proof. vm_compute. reflexivity. Qed.

(** ** Validity of the cached FEED and FIELD records *)

(** C7, as stated, fails: with the FEED record centred on 15 and valid for 10
    in cache (from 10 till 20), the query at 20, the stop time itself, is
    answered from the cache. *)
Lemma feed_cache_valid_at_stop_time :
  (h <- Feed.fillCache (Feed.make Sample.feedTable 1) 15 0 ;;
   Ok (Qeqb (Feed.itsCachedStartTime h) 10, Qeqb (Feed.itsCachedStopTime h) 20,
       Feed.newBeamDetails h 20 0))
  = Ok (true, true, false).
Proof. vm_compute. reflexivity. Qed.

Lemma Qltb_false (x y : Q) : Qltb x y = false <-> (y <= x)%Q.
Proof.
  unfold Qltb. rewrite negb_false_iff. apply Qle_bool_iff.
Qed.

Lemma Qleb_true (x y : Q) : Qleb x y = true <-> (x <= y)%Q.
Proof. apply Qle_bool_iff. Qed.

Lemma Feed_newBeamDetails_false (h : Feed.t) (t : Q) (spw : Z) :
  Feed.newBeamDetails h t spw = false <->
  (Feed.itsCachedStartTime h <= t)%Q /\ (t <= Feed.itsCachedStopTime h)%Q /\
  (spw = Feed.itsCachedSpWindow h \/ Feed.itsCachedSpWindow h = (-1)%Z).
Proof.
  unfold Feed.newBeamDetails.
  match goal with
  | |- (if ?c then false else true) = false <-> _ =>
      assert (Hc : (if c then false else true) = false <-> c = true)
        by (destruct c; split; congruence);
      rewrite Hc; clear Hc
  end.
  rewrite !andb_true_iff, orb_true_iff, !Qleb_true, !Z.eqb_eq.
  tauto.
Qed.

Lemma Field_newField_false (h : Field.t) (t : Q) :
  Field.newField h t = false <->
  Field.itsNeverAccessedFlag h = false /\ (Field.itsCachedStartTime h <= t)%Q /\
  (length (Field.table h) = 1 \/ (t <= Field.itsCachedStopTime h)%Q).
Proof.
  unfold Field.newField.
  destruct (Field.itsNeverAccessedFlag h).
  { split; [discriminate | intros [H _]; discriminate]. }
  destruct (Qltb t (Field.itsCachedStartTime h)) eqn:H1.
  { split; [discriminate |]. intros [_ [H _]].
    apply Qltb_false in H. congruence. }
  apply Qltb_false in H1.
  destruct (Nat.eqb (length (Field.table h)) 1) eqn:H2.
  { apply Nat.eqb_eq in H2. split; auto. }
  apply Nat.eqb_neq in H2.
  rewrite Qltb_false. split.
  - intros H. auto.
  - intros [_ [_ [H | H]]]; [contradiction | exact H].
Qed.

(** C7, amended.  The cached record is treated as valid exactly when the
    query epoch lies within the closed interval from the cached start time
    to the cached stop time, both ends included, and, for the FEED lookup,
    the spectral window is the cached one or the cached one is the wildcard.
    For the FIELD lookup the record must have been read before, and the stop
    time is not looked at when the table has a single row.  A valid record
    is not read again. *)
Theorem cached_record_valid_on_closed_interval :
  (forall (h : Feed.t) (t : Q) (spw : Z),
     Feed.newBeamDetails h t spw = false <->
     (Feed.itsCachedStartTime h <= t)%Q /\ (t <= Feed.itsCachedStopTime h)%Q /\
     (spw = Feed.itsCachedSpWindow h \/ Feed.itsCachedSpWindow h = (-1)%Z)) /\
  (forall (h : Feed.t) (t : Q) (spw : Z),
     Feed.newBeamDetails h t spw = false -> Feed.fillCacheOnDemand h t spw = Ok h) /\
  (forall (h : Field.t) (t : Q),
     Field.newField h t = false <->
     Field.itsNeverAccessedFlag h = false /\ (Field.itsCachedStartTime h <= t)%Q /\
     (length (Field.table h) = 1 \/ (t <= Field.itsCachedStopTime h)%Q)) /\
  (forall (h : Field.t) (t : Q),
     Field.newField h t = false -> Field.fillCacheOnDemand h t = Ok h).
Proof.
  split; [exact Feed_newBeamDetails_false |].
  split.
  { intros h t spw H. unfold Feed.fillCacheOnDemand. rewrite H. reflexivity. }
  split; [exact Field_newField_false |].
  intros h t H. apply Field_newField_false in H. destruct H as [_ [H1 H2]].
  unfold Field.fillCacheOnDemand.
  assert (Hlt : Qltb t (Field.itsCachedStartTime h) = false)
    by (apply Qltb_false; exact H1).
  rewrite Hlt. cbn [bind]. rewrite Hlt. cbn [negb check bind].
  destruct H2 as [H2 | H2].
  - rewrite H2. reflexivity.
  - assert (Ha : Qleb (Field.itsCachedStartTime h) t = true) by (apply Qleb_true; exact H1).
    assert (Hb : Qleb t (Field.itsCachedStopTime h) = true) by (apply Qleb_true; exact H2).
    rewrite Ha, Hb. rewrite orb_true_r. reflexivity.
Qed.

Lemma to_Int_range (z : Z) : (- 2 ^ 31 <= to_Int z < 2 ^ 31)%Z.
Proof.
  unfold to_Int.
  pose proof (Z.mod_pos_bound (z + 2 ^ 31) (2 ^ 32) eq_refl) as H.
  change (2 ^ 32)%Z with 4294967296%Z in *.
  change (2 ^ 31)%Z with 2147483648%Z in *.
  lia.
Qed.

Lemma getCurrentReferenceDir_state (it it0 : TableConstDataIterator)
    (d : Field.MDirection) :
  getCurrentReferenceDir it = Ok (d, it0) -> exists f, it0 = set_itsField f it.
Proof.
  unfold getCurrentReferenceDir. destruct (itsUseFieldID it).
  - intros H. apply bind_Ok in H. destruct H as [u [_ H]].
    apply bind_Ok in H. destruct H as [x [_ H]].
    inversion H. eexists. reflexivity.
  - intros H. apply bind_Ok in H. destruct H as [u [_ H]].
    apply bind_Ok in H. destruct H as [x [_ H]].
    inversion H. eexists. reflexivity.
Qed.

Lemma velocityDirection_state (it it0 : TableConstDataIterator) (d : Field.MDirection) :
  velocityDirection it = Ok (d, it0) -> it0 = it \/ exists f, it0 = set_itsField f it.
Proof.
  unfold velocityDirection. destruct (itsFreqDirection (itsSelector it)).
  - intros H. inversion H. left. reflexivity.
  - intros H. right. eapply getCurrentReferenceDir_state. exact H.
Qed.

(** Once the range is cached, it is returned as it is. *)
Lemma getChannelRange_cached (backw : Q -> Field.MDirection -> Q -> Q)
    (it : TableConstDataIterator) :
  itsChannelsSelected it = true ->
  getChannelRange backw it
  = Ok ((itsNumberOfChannelsSelected it, itsStartChannelSelected it), it).
Proof. intros H. unfold getChannelRange. rewrite H. reflexivity. Qed.

(** C5, amended.  When the frequency selected, converted to the frame of the
    data and mapped to the nearest channel of a linear axis of more than one
    channel, falls outside the channels present, no error is raised: the
    range is one channel of the axis (the last one when the frequency lies
    beyond the end of the axis), the data are marked as flagged, and every
    flag cube filled for the chunk has all its flags set. *)
Theorem frequency_outside_axis_flags_data
    (backw : Q -> Field.MDirection -> Q -> Q)
    (it it0 : TableConstDataIterator) (velDir : Field.MDirection)
    (epoch : Q) (spw : Z) (dataFreqs : list Q) :
  itsChannelsSelected it = false ->
  frequenciesSelected (itsSelector it) = true ->
  (itsNFreq (itsSelector it) <= 1)%Z ->
  velocityDirection (set_itsFlagData true it) = Ok (velDir, it0) ->
  currentEpoch it0 = Ok epoch ->
  currentSpWindowID it0 = Ok spw ->
  getFrequencies (itsSpWindow it0) spw = Ok dataFreqs ->
  1 < length dataFreqs ->
  linearAxis dataFreqs = true ->
  let nearest :=
    nearestChannelOf (backw epoch velDir (itsFreqStart (itsSelector it))) dataFreqs in
  (nearest < 0 \/ Z.of_nat (length dataFreqs) <= nearest)%Z ->
  exists start it',
    getChannelRange backw it = Ok ((1, start), it') /\
    start < length dataFreqs /\
    ((Z.of_nat (length dataFreqs) <= nearest)%Z -> start = length dataFreqs - 1) /\
    itsFlagData it' = true /\
    (forall (flag c : Cube bool) (it'' : TableConstDataIterator),
       fillFlag backw flag it = Ok (c, it'') ->
       forall r ch p, at_ c r ch p = true).
Proof.
  intros Hsel Hfreq Hn Hdir Hepoch Hspw Hfreqs Hlen Hlin nearest Hout.
  assert (Hflag0 : itsFlagData it0 = true).
  { destruct (velocityDirection_state _ Hdir) as [-> | [f ->]]; reflexivity. }
  assert (Hrange :
    exists it',
      getChannelRange backw it
      = Ok ((1, if Z.geb (to_uInt nearest) (Z.of_nat (length dataFreqs))
                then length dataFreqs - 1 else 0), it') /\
      itsFlagData it' = true /\ itsChannelsSelected it' = true /\
      itsNumberOfChannelsSelected it' = 1 /\
      itsStartChannelSelected it'
      = (if Z.geb (to_uInt nearest) (Z.of_nat (length dataFreqs))
         then length dataFreqs - 1 else 0)).
  { unfold getChannelRange. rewrite Hsel. cbn [negb].
    cbn [itsSelector set_itsFlagData]. rewrite Hfreq.
    unfold frequencyRange. cbn [itsSelector set_itsFlagData].
    assert (Hle : Z.leb (itsNFreq (itsSelector it)) 1 = true) by (apply Z.leb_le; exact Hn).
    rewrite Hle. cbn [check bind]. rewrite Hdir. cbn [bind fst snd].
    rewrite Hepoch. cbn [bind]. rewrite Hspw. cbn [bind].
    cbn [itsSpWindow set_itsNumberOfChannelsSelected set_itsStartChannelSelected].
    rewrite Hfreqs. cbn [bind].
    assert (Hlt : Nat.ltb 1 (length dataFreqs) = true) by (apply Nat.ltb_lt; exact Hlen).
    rewrite Hlt, Hlin. cbn [check bind]. fold nearest.
    assert (Hin : Z.leb 0 nearest && Z.ltb (to_uInt nearest) (Z.of_nat (length dataFreqs))
                  = false).
    { destruct (Z.leb 0 nearest) eqn:H0; [| reflexivity]. cbn [andb].
      apply Z.leb_le in H0. apply Z.ltb_ge.
      destruct Hout as [Hout | Hout]; [lia |].
      rewrite to_uInt_small; [exact Hout |].
      pose proof (to_Int_range
                    (lrint ((backw epoch velDir (itsFreqStart (itsSelector it))
                             - nth 0 dataFreqs 0%Q)
                            / (nth 1 dataFreqs 0%Q - nth 0 dataFreqs 0%Q))%Q)) as Hr.
      fold (nearestChannelOf (backw epoch velDir (itsFreqStart (itsSelector it)))
              dataFreqs) in Hr.
      fold nearest in Hr.
      split; [exact H0 |]. apply Z.lt_trans with (2 ^ 31)%Z; [lia | reflexivity]. }
    rewrite Hin.
    destruct (Z.geb (to_uInt nearest) (Z.of_nat (length dataFreqs)));
      cbn [bind]; eexists; (split; [reflexivity |]); repeat split; exact Hflag0. }
  destruct Hrange as [it' [Hget [Hfl [Hcs [Hn1 Hs1]]]]].
  exists (if Z.geb (to_uInt nearest) (Z.of_nat (length dataFreqs))
          then length dataFreqs - 1 else 0), it'.
  split; [exact Hget |]. split.
  { destruct (Z.geb (to_uInt nearest) (Z.of_nat (length dataFreqs))); lia. }
  split.
  { intros Hbeyond.
    pose proof (to_Int_range
                  (lrint ((backw epoch velDir (itsFreqStart (itsSelector it))
                           - nth 0 dataFreqs 0%Q)
                          / (nth 1 dataFreqs 0%Q - nth 0 dataFreqs 0%Q))%Q)) as Hr.
    fold (nearestChannelOf (backw epoch velDir (itsFreqStart (itsSelector it)))
            dataFreqs) in Hr.
    fold nearest in Hr.
    rewrite to_uInt_small
      by (split; [lia | apply Z.lt_trans with (2 ^ 31)%Z; [lia | reflexivity]]).
    replace (Z.geb nearest (Z.of_nat (length dataFreqs))) with true; [reflexivity |].
    symmetry. rewrite Z.geb_leb. apply Z.leb_le. exact Hbeyond. }
  split; [exact Hfl |].
  intros flag c it'' Hfill r ch p.
  unfold fillFlag, fillCube, nChannel, startChannel in Hfill.
  rewrite Hget in Hfill. cbn [bind fst snd] in Hfill.
  rewrite (getChannelRange_cached backw _ Hcs) in Hfill. cbn [bind fst snd] in Hfill.
  apply bind_Ok in Hfill. destruct Hfill as [x [Hx Hfill]].
  apply bind_Ok in Hx. destruct Hx as [cube' [_ Hx]].
  inversion Hx; subst x. cbn [fst snd] in Hfill. rewrite Hfl in Hfill.
  inversion Hfill. reflexivity.
Qed.

(** The selection of the frequency 150 on the axis of 13 channels from 100. *)
Lemma frequency_outside_axis_witness :
  exists it',
    getChannelRange Sample.sameFrame
      (set_itsCurrentDataDescID 0%Z
         (Sample.beforeFirstChunk Sample.oneRow (Sample.frequency 150)))
    = Ok ((1, 12), it') /\ itsFlagData it' = true.
Proof.
  pose (it := set_itsCurrentDataDescID 0%Z
                (Sample.beforeFirstChunk Sample.oneRow (Sample.frequency 150))).
  pose (field1 := match Field.getReferenceDir (itsField it) 1%Q with
                  | Ok d => snd d
                  | Err _ => itsField it
                  end).
  destruct (@frequency_outside_axis_flags_data Sample.sameFrame it
              (set_itsField field1 (set_itsFlagData true it)) (0%Q, 0%Q) 1%Q 0%Z
              (nth 0 Sample.spWindow [])
              ltac:(reflexivity) ltac:(reflexivity) ltac:(simpl; lia)
              ltac:(reflexivity) ltac:(reflexivity) ltac:(reflexivity)
              ltac:(reflexivity) ltac:(simpl; lia) ltac:(reflexivity)
              ltac:(right; vm_compute; discriminate))
    as [start [it' [H1 [_ [Hlast [H2 _]]]]]].
  rewrite (Hlast ltac:(vm_compute; discriminate)) in H1.
  exists it'. split; [exact H1 | exact H2].
Defined.

(** The cached FEED record, valid from 10 till 20, is not read again for a
    query at 20. *)
Lemma cached_record_valid_witness :
  Feed.fillCacheOnDemand Sample.feedCached 20%Q 0%Z = Ok Sample.feedCached.
Proof.
  apply (proj1 (proj2 cached_record_valid_on_closed_interval)).
  vm_compute. reflexivity.
Defined.

(** ** Write-back of flags *)

Create HintDb errs.

Ltac crush_err :=
  repeat match goal with
  | H : Ok _ = Err _ |- _ => discriminate H
  | H : Err _ = Err _ |- _ => inversion H; subst; clear H
  | H : check _ _ = Err _ |- _ => apply check_Err in H; destruct H as [_ H]; subst
  | H : bind _ _ = Err _ |- _ =>
      apply bind_Err in H; destruct H as [H | [? [_ H]]]; cbv beta in H
  | H : (if ?c then _ else _) = Err _ |- _ => destruct c
  | H : match ?x with _ => _ end = Err _ |- _ => destruct x
  end;
  try (intros ?row; discriminate);
  eauto with errs.

Lemma cell_notConsistency (t : Table) (view : RefTable) (row : nat) (e : Error) :
  cell t view row = Err e -> notConsistency e.
Proof. intros H. apply cell_Err in H. subst. intros row'. discriminate. Qed.
#[local] Hint Resolve cell_notConsistency : errs.

Lemma Field_fill_notConsistency (h : Field.t) (e : Error) :
  Field.fillCacheWithCurrentIteration h = Err e -> notConsistency e.
Proof. unfold Field.fillCacheWithCurrentIteration. intros H. crush_err. Qed.
#[local] Hint Resolve Field_fill_notConsistency : errs.

Lemma Field_while_notConsistency (fuel : nat) (h : Field.t) (t : Q) (e : Error) :
  Field.fillCache_while fuel h t = Err e -> notConsistency e.
Proof.
  revert h. induction fuel as [| fuel IH]; intros h; simpl; intros H; crush_err.
Qed.
#[local] Hint Resolve Field_while_notConsistency : errs.

Lemma Field_onDemand_notConsistency (h : Field.t) (t : Q) (e : Error) :
  Field.fillCacheOnDemand h t = Err e -> notConsistency e.
Proof. unfold Field.fillCacheOnDemand. intros H. crush_err. Qed.
#[local] Hint Resolve Field_onDemand_notConsistency : errs.

Lemma Field_getReferenceDir_notConsistency (h : Field.t) (t : Q) (e : Error) :
  Field.getReferenceDir h t = Err e -> notConsistency e.
Proof. unfold Field.getReferenceDir. intros H. crush_err. Qed.
#[local] Hint Resolve Field_getReferenceDir_notConsistency : errs.

Lemma currentEpoch_notConsistency (it : TableConstDataIterator) (e : Error) :
  currentEpoch it = Err e -> notConsistency e.
Proof. unfold currentEpoch. intros H. crush_err. Qed.
#[local] Hint Resolve currentEpoch_notConsistency : errs.

Lemma currentSpWindowID_notConsistency (it : TableConstDataIterator) (e : Error) :
  currentSpWindowID it = Err e -> notConsistency e.
Proof.
  unfold currentSpWindowID, getSpectralWindowID. intros H. crush_err.
Qed.
#[local] Hint Resolve currentSpWindowID_notConsistency : errs.

Lemma velocityDirection_notConsistency (it : TableConstDataIterator) (e : Error) :
  velocityDirection it = Err e -> notConsistency e.
Proof.
  unfold velocityDirection, getCurrentReferenceDir, Field.getReferenceDirByID.
  intros H. crush_err.
Qed.
#[local] Hint Resolve velocityDirection_notConsistency : errs.

Lemma getChannelRange_notConsistency (backw : Q -> Field.MDirection -> Q -> Q)
    (it : TableConstDataIterator) (e : Error) :
  getChannelRange backw it = Err e -> notConsistency e.
Proof.
  unfold getChannelRange, frequencyRange, getFrequencies. intros H. crush_err.
Qed.
#[local] Hint Resolve getChannelRange_notConsistency : errs.

Lemma writeCube_row_notConsistency (T : Type) (col : Row -> Array T)
    (setcol : Array T -> Row -> Row) (cube : Cube T) (nChan startChan row : nat)
    (it : TableConstDataIterator) (e : Error) :
  writeCube_row col setcol cube nChan startChan row it = Err e -> notConsistency e.
Proof.
  unfold writeCube_row, updateRow, putSlice, put. intros H. crush_err.
Qed.
#[local] Hint Resolve writeCube_row_notConsistency : errs.

Lemma writeCube_loop_notConsistency (T : Type) (col : Row -> Array T)
    (setcol : Array T -> Row -> Row) (cube : Cube T) (nChan startChan : nat)
    (todo row : nat) (it : TableConstDataIterator) (e : Error) :
  writeCube_loop col setcol cube nChan startChan row todo it = Err e -> notConsistency e.
Proof.
  revert row it. induction todo as [| todo IH]; intros row it; simpl; intros H; crush_err.
Qed.
#[local] Hint Resolve writeCube_loop_notConsistency : errs.

Lemma writeCube_notConsistency (backw : Q -> Field.MDirection -> Q -> Q) (T : Type)
    (col : Row -> Array T) (setcol : Array T -> Row -> Row) (cube : Cube T)
    (it : TableConstDataIterator) (e : Error) :
  writeCube backw col setcol cube it = Err e -> notConsistency e.
Proof.
  unfold writeCube, nChannel, startChannel. intros H. crush_err.
Qed.

Lemma oneUnflagged_true (flags : Cube bool) (row : nat) :
  oneUnflagged flags row = true <->
  exists ch p, ch < ncolumn flags /\ p < nplane flags /\ at_ flags row ch p = false.
Proof.
  unfold oneUnflagged. rewrite existsb_exists. split.
  - intros [ch [Hch H]]. apply existsb_exists in H. destruct H as [p [Hp H]].
    apply in_seq in Hch. apply in_seq in Hp. apply negb_true_iff in H.
    exists ch, p. repeat split; [lia | lia | exact H].
  - intros [ch [p [Hch [Hp H]]]]. exists ch. split; [apply in_seq; lia |].
    apply existsb_exists. exists p. split; [apply in_seq; lia |].
    apply negb_true_iff. exact H.
Qed.

Lemma cell_readable (it : TableConstDataIterator) (row : nat) :
  viewValid it = true -> row < length (itsCurrentIteration it) ->
  exists r, cell (table_ it) (itsCurrentIteration it) row = Ok r.
Proof.
  intros Hv Hrow. unfold cell.
  destruct (nth_error (itsCurrentIteration it) row) as [n |] eqn:Hn.
  - unfold viewValid in Hv. rewrite forallb_forall in Hv.
    specialize (Hv n (nth_error_In _ _ Hn)). apply Nat.ltb_lt in Hv.
    destruct (nth_error (rows (table_ it)) n) as [r |] eqn:Hr; [eauto |].
    apply nth_error_None in Hr. lia.
  - apply nth_error_None in Hn. lia.
Qed.

(** The outcome of the check of the rows against FLAG_ROW. *)
Lemma checkRowFlags_spec (it : TableConstDataIterator) (flags : Cube bool)
    (todo row0 : nat) :
  viewValid it = true ->
  row0 + todo + itsCurrentTopRow it <= length (itsCurrentIteration it) ->
  row0 + todo <= nrow flags ->
  (checkRowFlags it flags row0 todo = Ok tt /\
   forall row, row0 <= row < row0 + todo -> ~ clearsRowFlaggedRow it flags row) \/
  (exists row, row0 <= row < row0 + todo /\ clearsRowFlaggedRow it flags row /\
               checkRowFlags it flags row0 todo = Err (ConsistencyError row)).
Proof.
  intros Hv. revert row0. induction todo as [| todo IH]; intros row0 Hlen Hn.
  - left. split; [reflexivity | intros row H; lia].
  - simpl.
    destruct (@cell_readable it (row0 + itsCurrentTopRow it) Hv ltac:(lia)) as [r Hr].
    rewrite Hr. cbn [bind].
    destruct (FLAG_ROW r) eqn:Hfr.
    + destruct (oneUnflagged flags row0) eqn:Hun.
      * right. exists row0. split; [lia |]. split; [| reflexivity].
        split; [lia |]. exists r. repeat split; auto.
        apply oneUnflagged_true. exact Hun.
      * cbn [negb check bind].
        destruct (IH (S row0) ltac:(lia) ltac:(lia)) as [[Hok Hno] | [row [Hr1 [Hbad Herr]]]].
        -- left. split; [exact Hok |]. intros row Hrow Hbad.
           destruct (Nat.eq_dec row row0) as [-> | Hne].
           ++ destruct Hbad as [_ [r' [Hr' [_ Hx]]]].
              apply oneUnflagged_true in Hx. congruence.
           ++ apply (Hno row); [lia | exact Hbad].
        -- right. exists row. split; [lia |]. split; [exact Hbad | exact Herr].
    + cbn [bind].
      destruct (IH (S row0) ltac:(lia) ltac:(lia)) as [[Hok Hno] | [row [Hr1 [Hbad Herr]]]].
      * left. split; [exact Hok |]. intros row Hrow Hbad.
        destruct (Nat.eq_dec row row0) as [-> | Hne].
        -- destruct Hbad as [_ [r' [Hr' [Hx _]]]]. congruence.
        -- apply (Hno row); [lia | exact Hbad].
      * right. exists row. split; [lia |]. split; [exact Hbad | exact Herr].
Qed.

Lemma length_list_set (A : Type) (n : nat) (v : A) (l : list A) :
  length (list_set n v l) = length l.
Proof.
  revert n. induction l as [| x l IH]; intros [| n]; simpl; auto.
Qed.

Lemma nth_error_list_set_eq (A : Type) (n : nat) (v : A) (l : list A) :
  n < length l -> nth_error (list_set n v l) n = Some v.
Proof.
  revert n. induction l as [| x l IH]; intros [| n]; simpl; intros H; try lia; auto.
  apply IH. lia.
Qed.

Lemma nth_error_list_set_neq (A : Type) (n m : nat) (v : A) (l : list A) :
  m <> n -> nth_error (list_set n v l) m = nth_error l m.
Proof.
  revert n m. induction l as [| x l IH]; intros [| n] [| m]; simpl; intros H; auto; try lia.
Qed.

Lemma flagShapeIs_spec (nPol nChan : nat) (it : TableConstDataIterator) :
  flagShapeIs nPol nChan it = true <->
  forall k, In k (itsCurrentIteration it) ->
            exists r, nth_error (rows (table_ it)) k = Some r /\
                      shape (FLAG r) = [nPol; nChan].
Proof.
  unfold flagShapeIs. rewrite forallb_forall. split.
  - intros H k Hk. specialize (H k Hk).
    destruct (nth_error (rows (table_ it)) k) as [r |]; [| discriminate].
    exists r. split; [reflexivity |].
    destruct (shape (FLAG r)) as [| a [| b [| c l]]]; try discriminate.
    apply andb_true_iff in H. destruct H as [Ha Hb].
    apply Nat.eqb_eq in Ha. apply Nat.eqb_eq in Hb. subst. reflexivity.
  - intros H k Hk. destruct (H k Hk) as [r [Hr Hs]]. rewrite Hr, Hs.
    rewrite !Nat.eqb_refl. reflexivity.
Qed.

Lemma writeCube_row_ok (cube : Cube bool) (nChan startChan nPol nch row : nat)
    (it : TableConstDataIterator) :
  flagShapeIs nPol nch it = true ->
  itsNumberOfPols it = nPol ->
  nplane cube = nPol ->
  nChan + startChan <= nch ->
  row < length (itsCurrentIteration it) ->
  itsCurrentTopRow it + row < length (itsCurrentIteration it) ->
  exists it',
    writeCube_row FLAG setFLAG cube nChan startChan row it = Ok it' /\
    flagShapeIs nPol nch it' = true /\
    itsCurrentIteration it' = itsCurrentIteration it /\
    itsCurrentTopRow it' = itsCurrentTopRow it /\
    itsNumberOfPols it' = itsNumberOfPols it.
Proof.
  intros Hshape Hpol Hplane Hfit Hrow Htab.
  pose proof (proj1 (flagShapeIs_spec nPol nch it) Hshape) as Hall.
  destruct (nth_error (itsCurrentIteration it) row) as [k |] eqn:Hk;
    [| apply nth_error_None in Hk; lia].
  destruct (Hall k (nth_error_In _ _ Hk)) as [rs [Hrs Hss]].
  destruct (nth_error (itsCurrentIteration it) (itsCurrentTopRow it + row)) as [n |] eqn:Hn;
    [| apply nth_error_None in Hn; lia].
  destruct (Hall n (nth_error_In _ _ Hn)) as [rd [Hrd Hsd]].
  unfold writeCube_row, cell. rewrite Hk, Hrs. cbn [bind]. rewrite Hss.
  cbn [nth length]. change (Nat.ltb 1 2) with true. cbv iota.
  rewrite Hplane, Nat.eqb_refl. cbn [check bind].
  assert (Hc : Nat.ltb nch (nChan + startChan) = false) by (apply Nat.ltb_ge; lia).
  rewrite Hc. cbn [negb check bind].
  unfold updateRow. rewrite Hn, Hrd.
  assert (Hn' : n < length (rows (table_ it))).
  { apply nth_error_Some. congruence. }
  destruct (negb (Nat.eqb startChan 0) || negb (Nat.eqb (startChan + nChan) nch)) eqn:Hus.
  - unfold putSlice. rewrite Hsd. cbn [nth length]. change (Nat.ltb 1 2) with true.
    cbv iota.
    rewrite Hpol, Nat.eqb_refl.
    assert (Hle : Nat.leb (startChan + nChan) nch = true) by (apply Nat.leb_le; lia).
    rewrite Hle. cbn [andb bind].
    eexists. split; [reflexivity |]. split; [| repeat split; exact Hpol].
    apply flagShapeIs_spec. cbn [itsCurrentIteration table_ set_table_ rows].
    intros j Hj. destruct (Nat.eq_dec j n) as [-> | Hne].
    + rewrite nth_error_list_set_eq by exact Hn'. eexists. split; [reflexivity |].
      cbn [FLAG setFLAG shape]. reflexivity.
    + rewrite nth_error_list_set_neq by exact Hne. apply Hall. exact Hj.
  - unfold put. cbn [bind].
    apply orb_false_iff in Hus. destruct Hus as [H0 H1].
    apply negb_false_iff in H0. apply negb_false_iff in H1.
    apply Nat.eqb_eq in H0. apply Nat.eqb_eq in H1.
    eexists. split; [reflexivity |]. split; [| repeat split; exact Hpol].
    apply flagShapeIs_spec. cbn [itsCurrentIteration table_ set_table_ rows].
    intros j Hj. destruct (Nat.eq_dec j n) as [-> | Hne].
    + rewrite nth_error_list_set_eq by exact Hn'. eexists. split; [reflexivity |].
      cbn [FLAG setFLAG shape]. rewrite Hpol. f_equal. f_equal. lia.
    + rewrite nth_error_list_set_neq by exact Hne. apply Hall. exact Hj.
Qed.

Lemma writeCube_loop_ok (cube : Cube bool) (nChan startChan nPol nch : nat) (todo row : nat)
    (it : TableConstDataIterator) :
  flagShapeIs nPol nch it = true ->
  itsNumberOfPols it = nPol ->
  nplane cube = nPol ->
  nChan + startChan <= nch ->
  itsCurrentTopRow it + row + todo <= length (itsCurrentIteration it) ->
  exists it', writeCube_loop FLAG setFLAG cube nChan startChan row todo it = Ok it'.
Proof.
  revert row it. induction todo as [| todo IH]; intros row it Hshape Hpol Hplane Hfit Hlen.
  - eexists. reflexivity.
  - simpl.
    destruct (@writeCube_row_ok cube nChan startChan nPol nch row it
                Hshape Hpol Hplane Hfit ltac:(lia) ltac:(lia))
      as [it' [Hok [Hshape' [Hview [Htop Hpol']]]]].
    rewrite Hok. cbn [bind].
    apply IH; auto; try congruence. rewrite Hview, Htop. lia.
Qed.

(** C8.  Writing back the flags raises the consistency error if and only if
    the dataset has the FLAG_ROW column and some row of the chunk flagged as
    a whole has a flag cleared in the new cube; otherwise the write-back is
    the write of the cube, which succeeds when the cube has the shape of the
    chunk and the stored cells hold the selected channels.  The rows of the
    cube are rows of the current group. *)
Theorem flag_write_back_consistency
    (backw : Q -> Field.MDirection -> Q -> Q) (flags : Cube bool)
    (it : TableConstDataIterator) :
  viewValid it = true ->
  nrow flags + itsCurrentTopRow it <= length (itsCurrentIteration it) ->
  let violated :=
    hasFLAG_ROW (table_ it) = true /\ exists row, clearsRowFlaggedRow it flags row in
  ((exists row, writeOriginalFlag backw flags it = Err (ConsistencyError row))
   <-> violated) /\
  (~ violated ->
   writeOriginalFlag backw flags it = writeCube backw FLAG setFLAG flags it) /\
  (~ violated ->
   forall nch : nat,
     itsChannelsSelected it = true ->
     nrow flags = itsNumberOfRows it ->
     ncolumn flags = itsNumberOfChannelsSelected it ->
     nplane flags = itsNumberOfPols it ->
     flagShapeIs (itsNumberOfPols it) nch it = true ->
     itsNumberOfChannelsSelected it + itsStartChannelSelected it <= nch ->
     exists it', writeOriginalFlag backw flags it = Ok it').
Proof.
  intros Hv Hlen violated.
  assert (Hcases :
    (writeOriginalFlag backw flags it = writeCube backw FLAG setFLAG flags it /\
     ~ violated) \/
    (violated /\ exists row, writeOriginalFlag backw flags it = Err (ConsistencyError row))).
  { assert (Hb : exists b, hasFLAG_ROW (table_ it) = b) by eauto.
    destruct Hb as [b Hcol]. unfold writeOriginalFlag. rewrite Hcol.
    destruct b.
    - destruct (@checkRowFlags_spec it flags (nrow flags) 0 Hv ltac:(lia) ltac:(lia))
        as [[Hok Hno] | [row [Hr [Hbad Herr]]]].
      + left. rewrite Hok. split; [reflexivity |].
        intros [_ [row Hbad]]. apply (Hno row); [| exact Hbad].
        destruct Hbad as [Hrow _]. lia.
      + right. split; [split; [exact Hcol | exists row; exact Hbad] |].
        exists row. rewrite Herr. reflexivity.
    - left. split; [reflexivity |]. intros [H _]. congruence. }
  split; [| split].
  - split.
    + intros [row Herr]. destruct Hcases as [[Heq _] | [Hviol _]]; [| exact Hviol].
      rewrite Heq in Herr. apply writeCube_notConsistency in Herr.
      exfalso. apply (Herr row). reflexivity.
    + intros Hviol. destruct Hcases as [[_ Hno] | [_ Herr]]; [contradiction | exact Herr].
  - intros Hno. destruct Hcases as [[Heq _] | [Hviol _]]; [exact Heq | contradiction].
  - intros Hno nch Hsel Hrows Hcols Hplanes Hshape Hfit.
    destruct Hcases as [[Heq _] | [Hviol _]]; [| contradiction].
    rewrite Heq. unfold writeCube, nChannel, startChannel.
    rewrite (getChannelRange_cached backw it Hsel). cbn [bind fst snd].
    rewrite (getChannelRange_cached backw it Hsel). cbn [bind fst snd].
    rewrite Hrows, Hcols, Hplanes, !Nat.eqb_refl. cbn [andb check bind].
    rewrite <- Hrows.
    apply (@writeCube_loop_ok flags _ _ (itsNumberOfPols it) nch (nrow flags) 0 it);
      auto. lia.
Qed.

(** Clearing the flags of the row that is not flagged as a whole, while the
    row flagged as a whole stays flagged, is written back. *)
Lemma flag_write_back_witness :
  exists it', writeOriginalFlag Sample.sameFrame Sample.newFlags Sample.flaggedChunk = Ok it'.
Proof.
  destruct (@flag_write_back_consistency Sample.sameFrame Sample.newFlags
              Sample.flaggedChunk ltac:(reflexivity) ltac:(simpl; lia))
    as [_ [_ Hok]].
  apply Hok with (nch := 2); try reflexivity; try (simpl; lia).
  intros [_ [row [Hrow [r [Hcell [Hfr [ch [p [_ [_ Hat]]]]]]]]]].
  destruct row as [| [| row]].
  - simpl in Hat. discriminate.
  - vm_compute in Hcell. inversion Hcell; subst r. simpl in Hfr. discriminate.
  - simpl in Hrow. lia.
Defined.

(** ** Parallactic angles by mount *)

Lemma nth_list_set (A : Type) (n m : nat) (v d : A) (l : list A) :
  nth m (list_set n v l) d = if Nat.eqb m n && Nat.ltb n (length l) then v else nth m l d.
Proof.
  revert n m. induction l as [| x l IH]; intros n m.
  - simpl. rewrite andb_false_r. destruct n; reflexivity.
  - destruct n as [| n], m as [| m]; simpl; try reflexivity.
    rewrite IH. reflexivity.
Qed.

(** An antenna of a mount the fill does not know stops the loop with the
    error naming the first such antenna and its mount. *)
Lemma fillAngles_loop_unknown (positionAngle : nat -> Q -> Field.MDirection -> Q)
    (a : Antenna) (epoch : Q) (dir : Field.MDirection) (todo ant : nat)
    (angles : list Q) :
  (exists k, ant <= k < ant + todo /\ recognisedMount (getMount a k) = false) ->
  exists k, ant <= k < ant + todo /\ recognisedMount (getMount a k) = false /\
            fillAngles_loop positionAngle a epoch dir ant todo angles
            = Err (UnknownMountError k (getMount a k)).
Proof.
  revert ant angles. induction todo as [| todo IH]; intros ant angles [k [Hk Hbad]].
  - lia.
  - assert (Hnext : k <> ant -> forall l,
      exists k', ant <= k' < ant + S todo /\ recognisedMount (getMount a k') = false /\
                 fillAngles_loop positionAngle a epoch dir (S ant) todo l
                 = Err (UnknownMountError k' (getMount a k'))).
    { intros Hne l. destruct (IH (S ant) l) as [k' [Hk' [Hb' He']]].
      - exists k. split; [lia | exact Hbad].
      - exists k'. split; [lia |]. split; [exact Hb' | exact He']. }
    simpl. unfold recognisedMount in Hbad.
    destruct (isMount (getMount a ant) "ALT-AZ" "alt-az") eqn:H1.
    { cbn [bind]. apply Hnext. intros Heq. rewrite Heq in Hbad.
      rewrite H1 in Hbad. discriminate. }
    destruct (isMount (getMount a ant) "FIXED" "fixed") eqn:H2.
    { cbn [bind]. apply Hnext. intros Heq. rewrite Heq in Hbad.
      rewrite H1, H2 in Hbad. discriminate. }
    destruct (isMount (getMount a ant) "X-Y" "x-y") eqn:H3.
    { cbn [bind]. apply Hnext. intros Heq. rewrite Heq in Hbad.
      rewrite H1, H2, H3 in Hbad. discriminate. }
    destruct (isMount (getMount a ant) "EQUATORIAL" "equatorial") eqn:H4.
    + unfold isMount in H4. apply orb_true_iff in H4.
      assert (Hc : negb (String.eqb (getMount a ant) "EQUATORIAL")
                   && negb (String.eqb (getMount a ant) "equatorial") = false)
        by (destruct H4 as [-> | ->]; [reflexivity | apply andb_false_r]).
      rewrite Hc. cbn [bind]. apply Hnext. intros Heq. rewrite Heq in Hbad.
      rewrite H1, H2, H3 in Hbad. unfold isMount in Hbad.
      destruct H4 as [H4 | H4]; rewrite H4 in Hbad;
        [discriminate | rewrite orb_true_r in Hbad; discriminate].
    + exists ant. split; [lia |]. unfold recognisedMount.
      rewrite H1, H2, H3, H4. split; [reflexivity |].
      unfold isMount in H4. apply orb_false_iff in H4. destruct H4 as [Ha Hb].
      rewrite Ha, Hb. reflexivity.
Qed.

(** With mounts it knows, the loop assigns the position angle to alt-az
    antennas and zero to fixed and x-y antennas, and leaves the entry of an
    equatorial antenna as it finds it. *)
Lemma fillAngles_loop_known (positionAngle : nat -> Q -> Field.MDirection -> Q)
    (a : Antenna) (epoch : Q) (dir : Field.MDirection) (todo ant : nat)
    (angles : list Q) :
  (forall k, ant <= k < ant + todo -> recognisedMount (getMount a k) = true) ->
  ant + todo <= length angles ->
  exists angles',
    fillAngles_loop positionAngle a epoch dir ant todo angles = Ok angles' /\
    length angles' = length angles /\
    forall k, nth k angles' 0%Q =
              if Nat.leb ant k && Nat.ltb k (ant + todo) then
                if isMount (getMount a k) "ALT-AZ" "alt-az" then positionAngle k epoch dir
                else if isMount (getMount a k) "FIXED" "fixed"
                        || isMount (getMount a k) "X-Y" "x-y" then 0%Q
                else nth k angles 0%Q
              else nth k angles 0%Q.
Proof.
  revert ant angles. induction todo as [| todo IH]; intros ant angles Hknown Hlen.
  - exists angles. split; [reflexivity |]. split; [reflexivity |]. intros k.
    replace (Nat.leb ant k && Nat.ltb k (ant + 0)) with false; [reflexivity |].
    symmetry. apply andb_false_iff.
    destruct (Nat.leb ant k) eqn:H; [right | left; reflexivity].
    apply Nat.leb_le in H. apply Nat.ltb_ge. lia.
  - simpl.
    pose proof (Hknown ant ltac:(lia)) as Hant. unfold recognisedMount in Hant.
    assert (Hstep : exists l,
      (if isMount (getMount a ant) "ALT-AZ" "alt-az"
       then Ok (list_set ant (positionAngle ant epoch dir) angles)
       else if isMount (getMount a ant) "FIXED" "fixed"
       then Ok (list_set ant 0%Q angles)
       else if isMount (getMount a ant) "X-Y" "x-y"
       then Ok (list_set ant 0%Q angles)
       else if negb (String.eqb (getMount a ant) "EQUATORIAL")
               && negb (String.eqb (getMount a ant) "equatorial")
       then Err (UnknownMountError ant (getMount a ant))
       else Ok angles) = Ok l /\
      length l = length angles /\
      forall k, nth k l 0%Q =
        if Nat.eqb k ant then
          if isMount (getMount a ant) "ALT-AZ" "alt-az" then positionAngle ant epoch dir
          else if isMount (getMount a ant) "FIXED" "fixed"
                  || isMount (getMount a ant) "X-Y" "x-y" then 0%Q
          else nth k angles 0%Q
        else nth k angles 0%Q).
    { assert (Hin : Nat.ltb ant (length angles) = true) by (apply Nat.ltb_lt; lia).
      destruct (isMount (getMount a ant) "ALT-AZ" "alt-az") eqn:H1;
      [| destruct (isMount (getMount a ant) "FIXED" "fixed") eqn:H2;
         [| destruct (isMount (getMount a ant) "X-Y" "x-y") eqn:H3]].
      1-3: eexists; split; [reflexivity |]; split; [apply length_list_set |];
           intros k; rewrite nth_list_set, Hin, andb_true_r; reflexivity.
      simpl in Hant. unfold isMount in Hant. apply orb_true_iff in Hant.
      assert (Hc : negb (String.eqb (getMount a ant) "EQUATORIAL")
                   && negb (String.eqb (getMount a ant) "equatorial") = false)
        by (destruct Hant as [-> | ->]; [reflexivity | apply andb_false_r]).
      rewrite Hc. exists angles. split; [reflexivity |]. split; [reflexivity |].
      intros k. destruct (Nat.eqb k ant); reflexivity. }
    destruct Hstep as [l [Hl [Hlenl Hnth]]]. rewrite Hl. cbn [bind].
    destruct (IH (S ant) l) as [angles' [Hok [Hlen' Hnth']]].
    { intros k Hk. apply Hknown. lia. }
    { lia. }
    exists angles'. split; [exact Hok |]. split; [congruence |].
    intros k. rewrite Hnth', Hnth.
    destruct (Nat.eqb k ant) eqn:Hka.
    + apply Nat.eqb_eq in Hka. subst k.
      replace (Nat.leb (S ant) ant) with false by (symmetry; apply Nat.leb_gt; lia).
      replace (Nat.leb ant ant) with true by (symmetry; apply Nat.leb_refl).
      replace (Nat.ltb ant (ant + S todo)) with true
        by (symmetry; apply Nat.ltb_lt; lia).
      reflexivity.
    + apply Nat.eqb_neq in Hka.
      destruct (Nat.leb (S ant) k) eqn:Ha.
      * apply Nat.leb_le in Ha.
        replace (Nat.leb ant k) with true by (symmetry; apply Nat.leb_le; lia).
        replace (ant + S todo) with (S ant + todo) by lia.
        destruct (Nat.ltb k (S ant + todo)); reflexivity.
      * apply Nat.leb_gt in Ha.
        replace (Nat.leb ant k) with false by (symmetry; apply Nat.leb_gt; lia).
        reflexivity.
Qed.

(** In the vector of the cache every entry of an antenna that is not
    alt-az is zero. *)
Lemma cacheVector_zero_off_altaz (a : Antenna) (v : list Q) :
  cacheVector a v ->
  forall k, isMount (getMount a k) "ALT-AZ" "alt-az" = false -> nth k v 0%Q = 0%Q.
Proof.
  intros H. induction H as [| v H IH | v H IH | v ant pAngle H IH Hm | v ant H IH];
    intros k Hk.
  - destruct k; reflexivity.
  - unfold resizeVector. destruct (Nat.eqb (length v) (getNumberOfAntennas a)).
    + apply IH. exact Hk.
    + apply nth_repeat.
  - apply nth_repeat.
  - rewrite nth_list_set.
    destruct (Nat.eqb k ant) eqn:E; cbn [andb]; [| apply IH; exact Hk].
    apply Nat.eqb_eq in E. subst k. congruence.
  - rewrite nth_list_set.
    destruct (Nat.eqb k ant && Nat.ltb ant (length v)); [reflexivity | apply IH; exact Hk].
Qed.

(** The loop writes to the vector of the cache as said. *)
Lemma fillAngles_loop_cacheVector (positionAngle : nat -> Q -> Field.MDirection -> Q)
    (a : Antenna) (epoch : Q) (dir : Field.MDirection) (todo : nat) :
  forall (ant : nat) (angles angles' : list Q),
    cacheVector a angles ->
    fillAngles_loop positionAngle a epoch dir ant todo angles = Ok angles' ->
    cacheVector a angles'.
Proof.
  induction todo as [| todo IH]; intros ant angles angles' Hv H.
  - cbn [fillAngles_loop] in H. injection H as <-. exact Hv.
  - cbn [fillAngles_loop] in H. apply bind_Ok in H. destruct H as [l [Hl H]].
    apply (IH (S ant) l angles'); [| exact H].
    destruct (isMount (getMount a ant) "ALT-AZ" "alt-az") eqn:H1.
    { injection Hl as <-. apply cacheVector_altaz; assumption. }
    destruct (isMount (getMount a ant) "FIXED" "fixed").
    { injection Hl as <-. apply cacheVector_zero; assumption. }
    destruct (isMount (getMount a ant) "X-Y" "x-y").
    { injection Hl as <-. apply cacheVector_zero; assumption. }
    destruct (negb (String.eqb (getMount a ant) "EQUATORIAL")
              && negb (String.eqb (getMount a ant) "equatorial")); [discriminate |].
    injection Hl as <-. exact Hv.
Qed.

Lemma recognised_all_or_not (a : Antenna) (n : nat) :
  (forall k, k < n -> recognisedMount (getMount a k) = true) \/
  (exists k, k < n /\ recognisedMount (getMount a k) = false).
Proof.
  induction n as [| n [IH | [k [Hk Hbad]]]].
  - left. intros k Hk. lia.
  - destruct (recognisedMount (getMount a n)) eqn:E.
    + left. intros k Hk. destruct (Nat.eq_dec k n) as [-> | Hne]; [exact E |].
      apply IH. lia.
    + right. exists n. split; [lia | exact E].
  - right. exists k. split; [lia | exact Hbad].
Qed.

Lemma resizeVector_length (v : list Q) (n : nat) : length (resizeVector v n) = n.
Proof.
  unfold resizeVector. destruct (Nat.eqb (length v) n) eqn:E.
  - apply Nat.eqb_eq. exact E.
  - apply repeat_length.
Qed.

(** C10.  On the vector of the parallactic angle cache and with antennas
    that are not all equatorial, a mount that the fill does not know raises
    the error naming an antenna of such a mount and the mount, and a fill
    that succeeds has met recognised mounts only and leaves exactly zero for
    every antenna that is not alt-az: the fixed, the x-y and the equatorial
    ones. *)
Theorem parallactic_angle_by_mount
    (positionAngle : nat -> Q -> Field.MDirection -> Q)
    (angles : list Q) (it : TableConstDataIterator) :
  cacheVector (itsAntenna it) angles ->
  allEquatorial (itsAntenna it) = false ->
  ((exists k, k < getNumberOfAntennas (itsAntenna it) /\
              recognisedMount (getMount (itsAntenna it) k) = false) ->
   forall epoch d, currentEpoch it = Ok epoch -> getCurrentReferenceDir it = Ok d ->
   exists k, k < getNumberOfAntennas (itsAntenna it) /\
             recognisedMount (getMount (itsAntenna it) k) = false /\
             fillParallacticAngleCache positionAngle angles it
             = Err (UnknownMountError k (getMount (itsAntenna it) k))) /\
  (forall angles' it',
     fillParallacticAngleCache positionAngle angles it = Ok (angles', it') ->
     cacheVector (itsAntenna it) angles' /\
     length angles' = getNumberOfAntennas (itsAntenna it) /\
     forall k, k < getNumberOfAntennas (itsAntenna it) ->
       recognisedMount (getMount (itsAntenna it) k) = true /\
       (isMount (getMount (itsAntenna it) k) "ALT-AZ" "alt-az" = false ->
        nth k angles' 0%Q = 0%Q)).
Proof.
  intros Hv Hne. unfold fillParallacticAngleCache. rewrite Hne.
  rewrite resizeVector_length.
  set (n := getNumberOfAntennas (itsAntenna it)).
  set (v0 := resizeVector angles n).
  assert (Hv0 : cacheVector (itsAntenna it) v0) by (apply cacheVector_resize; exact Hv).
  split.
  - intros [k [Hk Hbad]] epoch d Hepoch Hdir. rewrite Hepoch, Hdir. cbn [bind].
    destruct (@fillAngles_loop_unknown positionAngle (itsAntenna it) epoch (fst d) n 0 v0
                ltac:(exists k; split; [lia | exact Hbad]))
      as [k' [Hk' [Hbad' Herr]]].
    exists k'. split; [lia |]. split; [exact Hbad' |]. rewrite Herr. reflexivity.
  - intros angles' it' H.
    apply bind_Ok in H. destruct H as [epoch [_ H]].
    apply bind_Ok in H. destruct H as [d [_ H]].
    apply bind_Ok in H. destruct H as [l [Hloop H]]. injection H as <- <-.
    destruct (recognised_all_or_not (itsAntenna it) n) as [Hall | Hbad].
    + destruct (@fillAngles_loop_known positionAngle (itsAntenna it) epoch (fst d) n 0 v0
                  ltac:(intros k Hk; apply Hall; lia)
                  ltac:(unfold v0; rewrite resizeVector_length; lia))
        as [l' [Hok [Hlen _]]].
      rewrite Hok in Hloop. injection Hloop as ->.
      pose proof (@fillAngles_loop_cacheVector positionAngle (itsAntenna it) epoch
                    (fst d) n 0 v0 l Hv0 Hok) as Hl.
      split; [exact Hl |].
      split; [rewrite Hlen; unfold v0; apply resizeVector_length |].
      intros k Hk. split; [apply Hall; exact Hk |].
      apply cacheVector_zero_off_altaz. exact Hl.
    + destruct (@fillAngles_loop_unknown positionAngle (itsAntenna it) epoch (fst d) n 0 v0
                  ltac:(destruct Hbad as [k [Hk Hb]]; exists k; split; [lia | exact Hb]))
        as [k' [_ [_ Herr]]].
      rewrite Herr in Hloop. discriminate.
Qed.

(** An alt-az and an equatorial antenna, on the vector of a new cache. *)
Lemma parallactic_angle_witness :
  exists angles' it',
    fillParallacticAngleCache (fun _ _ _ => (1 # 3)%Q) []
      (Sample.orElse (Sample.iterator Sample.oneRow Sample.mixedArray Sample.everything)
                     (Sample.beforeFirstChunk Sample.oneRow Sample.everything))
    = Ok (angles', it') /\
    nth 0 angles' 0%Q = (1 # 3)%Q /\ nth 1 angles' 0%Q = 0%Q.
Proof.
  set (it := Sample.orElse
               (Sample.iterator Sample.oneRow Sample.mixedArray Sample.everything)
               (Sample.beforeFirstChunk Sample.oneRow Sample.everything)).
  destruct (fillParallacticAngleCache (fun _ _ _ => (1 # 3)%Q) [] it)
    as [[angles' it'] | e] eqn:H; [| vm_compute in H; discriminate].
  exists angles', it'. split; [reflexivity |]. split.
  - vm_compute in H. injection H as <- _. reflexivity.
  - destruct (proj2 (@parallactic_angle_by_mount (fun _ _ _ => (1 # 3)%Q) [] it
                       (cacheVector_new (itsAntenna it)) ltac:(reflexivity))
                    angles' it' H) as [_ [_ Hz]].
    apply (proj2 (Hz 1 ltac:(vm_compute; lia))). reflexivity.
Defined.

(** * Further properties *)

(** ** Generic facts on outcomes and comparisons *)

Lemma Qeqb_true (x y : Q) : Qeqb x y = true <-> (x == y)%Q.
Proof. unfold Qeqb. apply Qeq_bool_iff. Qed.

Lemma Qltb_true (x y : Q) : Qltb x y = true <-> (x < y)%Q.
Proof.
  unfold Qltb. rewrite negb_true_iff. split.
  - intros H. apply Qnot_le_lt. intros Hle. apply Qle_bool_iff in Hle. congruence.
  - intros H. destruct (Qle_bool y x) eqn:E; [| reflexivity].
    apply Qle_bool_iff in E. exfalso. apply (Qlt_not_le _ _ H E).
Qed.

(** ** Chunks formed from the table *)

Lemma formed_positioned (view : list nat) (it0 it1 : TableConstDataIterator) :
  positioned view [] it0 ->
  formed it0 it1 ->
  table_ it1 = table_ it0 /\ itsMaxChunkSize it1 = itsMaxChunkSize it0 /\
  exists prefix, positioned view prefix it1.
Proof.
  intros Hpos0 Hf. induction Hf as [| it it' b Hf IH Hnext Hend].
  - split; [reflexivity |]. split; [reflexivity |]. exists []. exact Hpos0.
  - destruct IH as [Ht [Hm [prefix Hpos]]].
    destruct Hpos as [Hend0 [Hcur [Hinv [Hmax Hview]]]].
    pose proof Hinv as [Hn1 [Hn2 [Hin [Hu Hfi]]]].
    destruct (next_cases it Hmax Hin Hnext) as [Hmx [Htab [_ [HA | [HB | HC]]]]].
    + destruct HA as [Hlt [Hti [Hcur' [Htop' Hinv']]]].
      split; [congruence |]. split; [congruence |].
      exists (prefix ++ chunkRows it)%list.
      split; [congruence |]. split; [congruence |]. split; [exact Hinv' |].
      split; [congruence |].
      rewrite Hcur', Htop', Hti, <- app_assoc. rewrite Hview.
      rewrite (chunkRows_split it Hin) at 1. rewrite <- app_assoc. reflexivity.
    + destruct HB as [Heq [Hti [Hend' [Hcur' [Htop' Hinv']]]]].
      assert (Hchunk : skipn (itsCurrentTopRow it) (itsCurrentIteration it) = chunkRows it).
      { rewrite (chunkRows_split it Hin). rewrite Heq, skipn_all, app_nil_r. reflexivity. }
      assert (Hpart := TableIterator_next_partition (timeKey (table_ it)) (itsTabIterator it)).
      rewrite <- Hti in Hpart.
      split; [congruence |]. split; [congruence |].
      exists (prefix ++ chunkRows it)%list.
      split; [exact Hend' |]. split; [exact Hcur' |]. split; [exact Hinv' |].
      split; [congruence |].
      rewrite Htop', Hcur'. cbn [skipn]. unfold TableIterator.table.
      rewrite <- Hpart, <- app_assoc, <- Hchunk. exact Hview.
    + destruct HC as [_ [_ [Hend' _]]]. congruence.
Qed.

Lemma chunkRows_in_view (view prefix : list nat) (it : TableConstDataIterator) :
  positioned view prefix it ->
  forall n, In n (chunkRows it) -> In n view.
Proof.
  intros [_ [_ [Hinv [_ Hview]]]] n Hn.
  destruct Hinv as [_ [_ [Hin _]]].
  rewrite Hview. apply in_or_app. right. apply in_or_app. left.
  rewrite (chunkRows_split it Hin). apply in_or_app. left. exact Hn.
Qed.

Lemma selection_rows (it : TableConstDataIterator) (n : nat) :
  In n (selection it) ->
  exists r, nth_error (rows (table_ it)) n = Some r /\
            forall e, getTableSelector (itsSelector it) = Some e -> e r = true.
Proof.
  unfold selection. destruct (getTableSelector (itsSelector it)) as [e |].
  - unfold select. intros H. apply filter_In in H. destruct H as [_ H].
    destruct (nth_error (rows (table_ it)) n) as [r |]; [| discriminate].
    exists r. split; [reflexivity |]. intros e' He'. injection He' as <-. exact H.
  - unfold allRows. intros H. apply in_seq in H.
    destruct (nth_error (rows (table_ it)) n) as [r |] eqn:Hr.
    + exists r. split; [reflexivity |]. discriminate.
    + apply nth_error_None in Hr. lia.
Qed.

Lemma init_keeps_table (it it0 : TableConstDataIterator) :
  itsAtStart it = false ->
  (1 <= itsMaxChunkSize it)%Z ->
  init it = Ok it0 ->
  selection it <> [] ->
  table_ it0 = table_ it /\ itsMaxChunkSize it0 = itsMaxChunkSize it.
Proof.
  intros Hstart Hmax. unfold init. rewrite Hstart.
  cbv beta zeta iota delta [negb]. intros H Hsel.
  apply bind_Ok in H. destruct H as [it2 [H2 H]]. inversion H; subst it0. clear H.
  set (it1 := set_itsFlagData false _) in H2.
  assert (Hti : itsTabIterator it1
                = TableIterator.make (timeKey (table_ it)) (selection it))
    by reflexivity.
  destruct (selection it) as [| r l] eqn:Hs; [congruence |].
  assert (Hend : TableIterator.pastEnd (itsTabIterator it1) = false).
  { rewrite Hti. unfold TableIterator.make, TableIterator.next.
    cbn [TableIterator.unread].
    destruct (TableIterator.span_key (timeKey (table_ it)) (timeKey (table_ it) r) l).
    reflexivity. }
  apply setUpIteration_invariant in H2; [| exact Hmax | exact Hend | reflexivity].
  destruct H2 as [_ [_ [_ [_ [Hmx Ht]]]]].
  cbn [table_ itsMaxChunkSize set_itsAtStart]. split; [exact Ht | exact Hmx].
Qed.

(** The rows that one step of the table iterator puts in a group have the
    key of the first of them. *)
Lemma span_key_group (R : Type) (key : R -> Q) (k : Q) (l g rest : list R) :
  TableIterator.span_key key k l = (g, rest) ->
  forall x, In x g -> (key x == k)%Q.
Proof.
  revert g rest. induction l as [| r l IH]; intros g rest; cbn [TableIterator.span_key].
  - intros H. injection H as <- <-. intros x [].
  - destruct (Qeqb (key r) k) eqn:E.
    + destruct (TableIterator.span_key key k l) as [g' rest'] eqn:Hs.
      intros H. injection H as <- <-. intros x [<- | Hx].
      * apply Qeqb_true. exact E.
      * apply (IH g' rest' eq_refl x Hx).
    + intros H. injection H as <- <-. intros x [].
Qed.

Lemma TableIterator_next_group (R : Type) (key : R -> Q) (it : TableIterator.t R) :
  forall x y,
    In x (TableIterator.subTable_p (TableIterator.next key it)) ->
    In y (TableIterator.subTable_p (TableIterator.next key it)) ->
    (key x == key y)%Q.
Proof.
  unfold TableIterator.next. destruct (TableIterator.unread it) as [| r l].
  - intros x y [].
  - destruct (TableIterator.span_key key (key r) l) as [g rest] eqn:Hs.
    cbn [TableIterator.subTable_p].
    assert (H : forall x, In x (r :: g) -> (key x == key r)%Q).
    { intros x [<- | Hx]; [reflexivity | apply (span_key_group _ _ _ Hs x Hx)]. }
    intros x y Hx Hy. rewrite (H x Hx), (H y Hy). reflexivity.
Qed.

(** The first group and every later group of the states formed. *)
Lemma formed_group_one_time (view : list nat) (it0 it1 : TableConstDataIterator) :
  positioned view [] it0 ->
  oneTime (table_ it0) (TableIterator.subTable_p (itsTabIterator it0)) ->
  formed it0 it1 ->
  oneTime (table_ it0) (TableIterator.subTable_p (itsTabIterator it1)).
Proof.
  intros Hpos0 H0 Hf. induction Hf as [| it it' b Hf IH Hnext Hend]; [exact H0 |].
  destruct (formed_positioned Hpos0 Hf) as [Ht [_ [prefix Hpos]]].
  destruct Hpos as [_ [_ [Hinv [Hmax _]]]].
  destruct Hinv as [_ [_ [Hin _]]].
  destruct (next_cases it Hmax Hin Hnext) as [_ [_ [_ [HA | [HB | HC]]]]].
  - destruct HA as [_ [Hti _]]. rewrite Hti. exact IH.
  - destruct HB as [_ [Hti _]]. rewrite Hti, Ht.
    intros n m. apply TableIterator_next_group.
  - destruct HC as [_ [_ [Hend' _]]]. congruence.
Qed.

Lemma init_group_one_time (it it0 : TableConstDataIterator) :
  itsAtStart it = false ->
  (1 <= itsMaxChunkSize it)%Z ->
  init it = Ok it0 ->
  selection it <> [] ->
  oneTime (table_ it) (TableIterator.subTable_p (itsTabIterator it0)).
Proof.
  intros Hstart Hmax. unfold init. rewrite Hstart.
  cbv beta zeta iota delta [negb]. intros H Hsel.
  apply bind_Ok in H. destruct H as [it2 [H2 H]]. inversion H; subst it0. clear H.
  set (it1 := set_itsFlagData false _) in H2.
  assert (Hti : itsTabIterator it1
                = TableIterator.make (timeKey (table_ it)) (selection it))
    by reflexivity.
  destruct (selection it) as [| r l] eqn:Hs; [congruence |].
  assert (Hend : TableIterator.pastEnd (itsTabIterator it1) = false).
  { rewrite Hti. unfold TableIterator.make, TableIterator.next.
    cbn [TableIterator.unread].
    destruct (TableIterator.span_key (timeKey (table_ it)) (timeKey (table_ it) r) l).
    reflexivity. }
  apply setUpIteration_invariant in H2; [| exact Hmax | exact Hend | reflexivity].
  destruct H2 as [_ [Hti2 _]].
  cbn [itsTabIterator set_itsAtStart]. rewrite Hti2, Hti.
  intros n m. unfold TableIterator.make. apply TableIterator_next_group.
Qed.

Lemma chunkRows_in_group (it : TableConstDataIterator) (n : nat) :
  In n (chunkRows it) -> In n (itsCurrentIteration it).
Proof.
  unfold chunkRows. intros H.
  rewrite <- (firstn_skipn (itsCurrentTopRow it) (itsCurrentIteration it)).
  apply in_or_app. right.
  rewrite <- (firstn_skipn (itsNumberOfRows it)
                (skipn (itsCurrentTopRow it) (itsCurrentIteration it))).
  apply in_or_app. left. exact H.
Qed.

(** X1: every chunk that the loop of a freshly constructed iterator forms from
    the table has at least one row and no more than the configured maximum,
    lies within one group of the table iterator, whose rows have one time
    stamp, is uniform in its data descriptor and, when FIELD_ID is in use,
    in its field, and consists of rows of the table that pass the table
    expression of the selector. *)
Theorem formed_chunk_within_selection (it it0 it1 : TableConstDataIterator) :
  itsAtStart it = false ->
  (1 <= itsMaxChunkSize it)%Z ->
  init it = Ok it0 ->
  selection it <> [] ->
  formed it0 it1 ->
  chunkInvariant it1 /\
  itsMaxChunkSize it1 = itsMaxChunkSize it /\
  table_ it1 = table_ it /\
  (forall n, In n (chunkRows it1) ->
             exists r, nth_error (rows (table_ it)) n = Some r /\
                       forall e, getTableSelector (itsSelector it) = Some e -> e r = true) /\
  (forall n m r r',
     In n (chunkRows it1) -> In m (chunkRows it1) ->
     nth_error (rows (table_ it)) n = Some r ->
     nth_error (rows (table_ it)) m = Some r' ->
     (TIME r == TIME r')%Q).
Proof.
  intros Hstart Hmax Hinit Hsel Hf.
  destruct (init_positioned it Hstart Hmax Hinit) as [[Hnil _] | Hpos]; [congruence |].
  destruct (formed_positioned Hpos Hf) as [Ht [Hm [prefix Hpos1]]].
  destruct (init_keeps_table it Hstart Hmax Hinit Hsel) as [Ht0 Hm0].
  split; [apply Hpos1 |]. split; [congruence |]. split; [congruence |]. split.
  - intros n Hn. apply selection_rows. eapply chunkRows_in_view; eassumption.
  - intros n m r r' Hn Hm' Hr Hr'.
    pose proof (init_group_one_time it Hstart Hmax Hinit Hsel) as H0.
    rewrite <- Ht0 in H0.
    pose proof (formed_group_one_time Hpos H0 Hf) as H1.
    destruct Hpos1 as [_ [Hcur _]]. unfold TableIterator.table in Hcur.
    apply chunkRows_in_group in Hn. apply chunkRows_in_group in Hm'.
    rewrite Hcur in Hn, Hm'.
    specialize (H1 n m Hn Hm'). rewrite Ht0 in H1. unfold timeKey in H1.
    rewrite Hr, Hr' in H1. exact H1.
Qed.

(** X2: the walk of a freshly constructed iterator through the table ends, and
    the chunks presented until the table iterator passes its end are the
    selected rows, each once and in table order. *)
Theorem chunks_until_end_cover_selection (it it0 : TableConstDataIterator) :
  itsAtStart it = false ->
  (1 <= itsMaxChunkSize it)%Z ->
  init it = Ok it0 ->
  exists fuel r,
    deliveredToEnd fuel it0 = Some r /\
    forall chunks itEnd,
      r = Ok (chunks, itEnd) ->
      concat chunks = selection it /\
      TableIterator.pastEnd (itsTabIterator itEnd) = true.
Proof.
  intros Hstart Hmax Hinit.
  destruct (init_positioned it Hstart Hmax Hinit) as [[Hsel [Hend _]] | Hpos].
  - exists 1. eexists. cbn [deliveredToEnd]. rewrite Hend. split; [reflexivity |].
    intros chunks itEnd H. injection H as <- <-. split; [symmetry; exact Hsel | exact Hend].
  - pose (fuel := S (length (skipn (itsCurrentTopRow it0) (itsCurrentIteration it0))
                     + length (TableIterator.unread (itsTabIterator it0)))).
    destruct (@deliveredToEnd_covers fuel it0 (selection it) [] Hpos ltac:(unfold fuel; lia))
      as [r [Hr Hres]].
    exists fuel, r. split; [exact Hr |].
    intros chunks itEnd H. destruct (Hres chunks itEnd H) as [Hv He].
    split; [symmetry; exact Hv | apply He].
Qed.


Lemma formed_chunk_witness :
  chunkRows Sample.secondTime = [1; 2] /\
  chunkInvariant Sample.secondTime /\
  forall n m r r',
    In n (chunkRows Sample.secondTime) -> In m (chunkRows Sample.secondTime) ->
    nth_error Sample.twoTimes n = Some r -> nth_error Sample.twoTimes m = Some r' ->
    (TIME r == TIME r')%Q.
Proof.
  assert (Hf : formed Sample.firstTime Sample.secondTime).
  { apply (@formed_next Sample.firstTime Sample.firstTime Sample.secondTime true (formed_first Sample.firstTime)).
    - vm_compute. reflexivity.
    - vm_compute. reflexivity. }
  destruct (@formed_chunk_within_selection Sample.freshTwoTimes Sample.firstTime Sample.secondTime
              ltac:(reflexivity) ltac:(vm_compute; discriminate)
              ltac:(vm_compute; reflexivity)
              ltac:(vm_compute; discriminate) Hf)
    as [Hinv [_ [_ [_ Htime]]]].
  split; [vm_compute; reflexivity |]. split; [exact Hinv | exact Htime].
Defined.

Lemma chunks_cover_witness :
  exists fuel r,
    deliveredToEnd fuel Sample.firstChunk = Some r /\
    forall chunks itEnd,
      r = Ok (chunks, itEnd) ->
      concat chunks = selection Sample.fresh /\
      TableIterator.pastEnd (itsTabIterator itEnd) = true.
Proof.
  apply (@chunks_until_end_cover_selection Sample.fresh Sample.firstChunk).
  - reflexivity.
  - vm_compute. discriminate.
  - vm_compute. reflexivity.
Defined.

(** ** Identifiers of the rows of a chunk *)

Lemma getColumnRange_within (X : Type) (col : list X) (view : RefTable) (d : X) (n : nat) :
  forall start,
    (forall k, In k view -> k < length col) ->
    start + n <= length view ->
    getColumnRange col view start n
    = Ok (map (fun k => nth k col d) (firstn n (skipn start view))).
Proof.
  induction n as [| n IH]; intros start Hcol Hlen; [reflexivity |].
  cbn [getColumnRange].
  destruct (nth_error view start) as [k |] eqn:Hk.
  2:{ apply nth_error_None in Hk. lia. }
  assert (Hin : In k view) by (eapply nth_error_In; exact Hk).
  unfold getCell. rewrite Hk.
  destruct (nth_error col k) as [x |] eqn:Hx.
  2:{ apply nth_error_None in Hx. specialize (Hcol k Hin). lia. }
  cbn [bind]. rewrite (IH (S start) Hcol ltac:(lia)). cbn [bind].
  assert (Hs : skipn start view = k :: skipn (S start) view).
  { clear - Hk. revert view Hk. induction start as [| s IHs]; intros view Hk.
    - destruct view; [discriminate |]. injection Hk as ->. reflexivity.
    - destruct view as [| a view]; [discriminate |]. simpl in Hk.
      change (skipn (S s) (a :: view)) with (skipn s view).
      rewrite (IHs view Hk). reflexivity. }
  rewrite Hs. cbn [firstn map]. rewrite (nth_error_nth _ _ d Hx). reflexivity.
Qed.

Lemma getColumnRange_beyond (X : Type) (col : list X) (view : RefTable) (n : nat) :
  forall start,
    n <> 0 -> length view < start + n ->
    getColumnRange col view start n = Err TableError.
Proof.
  induction n as [| n IH]; intros start Hn Hlen; [congruence |].
  cbn [getColumnRange]. unfold getCell.
  destruct (nth_error view start) as [k |] eqn:Hk; [| reflexivity].
  destruct (nth_error col k) as [x |]; [| reflexivity].
  cbn [bind]. rewrite IH; [reflexivity | | lia].
  intros ->. assert (start < length view) by (apply nth_error_Some; congruence). lia.
Qed.

Lemma fillVectorOfIDs_within (col : list Z) (it : TableConstDataIterator) :
  (forall k, In k (itsCurrentIteration it) -> k < length col) ->
  itsCurrentTopRow it + itsNumberOfRows it <= length (itsCurrentIteration it) ->
  fillVectorOfIDs col it
  = Ok (map (fun k => to_uInt (nth k col 0%Z)) (chunkRows it)).
Proof.
  intros Hcol Hlen. unfold fillVectorOfIDs, chunkRows.
  rewrite getColumnRange_within with (d := 0%Z) by assumption.
  cbn [bind]. rewrite map_map. reflexivity.
Qed.

(** X3: the identifiers filled for a chunk are those of its rows, in order,
    converted to unsigned numbers; a chunk that leaves its group is refused
    by the table access. *)
Theorem fillVectorOfIDs_reads_rows_of_chunk
    (col : list Z) (it : TableConstDataIterator) :
  (forall k, In k (itsCurrentIteration it) -> k < length col) ->
  (itsCurrentTopRow it + itsNumberOfRows it <= length (itsCurrentIteration it) ->
   fillVectorOfIDs col it
   = Ok (map (fun k => to_uInt (nth k col 0%Z)) (chunkRows it))) /\
  (itsNumberOfRows it <> 0 ->
   length (itsCurrentIteration it) < itsCurrentTopRow it + itsNumberOfRows it ->
   fillVectorOfIDs col it = Err TableError).
Proof.
  intros Hcol. split.
  - intros Hlen. apply fillVectorOfIDs_within; assumption.
  - intros Hn Hlen. unfold fillVectorOfIDs.
    rewrite getColumnRange_beyond by assumption. reflexivity.
Qed.

Lemma scanIDsAgree_spec (scanID : Z) (ids : list Z) :
  (scanIDsAgree scanID ids = Return tt <-> forall id, In id ids -> id = scanID) /\
  (scanIDsAgree scanID ids <> Return tt ->
   scanIDsAgree scanID ids = Throw (CheckError "Scan ID seem to differ for row=")).
Proof.
  induction ids as [| id ids [IH1 IH2]]; cbn [scanIDsAgree].
  - split; [split; [intros _ id [] | reflexivity] | congruence].
  - unfold ASKAPCHECK. destruct (Z.eqb scanID id) eqn:E; cbn [andThen].
    + apply Z.eqb_eq in E. subst id. split; [| exact IH2].
      rewrite IH1. split.
      * intros H id [<- | Hin]; [reflexivity | apply H; exact Hin].
      * intros H id Hin. apply H. right. exact Hin.
    + apply Z.eqb_neq in E. split; [| reflexivity].
      split; [discriminate |]. intros H. exfalso. apply E. symmetry. apply H. left. reflexivity.
Qed.

(** X4: the scan number of a chunk is delivered exactly when the chunk has a
    row and all its rows have that scan number; an empty chunk and a chunk
    of several scans are refused. *)
Theorem currentScanID_common_to_chunk
    (SCAN_NUMBER : list Z) (it : TableConstDataIterator) (scanID : Z) :
  (forall k, In k (itsCurrentIteration it) -> k < length SCAN_NUMBER) ->
  itsCurrentTopRow it + itsNumberOfRows it <= length (itsCurrentIteration it) ->
  (currentScanID SCAN_NUMBER it = Return scanID <->
   itsNumberOfRows it <> 0 /\
   forall k, In k (chunkRows it) -> to_uInt (nth k SCAN_NUMBER 0%Z) = scanID) /\
  (itsNumberOfRows it = 0 ->
   currentScanID SCAN_NUMBER it
   = Throw (CheckError "An attempt to extract scan ID for empty iteration")) /\
  (forall j k, In j (chunkRows it) -> In k (chunkRows it) ->
               to_uInt (nth j SCAN_NUMBER 0%Z) <> to_uInt (nth k SCAN_NUMBER 0%Z) ->
               currentScanID SCAN_NUMBER it
               = Throw (CheckError "Scan ID seem to differ for row=")).
Proof.
  intros Hcol Hlen. unfold currentScanID.
  rewrite (fillVectorOfIDs_within SCAN_NUMBER it Hcol Hlen).
  cbn [call andThen].
  set (ids := map (fun k => to_uInt (nth k SCAN_NUMBER 0%Z)) (chunkRows it)).
  assert (Hn : length ids = itsNumberOfRows it).
  { unfold ids, chunkRows. rewrite length_map, length_firstn, length_skipn. lia. }
  assert (Hall : forall v, (forall id, In id ids -> id = v) <->
                           (forall k, In k (chunkRows it) ->
                                      to_uInt (nth k SCAN_NUMBER 0%Z) = v)).
  { intros v. unfold ids. split.
    - intros H k Hk. apply H. apply in_map_iff. exists k. split; [reflexivity | exact Hk].
    - intros H id Hid. apply in_map_iff in Hid. destruct Hid as [k [<- Hk]]. apply H. exact Hk. }
  destruct ids as [| id0 rest] eqn:Hids.
  - cbn [length] in Hn. cbn [length Nat.ltb Nat.leb]. unfold ASKAPCHECK at 1. cbn [andThen].
    split; [| split].
    + split; [discriminate | intros [H _]; congruence].
    + reflexivity.
    + intros j k Hj _ _. exfalso. unfold chunkRows in Hj. rewrite <- Hn in Hj.
      destruct Hj.
  - cbn [length] in Hn.
    change (Nat.ltb 0 (length (id0 :: rest))) with true.
    unfold ASKAPCHECK at 1. cbn [andThen nth tl].
    destruct (scanIDsAgree_spec id0 rest) as [Ha Hd].
    split; [| split].
    + split.
      * intros H. destruct (scanIDsAgree id0 rest) as [[] | e] eqn:Hs; [| discriminate].
        cbn [andThen] in H. injection H as <-. split; [lia |].
        apply (proj1 (Hall id0)). intros id [<- | Hin]; [reflexivity |].
        apply (proj1 Ha); [reflexivity | exact Hin].
      * intros [_ H0]. pose proof (proj2 (Hall scanID) H0) as H.
        assert (Hid : id0 = scanID) by (apply (H id0); left; reflexivity).
        subst scanID.
        assert (Hs : scanIDsAgree id0 rest = Return tt).
        { apply (proj2 Ha). intros id Hin. apply H. right. exact Hin. }
        rewrite Hs. reflexivity.
    + intros H. lia.
    + intros j k Hj Hk Hne.
      assert (Hs : scanIDsAgree id0 rest <> Return tt).
      { intros Hs. apply Hne.
        assert (H : forall id, In id (id0 :: rest) -> id = id0).
        { intros id [<- | Hin]; [reflexivity |]. apply (proj1 Ha); assumption. }
        pose proof (proj1 (Hall id0) H) as H'.
        rewrite (H' j Hj), (H' k Hk). reflexivity. }
      rewrite (Hd Hs). reflexivity.
Qed.


Lemma fillVectorOfIDs_witness :
  fillAntenna2 Sample.firstChunk = Ok [1%Z].
Proof.
  apply (proj1 (@fillVectorOfIDs_reads_rows_of_chunk
                  (column ANTENNA2 (table_ Sample.firstChunk)) Sample.firstChunk
                  ltac:(intros k Hk; vm_compute in Hk; vm_compute; lia))).
  vm_compute. lia.
Defined.

Lemma currentScanID_witness :
  currentScanID [7; 7; 7]%Z Sample.firstChunk = Return 7%Z.
Proof.
  apply (proj1 (@currentScanID_common_to_chunk [7; 7; 7]%Z Sample.firstChunk 7%Z
                  ltac:(intros k Hk; vm_compute in Hk; vm_compute; lia)
                  ltac:(vm_compute; lia))).
  split; [vm_compute; discriminate |].
  intros k Hk. vm_compute in Hk. destruct Hk as [<- | []]. reflexivity.
Defined.

(** ** Selection by scalar fields *)

Section SelectorFacts.
Import TableScalarFieldSelector.

Variable R : Type.
Variable col : string -> R -> Z.
Variable UVW : R -> Array Q.
Variable sqrt : Q -> Q.
Variable getDescIDsForSpWinID : Z -> list nat.

Local Abbreviation choose := (choose col UVW sqrt getDescIDsForSpWinID).
Local Abbreviation chooseAll := (chooseAll col UVW sqrt getDescIDsForSpWinID).
Local Abbreviation criterion := (criterion col UVW sqrt getDescIDsForSpWinID).

Lemma choose_not_null c e : exists f, choose c e = Some f.
Proof.
  destruct c, e; simpl; try (eexists; reflexivity);
  unfold chooseSpectralWindow; destruct (getDescIDsForSpWinID _); eexists; reflexivity.
Qed.

Lemma choose_Some c e r :
  accepts (choose c (Some e)) r = e r && criterion c r.
Proof.
  unfold criterion.
  destruct c; simpl; try (rewrite <- ?andb_assoc; reflexivity).
  unfold chooseSpectralWindow. destruct (getDescIDsForSpWinID _); simpl;
    rewrite ?andb_false_r; reflexivity.
Qed.

Lemma choose_None c r :
  isMaxUVDistance c = false ->
  accepts (choose c None) r = criterion c r.
Proof.
  unfold criterion.
  destruct c; simpl; try reflexivity; try discriminate.
  all: intros _; unfold chooseSpectralWindow;
    destruct (getDescIDsForSpWinID _); reflexivity.
Qed.

(** X5: two choices made on a selection can be made in either order: the
    same rows pass.  On a selector on which nothing has been chosen yet this
    holds for all choices but the one of a maximum uv distance. *)
Theorem choices_commute (c1 c2 : Choice) (e : TableExprNode R) (r : R) :
  e <> None \/ (isMaxUVDistance c1 = false /\ isMaxUVDistance c2 = false) ->
  accepts (choose c1 (choose c2 e)) r = accepts (choose c2 (choose c1 e)) r.
Proof.
  intros H.
  destruct (choose_not_null c2 e) as [f2 H2].
  destruct (choose_not_null c1 e) as [f1 H1].
  rewrite H2, H1, !choose_Some.
  assert (Hf2 : f2 r = accepts (choose c2 e) r) by (rewrite H2; reflexivity).
  assert (Hf1 : f1 r = accepts (choose c1 e) r) by (rewrite H1; reflexivity).
  rewrite Hf1, Hf2.
  destruct e as [e |].
  - rewrite !choose_Some. rewrite <- !andb_assoc. f_equal. apply andb_comm.
  - destruct H as [H | [Ha Hb]]; [congruence |].
    rewrite !choose_None by assumption. apply andb_comm.
Qed.


Lemma choose_narrows c e r :
  accepts (choose c e) r = true -> accepts e r = true.
Proof.
  destruct e as [e |]; [| reflexivity].
  rewrite choose_Some. intros H. apply andb_true_iff in H. apply H.
Qed.

Lemma chooseAll_narrows cs : forall e r,
  accepts (chooseAll cs e) r = true -> accepts e r = true.
Proof.
  induction cs as [| c cs IH]; intros e r H; [exact H |].
  apply (choose_narrows c). apply IH. exact H.
Qed.

(** X6: every row is either an auto-correlation or a cross-correlation,
    never both: of the two choices made on a fresh selector exactly one lets
    a row pass, and once both are made no row passes, whatever else was or
    will be chosen. *)
Theorem auto_and_cross_correlations_partition (r : R) :
  accepts (chooseAutoCorrelations col None) r
  = negb (accepts (chooseCrossCorrelations col None) r)
  /\ (forall e cs,
        accepts (chooseAll cs (chooseCrossCorrelations col
                                 (chooseAutoCorrelations col e))) r = false)
  /\ (forall e cs,
        accepts (chooseAll cs (chooseAutoCorrelations col
                                 (chooseCrossCorrelations col e))) r = false).
Proof.
  split; [| split].
  - simpl. destruct (Z.eqb (col "ANTENNA1" r) (col "ANTENNA2" r));
      destruct (Z.eqb (col "FEED1" r) (col "FEED2" r)); reflexivity.
  - intros e cs.
    destruct (accepts (chooseAll cs _) r) eqn:H; [| reflexivity].
    apply chooseAll_narrows in H. revert H.
    destruct e as [e |]; simpl;
      destruct (Z.eqb (col "ANTENNA1" r) (col "ANTENNA2" r));
      destruct (Z.eqb (col "FEED1" r) (col "FEED2" r));
      rewrite ?andb_false_r, ?andb_true_r; simpl; congruence.
  - intros e cs.
    destruct (accepts (chooseAll cs _) r) eqn:H; [| reflexivity].
    apply chooseAll_narrows in H. revert H.
    destruct e as [e |]; simpl;
      destruct (Z.eqb (col "ANTENNA1" r) (col "ANTENNA2" r));
      destruct (Z.eqb (col "FEED1" r) (col "FEED2" r));
      rewrite ?andb_false_r, ?andb_true_r; simpl; congruence.
Qed.

(** X7: the choice of a spectral window that no data descriptor refers to
    raises nothing and leaves a selector that lets no row pass, whatever was
    chosen before and whatever is chosen afterwards. *)
Theorem spectral_window_without_descriptor_selects_nothing
    (spWinID : Z) (before after : list Choice) (r : R) :
  getDescIDsForSpWinID (to_Int spWinID) = [] ->
  accepts (chooseAll after
             (chooseSpectralWindow col getDescIDsForSpWinID spWinID
                (chooseAll before None))) r = false.
Proof.
  intros Hno.
  destruct (accepts (chooseAll after _) r) eqn:H; [| reflexivity].
  apply chooseAll_narrows in H. revert H.
  unfold chooseSpectralWindow. rewrite Hno. simpl.
  rewrite andb_false_r. congruence.
Qed.

(** X8: a row whose UVW cell has exactly two elements and lies within the
    maximum uv distance passes when the maximum is the first choice made on
    a selector and is rejected when something was chosen before. *)
Theorem chooseMaxUVDistance_two_elements (uvDist : Q) (e : R -> bool) (r : R) :
  shape (UVW r) = [2] ->
  Qleb (uvDistance UVW sqrt r) uvDist = true ->
  accepts (chooseMaxUVDistance UVW sqrt uvDist None) r = true /\
  accepts (chooseMaxUVDistance UVW sqrt uvDist (Some e)) r = false.
Proof.
  intros Hs Hd. simpl. unfold ndim, nelements. rewrite Hs, Hd. simpl.
  split; [reflexivity |]. rewrite andb_false_r. reflexivity.
Qed.


End SelectorFacts.

Lemma choices_commute_witness :
  TableScalarFieldSelector.accepts
    (TableScalarFieldSelector.chooseAntenna Sample.columns 1
       (TableScalarFieldSelector.chooseCrossCorrelations Sample.columns None))
    (Sample.row 1 0 false 4)
  = TableScalarFieldSelector.accepts
      (TableScalarFieldSelector.chooseCrossCorrelations Sample.columns
         (TableScalarFieldSelector.chooseAntenna Sample.columns 1 None))
      (Sample.row 1 0 false 4).
Proof.
  apply (@choices_commute Row Sample.columns Sample.uvw Sample.root Sample.noDescriptor
           (TableScalarFieldSelector.ChooseAntenna 1)
           TableScalarFieldSelector.ChooseCrossCorrelations None (Sample.row 1 0 false 4)).
  right. split; reflexivity.
Defined.

Lemma spectral_window_without_descriptor_witness :
  TableScalarFieldSelector.accepts
    (TableScalarFieldSelector.chooseAntenna Sample.columns 1
       (TableScalarFieldSelector.chooseSpectralWindow Sample.columns Sample.noDescriptor 1
          (TableScalarFieldSelector.chooseCrossCorrelations Sample.columns None)))
    (Sample.row 1 0 false 4)
  = false.
Proof.
  apply (@spectral_window_without_descriptor_selects_nothing
           Row Sample.columns Sample.uvw Sample.root Sample.noDescriptor 1%Z
           [TableScalarFieldSelector.ChooseCrossCorrelations]
           [TableScalarFieldSelector.ChooseAntenna 1] (Sample.row 1 0 false 4)).
  reflexivity.
Defined.

Lemma chooseMaxUVDistance_witness :
  TableScalarFieldSelector.accepts
    (TableScalarFieldSelector.chooseMaxUVDistance Sample.uvw Sample.root 5 None)
    (Sample.row 1 0 false 4) = true /\
  TableScalarFieldSelector.accepts
    (TableScalarFieldSelector.chooseMaxUVDistance Sample.uvw Sample.root 5
       (TableScalarFieldSelector.chooseCrossCorrelations Sample.columns None))
    (Sample.row 1 0 false 4) = false.
Proof.
  apply (@chooseMaxUVDistance_two_elements Row Sample.uvw Sample.root 5%Q).
  - reflexivity.
  - reflexivity.
Defined.

(** ** The cache of the FEED handler *)

(** What one pass of the loop of [Feed.fillCache] appends. *)
Lemma Feed_fillCache_loop_appends (sel : list Feed.FeedRow) :
  forall (h h' : Feed.t) (row : nat),
    Feed.fillCache_loop h row sel = Ok h' ->
    Feed.table h' = Feed.table h /\
    Feed.itsIntervalFactor h' = Feed.itsIntervalFactor h /\
    Feed.itsAntennaIDs h' = Feed.itsAntennaIDs h /\
    Feed.itsFeedIDs h' = Feed.itsFeedIDs h /\
    Feed.itsIndices h'
    = Feed.itsIndices h
      ++ map (fun p => ((Feed.ANTENNA_ID (snd p), Feed.FEED_ID (snd p)), fst p))
             (combine (seq row (length sel)) sel) /\
    Forall2 (fun r pa => Feed.computePositionAngle (Feed.RECEPTOR_ANGLE r) = Ok pa)
            sel (skipn (length (Feed.itsPositionAngles h)) (Feed.itsPositionAngles h')) /\
    firstn (length (Feed.itsPositionAngles h)) (Feed.itsPositionAngles h')
    = Feed.itsPositionAngles h /\
    Forall2 (fun r o => Feed.computeBeamOffset (Feed.BEAM_OFFSET r) = Ok o)
            sel (skipn (length (Feed.itsBeamOffsets h)) (Feed.itsBeamOffsets h')) /\
    firstn (length (Feed.itsBeamOffsets h)) (Feed.itsBeamOffsets h')
    = Feed.itsBeamOffsets h.
Proof.
  induction sel as [| r sel IH]; intros h h' row H.
  - simpl in H. injection H as <-. simpl.
    rewrite app_nil_r, !skipn_all, !firstn_all. repeat split; constructor.
  - simpl in H. apply bind_Ok in H. destruct H as [h1 [H1 H]].
    apply IH in H. destruct H as [Ht [Hf [Ha [Hfe [Hi [Hp [Hp0 [Ho Ho0]]]]]]]].
    unfold Feed.fillCache_row in H1.
    apply bind_Ok in H1. destruct H1 as [cOffset [Hoff H1]].
    apply bind_Ok in H1. destruct H1 as [pa [Hpa H1]].
    injection H1 as <-. cbn [Feed.table Feed.itsIntervalFactor Feed.itsAntennaIDs
      Feed.itsFeedIDs Feed.itsIndices Feed.itsPositionAngles Feed.itsBeamOffsets] in *.
    rewrite length_app in Hp, Hp0, Ho, Ho0. cbn [length] in Hp, Hp0, Ho, Ho0.
    split; [exact Ht |]. split; [exact Hf |]. split; [exact Ha |]. split; [exact Hfe |].
    split; [rewrite Hi, <- app_assoc; reflexivity |].
    assert (Hsplit : forall (A : Type) (l l' : list A) (x : A),
               firstn (length l + 1) l' = l ++ [x] ->
               firstn (length l) l' = l /\
               skipn (length l) l' = x :: skipn (length l + 1) l').
    { clear. intros A l. induction l as [| a l IHl]; intros l' x H.
      - destruct l' as [| b l']; [discriminate |]. simpl in H. injection H as ->.
        split; reflexivity.
      - destruct l' as [| b l']; [discriminate |]. simpl in H. injection H as -> H.
        apply IHl in H. destruct H as [H1 H2]. simpl. rewrite H1, H2. split; reflexivity. }
    apply Hsplit in Hp0. destruct Hp0 as [Hp1 Hp2].
    apply Hsplit in Ho0. destruct Ho0 as [Ho1 Ho2].
    split; [rewrite Hp2; constructor; assumption |]. split; [exact Hp1 |].
    split; [rewrite Ho2; constructor; assumption | exact Ho1].
Qed.

Lemma Feed_maxID_ge (ids : list Z) :
  forall (init x : Z), In x ids \/ (x <= init)%Z -> (x <= fold_left Z.max ids init)%Z.
Proof.
  induction ids as [| y ids IH]; intros init x H; simpl.
  - destruct H as [[] | H]. exact H.
  - apply IH. destruct H as [[-> | H] | H]; [right; lia | left; exact H | right; lia].
Qed.

(** The look-up in the index matrix finds the last row of a pair. *)
Lemma Feed_index_last (antID feedID : Z) (sel : list Feed.FeedRow) :
  forall (k : nat) (init : Z),
    let matches := fun r => Z.eqb (Feed.ANTENNA_ID r) antID && Z.eqb (Feed.FEED_ID r) feedID in
    let res :=
      fold_left (fun (found : Z) (e : (Z * Z) * nat) =>
                   if Z.eqb (fst (fst e)) antID && Z.eqb (snd (fst e)) feedID
                   then Z.of_nat (snd e) else found)
                (map (fun p => ((Feed.ANTENNA_ID (snd p), Feed.FEED_ID (snd p)), fst p))
                     (combine (seq k (length sel)) sel))
                init in
    (res = init /\ forall j r, nth_error sel j = Some r -> matches r = false) \/
    (exists j r, nth_error sel j = Some r /\ matches r = true /\
                 res = Z.of_nat (k + j) /\
                 forall j' r', j < j' -> nth_error sel j' = Some r' -> matches r' = false).
Proof.
  induction sel as [| r sel IH]; intros k init matches res.
  - left. split; [reflexivity |]. intros [| j] r'; discriminate.
  - subst res. cbn [length seq combine map fold_left fst snd].
    fold (matches r).
    destruct (IH (S k) (if matches r then Z.of_nat k else init))
      as [[Hres Hno] | [j [r' [Hj [Hm [Hres Hlast]]]]]].
    + fold matches in Hres, Hno. rewrite Hres.
      destruct (matches r) eqn:Hr.
      * right. exists 0, r. split; [reflexivity |]. split; [exact Hr |].
        split; [f_equal; lia |].
        intros [| j'] r' Hlt Hn; [lia |]. apply (Hno j'). exact Hn.
      * left. split; [reflexivity |].
        intros [| j] r' Hn; [injection Hn as <-; exact Hr | apply (Hno j); exact Hn].
    + right. exists (S j), r'. split; [exact Hj |]. split; [exact Hm |].
      split; [rewrite Hres; f_equal; lia |].
      intros [| j'] r'' Hlt Hn; [lia |]. apply (Hlast j'); [lia | exact Hn].
Qed.

Lemma Feed_fillCache_cached (h h' : Feed.t) (dTime : Q) (spWinID : Z) :
  Feed.fillCache h dTime spWinID = Ok h' ->
  let sel := filter (Feed.expression h dTime spWinID) (Feed.table h) in
  sel <> [] /\
  Feed.itsAntennaIDs h' = map Feed.ANTENNA_ID sel /\
  Feed.itsFeedIDs h' = map Feed.FEED_ID sel /\
  Feed.itsIndices h'
  = map (fun p => ((Feed.ANTENNA_ID (snd p), Feed.FEED_ID (snd p)), fst p))
        (combine (seq 0 (length sel)) sel) /\
  Forall2 (fun r pa => Feed.computePositionAngle (Feed.RECEPTOR_ANGLE r) = Ok pa)
          sel (Feed.itsPositionAngles h') /\
  Forall2 (fun r o => Feed.computeBeamOffset (Feed.BEAM_OFFSET r) = Ok o)
          sel (Feed.itsBeamOffsets h').
Proof.
  intros H sel. unfold Feed.fillCache in H. fold sel in H.
  destruct sel as [| r0 sel0] eqn:Hsel; [discriminate |].
  apply bind_Ok in H. destruct H as [u [_ H]].
  apply Feed_fillCache_loop_appends in H.
  cbn [Feed.table Feed.itsIntervalFactor Feed.itsAntennaIDs Feed.itsFeedIDs
       Feed.itsIndices Feed.itsPositionAngles Feed.itsBeamOffsets length skipn app] in H.
  destruct H as [_ [_ [Ha [Hf [Hi [Hp [_ [Ho _]]]]]]]].
  split; [discriminate |]. repeat split; assumption.
Qed.

(** X9: after a fill, [Feed.getIndex] gives for an antenna and feed the number of
    the last cached row of that pair, and fails when there is none; the
    cached position angle and beam offset at that number are those computed
    from the receptors of the row. *)
Theorem Feed_getIndex_finds_last_cached_row
    (h h' : Feed.t) (dTime : Q) (spWinID antID feedID : Z) (i : nat) :
  Feed.fillCache h dTime spWinID = Ok h' ->
  let sel := filter (Feed.expression h dTime spWinID) (Feed.table h) in
  (Feed.getIndex h' antID feedID = Ok i <->
   exists r, nth_error sel i = Some r /\
             Feed.ANTENNA_ID r = antID /\ Feed.FEED_ID r = feedID /\
             forall j r', i < j -> nth_error sel j = Some r' ->
                          ~ (Feed.ANTENNA_ID r' = antID /\ Feed.FEED_ID r' = feedID)) /\
  (forall r, nth_error sel i = Some r ->
             exists pa o,
               Feed.cached (Feed.itsPositionAngles h') i = Ok pa /\
               Feed.computePositionAngle (Feed.RECEPTOR_ANGLE r) = Ok pa /\
               Feed.cached (Feed.itsBeamOffsets h') i = Ok o /\
               Feed.computeBeamOffset (Feed.BEAM_OFFSET r) = Ok o).
Proof.
  intros H sel.
  destruct (Feed_fillCache_cached _ _ _ H) as [Hne [Ha [Hf [Hi [Hp Ho]]]]].
  fold sel in Hne, Ha, Hf, Hi, Hp, Ho.
  pose proof (Feed_index_last antID feedID sel 0 (-2)%Z) as Hlast.
  cbv zeta in Hlast. rewrite <- Hi in Hlast. fold (Feed.index h' antID feedID) in Hlast.
  assert (Hm : forall r, Z.eqb (Feed.ANTENNA_ID r) antID && Z.eqb (Feed.FEED_ID r) feedID = true
                         <-> Feed.ANTENNA_ID r = antID /\ Feed.FEED_ID r = feedID).
  { intros r. rewrite andb_true_iff, !Z.eqb_eq. tauto. }
  split.
  - unfold Feed.getIndex. split.
    + intros G. apply bind_Ok in G. destruct G as [u1 [_ G]].
      apply bind_Ok in G. destruct G as [u2 [_ G]].
      apply bind_Ok in G. destruct G as [u3 [G3 G]].
      apply check_Ok in G3. apply Z.leb_le in G3. injection G as G.
      destruct Hlast as [[Hres _] | [j [r [Hj [Hmr [Hres Hl]]]]]]; [lia |].
      rewrite Hres in G. rewrite Nat2Z.id in G. simpl in G. subst j.
      exists r. apply Hm in Hmr. destruct Hmr as [Hra Hrf].
      split; [exact Hj |]. split; [exact Hra |]. split; [exact Hrf |].
      intros j r' Hlt Hn Hc. apply Hm in Hc. rewrite (Hl j r' Hlt Hn) in Hc. discriminate.
    + intros [r [Hn [Hra [Hrf Hl]]]].
      assert (Hin : In r sel) by (eapply nth_error_In; exact Hn).
      assert (H1 : Z.ltb antID (Feed.maxID (Feed.itsAntennaIDs h') + 1) = true).
      { apply Z.ltb_lt. rewrite Ha. unfold Feed.maxID.
        pose proof (@Feed_maxID_ge (map Feed.ANTENNA_ID sel) (-1)%Z antID) as Hge.
        assert (In antID (map Feed.ANTENNA_ID sel)).
        { rewrite <- Hra. apply in_map. exact Hin. }
        specialize (Hge (or_introl H0)). lia. }
      assert (H2 : Z.ltb feedID (Feed.maxID (Feed.itsFeedIDs h') + 1) = true).
      { apply Z.ltb_lt. rewrite Hf. unfold Feed.maxID.
        pose proof (@Feed_maxID_ge (map Feed.FEED_ID sel) (-1)%Z feedID) as Hge.
        assert (In feedID (map Feed.FEED_ID sel)).
        { rewrite <- Hrf. apply in_map. exact Hin. }
        specialize (Hge (or_introl H0)). lia. }
      rewrite H1, H2. cbn [check bind].
      assert (Hidx : Feed.index h' antID feedID = Z.of_nat i).
      { destruct Hlast as [[_ Hno] | [j [r' [Hj [Hmr [Hres Hl']]]]]].
        - specialize (Hno i r Hn). assert (Ht : Z.eqb (Feed.ANTENNA_ID r) antID && Z.eqb (Feed.FEED_ID r) feedID = true) by (apply Hm; tauto).
          congruence.
        - rewrite Hres. simpl. f_equal.
          destruct (Nat.lt_trichotomy i j) as [Hlt | [Heq | Hgt]].
          + exfalso. apply (Hl j r' Hlt Hj). apply Hm. exact Hmr.
          + congruence.
          + specialize (Hl' i r Hgt Hn).
            assert (Ht : Z.eqb (Feed.ANTENNA_ID r) antID && Z.eqb (Feed.FEED_ID r) feedID = true) by (apply Hm; tauto).
            congruence. }
      rewrite Hidx.
      assert (H3 : Z.leb 0 (Z.of_nat i) = true) by (apply Z.leb_le; lia).
      rewrite H3. cbn [check bind]. rewrite Nat2Z.id. reflexivity.
  - intros r Hn.
    assert (Hnth : forall (A B : Type) (P : A -> B -> Prop) (l : list A) (l' : list B),
               Forall2 P l l' -> forall k a, nth_error l k = Some a ->
               exists b, nth_error l' k = Some b /\ P a b).
    { clear. intros A B P l l' HF. induction HF as [| a b l l' Hab HF IH]; intros k x Hk.
      - destruct k; discriminate.
      - destruct k as [| k]; [injection Hk as <-; exists b; split; [reflexivity | exact Hab] |].
        apply IH. exact Hk. }
    destruct (Hnth _ _ _ _ _ Hp i r Hn) as [pa [Hpa1 Hpa2]].
    destruct (Hnth _ _ _ _ _ Ho i r Hn) as [o [Ho1 Ho2]].
    exists pa, o. unfold Feed.cached. rewrite Hpa1, Ho1. repeat split; assumption.
Qed.

Open Scope Q_scope.

(** The validity interval a row contributes covers the time it was
    selected for. *)
Lemma Feed_row_interval (h : Feed.t) (dTime : Q) (spWinID : Z) (r : Feed.FeedRow) :
  ~ Feed.itsIntervalFactor h == 0 ->
  Feed.expression h dTime spWinID r = true ->
  (Feed.INTERVAL r == 0 ->
   Feed.TIME r - inject_Z (10 ^ 30) <= dTime <= Feed.TIME r + inject_Z (10 ^ 30)) ->
  let zeroInterval := Qeqb (Feed.INTERVAL r) 0 in
  (if zeroInterval then Feed.TIME r - inject_Z (10 ^ 30)
   else Feed.TIME r - Feed.INTERVAL r * Feed.itsIntervalFactor h / 2) <= dTime /\
  dTime <= (if zeroInterval then Feed.TIME r + inject_Z (10 ^ 30)
            else Feed.TIME r + Feed.INTERVAL r * Feed.itsIntervalFactor h / 2) /\
  (Feed.SPECTRAL_WINDOW_ID r = spWinID \/ Feed.SPECTRAL_WINDOW_ID r = (-1)%Z).
Proof.
  intros Hf He Hz zeroInterval. unfold Feed.expression in He.
  apply andb_true_iff in He. destruct He as [Hs Hw].
  assert (Hspw : Feed.SPECTRAL_WINDOW_ID r = spWinID \/ Feed.SPECTRAL_WINDOW_ID r = (-1)%Z).
  { apply orb_true_iff in Hs. destruct Hs as [Hs | Hs]; apply Z.eqb_eq in Hs; tauto. }
  subst zeroInterval. destruct (Qeqb (Feed.INTERVAL r) 0) eqn:Hi.
  - apply Qeqb_true in Hi. specialize (Hz Hi). tauto.
  - apply orb_true_iff in Hw. destruct Hw as [Hw | Hw].
    + apply andb_true_iff in Hw. destruct Hw as [H1 H2].
      apply Qleb_true in H1, H2. unfold Feed.halfInterval in H1, H2. tauto.
    + exfalso. apply Qeqb_true in Hw. unfold Feed.halfInterval in Hw.
      assert (Hi' : ~ Feed.INTERVAL r == 0).
      { intros E. apply Qeqb_true in E. congruence. }
      apply Hi'.
      assert (Hm : Feed.INTERVAL r * Feed.itsIntervalFactor h == 0).
      { setoid_replace (Feed.INTERVAL r * Feed.itsIntervalFactor h)
          with (Feed.INTERVAL r * Feed.itsIntervalFactor h / 2 * 2) by field.
        rewrite Hw. ring. }
      apply Qmult_integral in Hm. tauto.
Qed.

Lemma Feed_expression_factor (h h1 : Feed.t) (dTime : Q) (spWinID : Z) (r : Feed.FeedRow) :
  Feed.itsIntervalFactor h1 = Feed.itsIntervalFactor h ->
  Feed.expression h1 dTime spWinID r = Feed.expression h dTime spWinID r.
Proof.
  intros H. unfold Feed.expression, Feed.halfInterval. rewrite H. reflexivity.
Qed.

Lemma Feed_fillCache_loop_valid (dTime : Q) (spWinID : Z) (sel : list Feed.FeedRow) :
  forall (h h' : Feed.t) (row : nat),
    Feed.fillCache_loop h row sel = Ok h' ->
    ~ Feed.itsIntervalFactor h == 0 ->
    (forall r, In r sel -> Feed.expression h dTime spWinID r = true) ->
    (forall r, In r sel -> Feed.INTERVAL r == 0 ->
               Feed.TIME r - inject_Z (10 ^ 30) <= dTime <= Feed.TIME r + inject_Z (10 ^ 30)) ->
    (row = 0%nat -> sel <> []) ->
    (row <> 0%nat -> Feed.itsCachedStartTime h <= dTime <= Feed.itsCachedStopTime h) ->
    (Feed.itsCachedSpWindow h = spWinID \/ Feed.itsCachedSpWindow h = (-1)%Z) ->
    Feed.itsCachedStartTime h' <= dTime <= Feed.itsCachedStopTime h' /\
    (Feed.itsCachedSpWindow h' = spWinID \/ Feed.itsCachedSpWindow h' = (-1)%Z).
Proof.
  induction sel as [| r sel IH]; intros h h' row H Hf He Hz Hne Hin Hs.
  - simpl in H. injection H as <-. split; [| exact Hs].
    destruct row as [| row]; [exfalso; apply (Hne eq_refl); reflexivity |].
    apply Hin. discriminate.
  - simpl in H. apply bind_Ok in H. destruct H as [h1 [H1 H]].
    unfold Feed.fillCache_row in H1.
    apply bind_Ok in H1. destruct H1 as [cOffset [_ H1]].
    apply bind_Ok in H1. destruct H1 as [pa [_ H1]].
    destruct (@Feed_row_interval h dTime spWinID r Hf (He r (or_introl eq_refl))
                (Hz r (or_introl eq_refl))) as [Hlo [Hhi Hspw]].
    cbv zeta in Hlo, Hhi.
    injection H1 as H1.
    assert (Hfac : Feed.itsIntervalFactor h1 = Feed.itsIntervalFactor h)
      by (rewrite <- H1; reflexivity).
    apply (IH h1 h' (S row) H).
    + rewrite Hfac. exact Hf.
    + intros r' Hr'. rewrite (@Feed_expression_factor h h1 dTime spWinID r' Hfac). apply He. right. exact Hr'.
    + intros r' Hr'. apply Hz. right. exact Hr'.
    + discriminate.
    + intros _. rewrite <- H1.
      cbn [Feed.itsCachedStartTime Feed.itsCachedStopTime].
      split.
      * destruct (Nat.eqb row 0 || Qltb (Feed.itsCachedStartTime h) _) eqn:Hc; [exact Hlo |].
        apply orb_false_iff in Hc. destruct Hc as [Hr _].
        apply Nat.eqb_neq in Hr. apply (Hin Hr).
      * destruct (Nat.eqb row 0 || Qltb _ (Feed.itsCachedStopTime h)) eqn:Hc; [exact Hhi |].
        apply orb_false_iff in Hc. destruct Hc as [Hr _].
        apply Nat.eqb_neq in Hr. apply (Hin Hr).
    + rewrite <- H1. cbn [Feed.itsCachedSpWindow].
      destruct (negb (Z.eqb (Feed.SPECTRAL_WINDOW_ID r) (-1))) eqn:Hn; [| exact Hs].
      destruct Hspw as [Hspw | Hspw]; [left; exact Hspw |].
      rewrite Hspw in Hn. discriminate.
Qed.

(** X10: a fill makes the cache valid for the time and spectral window it was
    made for: the same query is then answered from the cache. *)
Theorem Feed_fillCache_makes_cache_valid
    (h h' : Feed.t) (dTime : Q) (spWinID : Z) :
  ~ Feed.itsIntervalFactor h == 0 ->
  (forall r, In r (Feed.table h) -> Feed.INTERVAL r == 0 ->
             Feed.TIME r - inject_Z (10 ^ 30) <= dTime <= Feed.TIME r + inject_Z (10 ^ 30)) ->
  Feed.fillCache h dTime spWinID = Ok h' ->
  Feed.newBeamDetails h' dTime spWinID = false /\
  Feed.fillCacheOnDemand h' dTime spWinID = Ok h' /\
  Feed.allBeamOffsetsZero h' dTime spWinID = Ok (Feed.itsAllCachedOffsetsZero h', h').
Proof.
  intros Hf Hz H.
  assert (Hv : Feed.newBeamDetails h' dTime spWinID = false).
  { unfold Feed.fillCache in H.
    destruct (filter (Feed.expression h dTime spWinID) (Feed.table h)) as [| r0 sel0] eqn:Hsel;
      [discriminate |].
    apply bind_Ok in H. destruct H as [u [_ H]].
    apply (@Feed_fillCache_loop_valid dTime spWinID) in H.
    - destruct H as [[Hlo Hhi] Hs]. unfold Feed.newBeamDetails.
      apply Qleb_true in Hlo, Hhi. rewrite Hlo, Hhi.
      destruct Hs as [Hs | Hs]; rewrite Hs.
      + rewrite Z.eqb_refl. reflexivity.
      + rewrite orb_true_r. reflexivity.
    - exact Hf.
    - intros r Hr. rewrite <- Hsel in Hr. apply filter_In in Hr.
      rewrite <- (proj2 Hr). apply Feed_expression_factor. reflexivity.
    - intros r Hr. rewrite <- Hsel in Hr. apply filter_In in Hr. apply Hz. apply Hr.
    - discriminate.
    - intros Hc. exfalso. apply Hc. reflexivity.
    - cbn [Feed.itsCachedSpWindow].
      assert (Hr0 : In r0 (filter (Feed.expression h dTime spWinID) (Feed.table h)))
        by (rewrite Hsel; left; reflexivity).
      apply filter_In in Hr0. destruct Hr0 as [_ Hr0].
      unfold Feed.expression in Hr0. apply andb_true_iff in Hr0. destruct Hr0 as [Hs _].
      apply orb_true_iff in Hs. destruct Hs as [Hs | Hs]; apply Z.eqb_eq in Hs; tauto. }
  split; [exact Hv |].
  assert (Hd : Feed.fillCacheOnDemand h' dTime spWinID = Ok h').
  { unfold Feed.fillCacheOnDemand. rewrite Hv. reflexivity. }
  split; [exact Hd |].
  unfold Feed.allBeamOffsetsZero. rewrite Hd. reflexivity.
Qed.

Lemma Feed_fillCache_loop_zero (sel : list Feed.FeedRow) :
  forall (h h' : Feed.t) (row : nat),
    Feed.fillCache_loop h row sel = Ok h' ->
    Feed.itsAllCachedOffsetsZero h'
    = Feed.itsAllCachedOffsetsZero h &&
      forallb zeroOffset
              (skipn (length (Feed.itsBeamOffsets h)) (Feed.itsBeamOffsets h')).
Proof.
  induction sel as [| r sel IH]; intros h h' row H.
  - simpl in H. injection H as <-. rewrite skipn_all. simpl. rewrite andb_true_r. reflexivity.
  - simpl in H. apply bind_Ok in H. destruct H as [h1 [H1 H]].
    pose proof (Feed_fillCache_loop_appends _ _ _ H) as [_ [_ [_ [_ [_ [_ [_ [_ Hfirst]]]]]]]].
    apply IH in H. rewrite H. clear H.
    unfold Feed.fillCache_row in H1.
    apply bind_Ok in H1. destruct H1 as [cOffset [_ H1]].
    apply bind_Ok in H1. destruct H1 as [pa [_ H1]].
    injection H1 as H1. rewrite <- H1 in *.
    cbn [Feed.itsAllCachedOffsetsZero Feed.itsBeamOffsets] in *.
    rewrite length_app in *. cbn [length] in *.
    assert (Hs : skipn (length (Feed.itsBeamOffsets h)) (Feed.itsBeamOffsets h')
                 = cOffset :: skipn (length (Feed.itsBeamOffsets h) + 1)
                                    (Feed.itsBeamOffsets h')).
    { revert Hfirst. generalize (Feed.itsBeamOffsets h') as l'.
      generalize (Feed.itsBeamOffsets h) as l. clear.
      induction l as [| a l IHl]; intros l' H.
      - destruct l' as [| b l']; [discriminate |]. simpl in H. injection H as ->. reflexivity.
      - destruct l' as [| b l']; [discriminate |]. simpl in H. injection H as _ H.
        simpl. apply IHl. exact H. }
    rewrite Hs. cbn [forallb]. unfold zeroOffset at 2.
    destruct (Feed.Qabs_gt (fst cOffset) _ || Feed.Qabs_gt (snd cOffset) _); simpl.
    + rewrite andb_false_r. reflexivity.
    + reflexivity.
Qed.

(** X11: after a fill, the flag that [allBeamOffsetsZero] reports holds
    exactly when every cached beam offset is within 1e-15 of zero in both
    coordinates, and there is one cached offset per selected row. *)
Theorem Feed_allBeamOffsetsZero_after_fill
    (h h' : Feed.t) (dTime : Q) (spWinID : Z) :
  Feed.fillCache h dTime spWinID = Ok h' ->
  Feed.itsAllCachedOffsetsZero h' = forallb zeroOffset (Feed.itsBeamOffsets h') /\
  length (Feed.itsBeamOffsets h')
  = length (filter (Feed.expression h dTime spWinID) (Feed.table h)).
Proof.
  intros H. split.
  - unfold Feed.fillCache in H.
    destruct (filter (Feed.expression h dTime spWinID) (Feed.table h)) as [| r0 sel0];
      [discriminate |].
    apply bind_Ok in H. destruct H as [u [_ H]].
    apply Feed_fillCache_loop_zero in H. exact H.
  - destruct (Feed_fillCache_cached _ _ _ H) as [_ [_ [_ [_ [_ Ho]]]]].
    symmetry. eapply Forall2_length. exact Ho.
Qed.


Lemma Feed_getIndex_witness :
  Feed.getIndex Sample.feedCached 0 0 = Ok 0%nat.
Proof.
  pose proof (@Feed_getIndex_finds_last_cached_row
                (Feed.make Sample.feedTable 1) Sample.feedCached 15 0%Z 0%Z 0%Z 0%nat
                ltac:(vm_compute; reflexivity)) as T.
  cbv zeta in T. destruct T as [[_ T] _]. apply T.
  eexists. split; [vm_compute; reflexivity |].
  split; [reflexivity |]. split; [reflexivity |].
  intros j r' Hlt Hn. destruct j as [| j]; [inversion Hlt |].
  vm_compute in Hn. destruct j; discriminate.
Defined.

Lemma Feed_fillCache_valid_witness :
  Feed.newBeamDetails Sample.feedCached 15 0 = false.
Proof.
  apply (@Feed_fillCache_makes_cache_valid
           (Feed.make Sample.feedTable 1) Sample.feedCached 15 0%Z).
  - intros H. vm_compute in H. discriminate.
  - intros r [<- | []] H. vm_compute in H. discriminate.
  - vm_compute. reflexivity.
Defined.

Lemma Feed_allBeamOffsetsZero_witness :
  Feed.itsAllCachedOffsetsZero Sample.feedCached
  = forallb zeroOffset (Feed.itsBeamOffsets Sample.feedCached).
Proof.
  apply (@Feed_allBeamOffsetsZero_after_fill
           (Feed.make Sample.feedTable 1) Sample.feedCached 15 0%Z).
  vm_compute. reflexivity.
Defined.

(** ** A FIELD table of one row *)

(** X12: with a FIELD table of a single row, a look-up by time at or after
    the time of the row gives the reference direction of the row, whatever
    was asked before, and the handler then reports a new field only for
    times before the row; a look-up for an earlier time raises the error of
    the handler. *)
Theorem Field_single_row_table (r : Field.FieldRow) (h : Field.t) (dTime : Q) :
  Field.make [r] = Ok h \/ singleRowCached r h ->
  (dTime < Field.TIME r ->
   Field.getReferenceDir h dTime = Err MetadataLookupError) /\
  (Field.TIME r <= dTime ->
   exists h', Field.getReferenceDir h dTime = Ok (Field.REFERENCE_DIR r, h') /\
              singleRowCached r h' /\
              forall t, Field.newField h' t = Qltb t (Field.TIME r)).
Proof.
  intros Hh.
  assert (Hfill : forall h0, TableIterator.whole (Field.itsIterator h0) = [r] ->
            Field.fillCacheWithCurrentIteration
              (Field.with_iterator h0 (TableIterator.reset Field.TIME (Field.itsIterator h0)))
            = Ok {| Field.table := Field.table h0;
                    Field.itsIterator :=
                      TableIterator.next Field.TIME (TableIterator.make Field.TIME [r]);
                    Field.itsNeverAccessedFlag := Field.itsNeverAccessedFlag h0;
                    Field.itsCachedStartTime := Field.TIME r;
                    Field.itsCachedStopTime := Field.itsCachedStopTime h0;
                    Field.itsReferenceDir := Field.REFERENCE_DIR r;
                    Field.itsRandomlyAccessedReferenceDir :=
                      Field.itsRandomlyAccessedReferenceDir h0 |}).
  { intros h0 Hw. unfold TableIterator.reset. rewrite Hw. reflexivity. }
  destruct Hh as [Hmake | [Htab [Hw [Hna [Hst Hdir]]]]].
  - injection Hmake as <-.
    unfold Field.getReferenceDir.
    cbn [Field.itsNeverAccessedFlag].
    change (Field.fillCacheWithCurrentIteration _) with
      (Ok {| Field.table := [r];
             Field.itsIterator :=
               TableIterator.next Field.TIME (TableIterator.make Field.TIME [r]);
             Field.itsNeverAccessedFlag := true;
             Field.itsCachedStartTime := Field.TIME r;
             Field.itsCachedStopTime := 0;
             Field.itsReferenceDir := Field.REFERENCE_DIR r;
             Field.itsRandomlyAccessedReferenceDir := (0, 0) |}).
    cbn [bind]. unfold Field.fillCacheOnDemand. cbn [Field.itsCachedStartTime].
    split.
    + intros Hlt. apply Qltb_true in Hlt. rewrite Hlt.
      rewrite Hfill by reflexivity. cbn [bind Field.itsCachedStartTime].
      rewrite Hlt. reflexivity.
    + intros Hle. assert (Hlt : Qltb dTime (Field.TIME r) = false).
      { apply Qltb_false. exact Hle. }
      rewrite Hlt. cbn [bind Field.itsCachedStartTime negb check Field.table length Nat.eqb orb].
      rewrite Hlt. cbn [negb check bind].
      eexists. split; [reflexivity |]. split.
      * repeat split.
      * intros t. unfold Field.newField.
        cbn [Field.itsNeverAccessedFlag Field.itsCachedStartTime Field.table
             length Nat.eqb].
        destruct (Qltb t (Field.TIME r)); reflexivity.
  - unfold Field.getReferenceDir. rewrite Hna. cbn [bind].
    unfold Field.fillCacheOnDemand. rewrite Hst. split.
    + intros Hlt. apply Qltb_true in Hlt. rewrite Hlt.
      rewrite Hfill by exact Hw. cbn [bind Field.itsCachedStartTime].
      rewrite Hlt. reflexivity.
    + intros Hle. assert (Hlt : Qltb dTime (Field.TIME r) = false).
      { apply Qltb_false. exact Hle. }
      rewrite Hlt. cbn [bind]. rewrite Hst, Hlt, Htab.
      cbn [negb check bind length Nat.eqb orb].
      eexists. split; [rewrite Hdir; reflexivity |]. split.
      * repeat split; assumption.
      * intros t. unfold Field.newField.
        cbn [Field.itsNeverAccessedFlag Field.itsCachedStartTime Field.table].
        rewrite Hst, Htab. cbn [length Nat.eqb].
        destruct (Qltb t (Field.TIME r)); reflexivity.
Qed.

Lemma Field_single_row_witness :
  exists h', Field.getReferenceDir Sample.field 5 = Ok ((0, 0), h') /\
             singleRowCached Sample.fieldRow h'.
Proof.
  destruct (proj2 (@Field_single_row_table Sample.fieldRow Sample.field 5
                     (or_introl eq_refl))
                  ltac:(vm_compute; discriminate)) as [h' [H1 [H2 _]]].
  exists h'. split; [exact H1 | exact H2].
Defined.

(** ** A FIELD table of several rows *)

Lemma span_key_single (r : Field.FieldRow) (rest : list Field.FieldRow) :
  timeChanges (r :: rest) ->
  TableIterator.span_key Field.TIME (Field.TIME r) rest = ([], rest).
Proof.
  destruct rest as [| r' rest]; [reflexivity |].
  cbn [timeChanges TableIterator.span_key]. intros [Hne _].
  destruct (Qeqb (Field.TIME r') (Field.TIME r)) eqn:E; [| reflexivity].
  apply Qeqb_true in E. contradiction.
Qed.

Lemma Qltb_neither (x y : Q) :
  Qltb x y || Qltb y x = false -> Qeqb y x = true.
Proof.
  intros H. apply orb_false_iff in H. destruct H as [H1 H2].
  apply Qltb_false in H1. apply Qltb_false in H2.
  apply Qeqb_true. apply Qle_antisym; assumption.
Qed.

Lemma Qltb_either (x y : Q) :
  Qltb x y || Qltb y x = true -> Qeqb y x = false.
Proof.
  intros H. destruct (Qeqb y x) eqn:E; [| reflexivity].
  apply Qeqb_true in E. apply orb_true_iff in H.
  destruct H as [H | H]; apply Qltb_true in H; rewrite E in H;
    exfalso; apply (Qlt_irrefl _ H).
Qed.

(** The loop of the fill on demand, entered with a group of one row
    current and a cache that does not hold the time asked for. *)
Lemma Field_while_direction (dTime : Q) (rest : list Field.FieldRow) :
  forall (r : Field.FieldRow) (h : Field.t) (fuel : nat),
    TableIterator.subTable_p (Field.itsIterator h) = [r] ->
    TableIterator.unread (Field.itsIterator h) = rest ->
    timeChanges (r :: rest) ->
    (length rest < fuel)%nat ->
    Qltb dTime (Field.itsCachedStartTime h) || Qltb (Field.itsCachedStopTime h) dTime
    = true ->
    exists h', Field.fillCache_while fuel h dTime = Ok h' /\
               Field.itsReferenceDir h' = directionAt dTime r rest.
Proof.
  induction rest as [| r' rest IH]; intros r h fuel Hcur Hun Hch Hfuel Hout.
  - destruct fuel as [| fuel]; [cbn in Hfuel; lia |].
    cbn [Field.fillCache_while]. unfold TableIterator.pastEnd at 1. rewrite Hcur, Hout.
    cbn [negb andb]. unfold Field.fillCacheWithCurrentIteration, TableIterator.table.
    rewrite Hcur. cbn [length Nat.leb check bind].
    unfold TableIterator.next. rewrite Hun.
    cbn [TableIterator.pastEnd TableIterator.subTable_p negb].
    eexists. split.
    + destruct fuel as [| fuel]; cbn [Field.fillCache_while]; [reflexivity |].
      cbn [Field.itsIterator TableIterator.pastEnd TableIterator.subTable_p negb andb].
      reflexivity.
    + reflexivity.
  - destruct fuel as [| fuel]; [cbn in Hfuel; lia |].
    cbn [Field.fillCache_while]. unfold TableIterator.pastEnd at 1. rewrite Hcur, Hout.
    cbn [negb andb]. unfold Field.fillCacheWithCurrentIteration, TableIterator.table.
    rewrite Hcur. cbn [length Nat.leb check bind].
    unfold TableIterator.next. rewrite Hun.
    destruct Hch as [Hne Hch]. rewrite (span_key_single Hch).
    cbn [TableIterator.pastEnd TableIterator.subTable_p negb].
    match goal with
    | |- exists h', Field.fillCache_while fuel ?x dTime = _ /\ _ => set (h1 := x)
    end.
    destruct (Qltb dTime (Field.TIME r) || Qltb (Field.TIME r) dTime) eqn:E.
    + destruct (IH r' h1 fuel eq_refl eq_refl Hch ltac:(cbn in Hfuel; lia) E)
        as [h' [Hw Hd]].
      exists h'. split; [exact Hw |]. rewrite Hd. cbn [directionAt].
      rewrite (Qltb_either _ _ E). reflexivity.
    + exists h1. split.
      * destruct fuel as [| fuel]; cbn [Field.fillCache_while]; [reflexivity |].
        subst h1.
        cbn [Field.itsIterator TableIterator.pastEnd TableIterator.subTable_p negb andb
             Field.itsCachedStartTime Field.itsCachedStopTime].
        rewrite E. reflexivity.
      * cbn [directionAt]. rewrite (Qltb_neither _ _ E). reflexivity.
Qed.

(** One fill from a group of one row that is not the last one. *)
Lemma Field_fill_single (h : Field.t) (r r' : Field.FieldRow) (rest : list Field.FieldRow) :
  TableIterator.subTable_p (Field.itsIterator h) = [r] ->
  TableIterator.unread (Field.itsIterator h) = r' :: rest ->
  timeChanges (r' :: rest) ->
  Field.fillCacheWithCurrentIteration h
  = Ok {| Field.table := Field.table h;
          Field.itsIterator :=
            TableIterator.mk (TableIterator.whole (Field.itsIterator h)) rest [r'];
          Field.itsNeverAccessedFlag := Field.itsNeverAccessedFlag h;
          Field.itsCachedStartTime := Field.TIME r;
          Field.itsCachedStopTime := Field.TIME r;
          Field.itsReferenceDir := Field.REFERENCE_DIR r;
          Field.itsRandomlyAccessedReferenceDir :=
            Field.itsRandomlyAccessedReferenceDir h |}.
Proof.
  intros Hcur Hun Hch.
  unfold Field.fillCacheWithCurrentIteration, TableIterator.table.
  rewrite Hcur. cbn [length Nat.leb check bind].
  unfold TableIterator.next. rewrite Hun, (span_key_single Hch).
  cbn [TableIterator.pastEnd TableIterator.subTable_p negb]. reflexivity.
Qed.

Lemma TableIterator_make_single (r : Field.FieldRow) (rest : list Field.FieldRow) :
  timeChanges (r :: rest) ->
  TableIterator.make Field.TIME (r :: rest) = TableIterator.mk (r :: rest) rest [r].
Proof.
  intros Hch. unfold TableIterator.make, TableIterator.next.
  cbn [TableIterator.unread TableIterator.whole].
  rewrite (span_key_single Hch). reflexivity.
Qed.

(** X24: on a FIELD table of two rows or more, the first look-up by time
    gives the direction of the first row whose time is exactly the time
    asked for and, when no row has that time, the direction of the last row
    of the table, also for a time that lies between two earlier rows; a time
    before the first row raises the error. *)
Theorem Field_first_lookup_by_time
    (r0 r1 : Field.FieldRow) (rest : list Field.FieldRow) (h : Field.t) (dTime : Q) :
  Field.make (r0 :: r1 :: rest) = Ok h ->
  timeChanges (r0 :: r1 :: rest) ->
  (dTime < Field.TIME r0 ->
   Field.getReferenceDir h dTime = Err MetadataLookupError) /\
  (Field.TIME r0 <= dTime ->
   exists h', Field.getReferenceDir h dTime
              = Ok (directionAt dTime r0 (r1 :: rest), h')).
Proof.
  intros Hmake Hch. unfold Field.make in Hmake.
  cbn [length Nat.eqb negb check bind] in Hmake.
  rewrite (TableIterator_make_single Hch) in Hmake. injection Hmake as <-.
  pose proof Hch as [_ Hch1].
  unfold Field.getReferenceDir. cbn [Field.itsNeverAccessedFlag].
  match goal with
  | |- context [Field.fillCacheWithCurrentIteration ?h0] =>
      rewrite (@Field_fill_single h0 r0 r1 rest eq_refl eq_refl Hch1)
  end.
  cbn [bind Field.table Field.itsIterator Field.itsNeverAccessedFlag
       Field.itsRandomlyAccessedReferenceDir TableIterator.whole].
  unfold Field.fillCacheOnDemand. cbn [Field.itsCachedStartTime]. split.
  - intros Hlt. apply Qltb_true in Hlt. rewrite Hlt.
    unfold Field.with_iterator, TableIterator.reset.
    cbn [Field.table Field.itsIterator Field.itsNeverAccessedFlag
         Field.itsCachedStartTime Field.itsCachedStopTime Field.itsReferenceDir
         Field.itsRandomlyAccessedReferenceDir TableIterator.whole].
    rewrite (TableIterator_make_single Hch).
    match goal with
    | |- context [Field.fillCacheWithCurrentIteration ?h0] =>
        rewrite (@Field_fill_single h0 r0 r1 rest eq_refl eq_refl Hch1)
    end.
    cbn [bind Field.itsCachedStartTime]. rewrite Hlt. reflexivity.
  - intros Hle. assert (Hlt : Qltb dTime (Field.TIME r0) = false)
      by (apply Qltb_false; exact Hle).
    rewrite Hlt. cbn [bind Field.itsCachedStartTime]. rewrite Hlt.
    cbn [negb check bind Field.table length Nat.eqb orb
         Field.itsCachedStartTime Field.itsCachedStopTime].
    destruct (Qleb (Field.TIME r0) dTime && Qleb dTime (Field.TIME r0)) eqn:E.
    + cbn [bind Field.itsReferenceDir]. eexists.
      cbn [directionAt].
      apply andb_true_iff in E. destruct E as [E1 E2].
      apply Qleb_true in E1. apply Qleb_true in E2.
      replace (Qeqb (Field.TIME r0) dTime) with true
        by (symmetry; apply Qeqb_true; apply Qle_antisym; assumption).
      reflexivity.
    + assert (E2 : Qleb dTime (Field.TIME r0) = false).
      { apply andb_false_iff in E. destruct E as [E | E]; [| exact E].
        apply Qleb_true in Hle. congruence. }
      match goal with
      | |- exists h', bind (Field.fillCache_while ?f ?h1 dTime) _ = _ =>
          destruct (@Field_while_direction dTime rest r1 h1 f eq_refl eq_refl Hch1
                      ltac:(cbn; lia)
                      ltac:(cbn [Field.itsCachedStartTime Field.itsCachedStopTime];
                            rewrite Hlt; unfold Qltb; unfold Qleb in E2;
                            rewrite E2; reflexivity))
            as [h' [Hw Hd]]
      end.
      rewrite Hw. cbn [bind]. rewrite Hd. eexists. cbn [directionAt].
      replace (Qeqb (Field.TIME r0) dTime) with false; [reflexivity |].
      symmetry. destruct (Qeqb (Field.TIME r0) dTime) eqn:E3; [| reflexivity].
      apply Qeqb_true in E3. apply Qleb_true in Hle.
      assert (Qleb dTime (Field.TIME r0) = true)
        by (apply Qleb_true; rewrite E3; apply Qle_refl).
      congruence.
Qed.

Lemma Field_first_lookup_witness :
  exists h h',
    Field.make Sample.fieldTable = Ok h /\
    Field.getReferenceDir h 5 = Ok ((3, 0), h').
Proof.
  destruct (Field.make Sample.fieldTable) as [h | e] eqn:Hm; [| vm_compute in Hm; discriminate].
  assert (Hch : timeChanges Sample.fieldTable).
  { cbn. repeat split; intros H; vm_compute in H; discriminate. }
  destruct (proj2 (@Field_first_lookup_by_time _ _ _ h 5 Hm Hch)
                  ltac:(vm_compute; discriminate)) as [h' Hh'].
  exists h, h'. split; [reflexivity | exact Hh'].
Defined.

Close Scope Q_scope.

(** ** Cubes written back and read again *)

Section WriteRead.

Variable backw : Q -> Field.MDirection -> Q -> Q.

Lemma set_table_same (it : TableConstDataIterator) : set_table_ (table_ it) it = it.
Proof. destruct it; reflexivity. Qed.

Section Column.

Variable T : Type.
Variable col : Row -> Array T.
Variable setcol : Array T -> Row -> Row.
Hypothesis col_setcol : forall a r, col (setcol a r) = a.
Hypothesis setcol_col : forall r, setcol (col r) r = r.
Hypothesis setcol_setcol : forall a b r, setcol a (setcol b r) = setcol a r.

(** One row written. *)
Lemma writeCube_row_effect (cube : Cube T) (nChan startChan row : nat)
    (it it' : TableConstDataIterator) :
  writeCube_row col setcol cube nChan startChan row it = Ok it' ->
  exists n r a,
    nth_error (itsCurrentIteration it) (itsCurrentTopRow it + row) = Some n /\
    nth_error (rows (table_ it)) n = Some r /\
    (forall pol ch, ch < nChan -> elem a pol (startChan + ch) = at_ cube row ch pol) /\
    it' = set_table_ {| rows := list_set n (setcol a r) (rows (table_ it));
                        hasFIELD_ID := hasFIELD_ID (table_ it);
                        hasFLAG_ROW := hasFLAG_ROW (table_ it) |} it.
Proof.
  unfold writeCube_row. intros H.
  apply bind_Ok in H. destruct H as [rs [_ H]].
  apply bind_Ok in H. destruct H as [u1 [_ H]].
  apply bind_Ok in H. destruct H as [u2 [_ H]].
  apply bind_Ok in H. destruct H as [t' [Hup H]].
  injection H as <-. unfold updateRow in Hup.
  destruct (nth_error (itsCurrentIteration it) (itsCurrentTopRow it + row)) as [n |] eqn:Hn;
    [| discriminate].
  destruct (nth_error (rows (table_ it)) n) as [r |] eqn:Hr; [| discriminate].
  apply bind_Ok in Hup. destruct Hup as [r' [Hr' Hup]]. injection Hup as <-.
  apply bind_Ok in Hr'. destruct Hr' as [a [Ha Hr']]. injection Hr' as <-.
  exists n, r, a. split; [reflexivity |]. split; [exact Hr |]. split; [| reflexivity].
  match type of Ha with (if ?b then _ else _) = _ => destruct b eqn:Hus end.
  - unfold putSlice in Ha.
    match type of Ha with (if ?b then _ else _) = _ => destruct b end; [| discriminate].
    injection Ha as <-. intros pol ch Hch. cbn [elem].
    replace (Nat.leb startChan (startChan + ch)) with true
      by (symmetry; apply Nat.leb_le; lia).
    replace (Nat.ltb (startChan + ch) (startChan + nChan)) with true
      by (symmetry; apply Nat.ltb_lt; lia).
    cbn [andb]. f_equal. lia.
  - unfold put in Ha. injection Ha as <-. intros pol ch Hch. cbn [elem].
    apply orb_false_iff in Hus. destruct Hus as [H0 _].
    apply negb_false_iff in H0. apply Nat.eqb_eq in H0. subst startChan.
    reflexivity.
Qed.

(** The rows written by the loop, and the rows it leaves alone. *)
Lemma writeCube_loop_effect (cube : Cube T) (nChan startChan : nat) (todo : nat) :
  forall (row : nat) (it it' : TableConstDataIterator),
    NoDup (itsCurrentIteration it) ->
    writeCube_loop col setcol cube nChan startChan row todo it = Ok it' ->
    (exists t', it' = set_table_ t' it) /\
    length (rows (table_ it')) = length (rows (table_ it)) /\
    hasFLAG_ROW (table_ it') = hasFLAG_ROW (table_ it) /\
    (forall k, row <= k < row + todo -> holdsRow col it' cube nChan startChan k) /\
    (forall m,
       (forall k, row <= k < row + todo ->
          nth_error (itsCurrentIteration it) (itsCurrentTopRow it + k) <> Some m) ->
       nth_error (rows (table_ it')) m = nth_error (rows (table_ it)) m) /\
    (forall m r r',
       nth_error (rows (table_ it)) m = Some r ->
       nth_error (rows (table_ it')) m = Some r' -> sameBut col setcol r r').
Proof.
  induction todo as [| todo IH]; intros row it it' Hnd H.
  - cbn [writeCube_loop] in H. injection H as <-.
    split; [exists (table_ it); symmetry; apply set_table_same |].
    split; [reflexivity |]. split; [reflexivity |]. split; [intros k Hk; lia |].
    split; [reflexivity |]. intros m r r' Hr Hr'. rewrite Hr in Hr'.
    injection Hr' as <-. unfold sameBut. symmetry. apply setcol_col.
  - cbn [writeCube_loop] in H. apply bind_Ok in H. destruct H as [it1 [Hrow H]].
    apply writeCube_row_effect in Hrow.
    destruct Hrow as [n [r [a [Hn [Hr [Ha Hit1]]]]]].
    assert (Hview : itsCurrentIteration it1 = itsCurrentIteration it)
      by (rewrite Hit1; reflexivity).
    assert (Htop : itsCurrentTopRow it1 = itsCurrentTopRow it)
      by (rewrite Hit1; reflexivity).
    assert (Hrows1 : rows (table_ it1) = list_set n (setcol a r) (rows (table_ it)))
      by (rewrite Hit1; reflexivity).
    assert (Hfr1 : hasFLAG_ROW (table_ it1) = hasFLAG_ROW (table_ it))
      by (rewrite Hit1; reflexivity).
    assert (Hlt : n < length (rows (table_ it)))
      by (apply nth_error_Some; congruence).
    destruct (IH (S row) it1 it' ltac:(rewrite Hview; exact Hnd) H)
      as [[t' Ht'] [Hlen [Hfr [Hheld [Hframe Hsame]]]]].
    split; [exists t'; rewrite Ht', Hit1; reflexivity |].
    split; [rewrite Hlen, Hrows1; apply length_list_set |].
    split; [rewrite Hfr; exact Hfr1 |].
    split; [| split].
    + intros k Hk. destruct (Nat.eq_dec k row) as [-> | Hne].
      * exists n, (setcol a r).
        assert (Hv' : itsCurrentIteration it' = itsCurrentIteration it)
          by (rewrite Ht', Hit1; reflexivity).
        assert (Ht'' : itsCurrentTopRow it' = itsCurrentTopRow it)
          by (rewrite Ht', Hit1; reflexivity).
        rewrite Hv', Ht''. split; [exact Hn |]. split.
        -- rewrite Hframe.
           ++ rewrite Hrows1. apply nth_error_list_set_eq. exact Hlt.
           ++ intros k Hk' Hk''. rewrite Hview, Htop in Hk''.
              rewrite <- Hn in Hk''.
              apply (proj1 (NoDup_nth_error (itsCurrentIteration it)) Hnd) in Hk''.
              ** lia.
              ** apply nth_error_Some. rewrite Hk'', Hn. discriminate.
        -- intros pol ch Hch. rewrite col_setcol. apply Ha. exact Hch.
      * apply Hheld. lia.
    + intros m Hm. rewrite Hframe.
      * rewrite Hrows1. apply nth_error_list_set_neq.
        intros ->. apply (Hm row); [lia | exact Hn].
      * intros k Hk. rewrite Hview, Htop. apply Hm. lia.
    + intros m r0 r' Hr0 Hr'.
      destruct (Nat.eq_dec m n) as [-> | Hne].
      * rewrite Hr in Hr0. injection Hr0 as <-.
        assert (H1 : nth_error (rows (table_ it1)) n = Some (setcol a r))
          by (rewrite Hrows1; apply nth_error_list_set_eq; exact Hlt).
        specialize (Hsame n _ _ H1 Hr'). unfold sameBut in *.
        rewrite setcol_setcol in Hsame. exact Hsame.
      * apply (Hsame m r0 r'); [| exact Hr'].
        rewrite Hrows1, nth_error_list_set_neq by exact Hne. exact Hr0.
Qed.

End Column.

(** The members that the channel range does not touch. *)
Lemma frequencyRange_chunk (it it' : TableConstDataIterator) :
  frequencyRange backw it = Ok it' -> sameChunk it it'.
Proof.
  unfold frequencyRange. intros H.
  apply bind_Ok in H. destruct H as [u [_ H]].
  apply bind_Ok in H. destruct H as [[velDir it0] [Hd H]]. cbn [fst snd] in H.
  apply bind_Ok in H. destruct H as [epoch [_ H]].
  apply bind_Ok in H. destruct H as [spw [_ H]].
  apply bind_Ok in H. destruct H as [dataFreqs [_ H]].
  assert (H0 : sameChunk it it0).
  { apply velocityDirection_state in Hd.
    destruct Hd as [-> | [f ->]]; repeat split. }
  destruct H0 as [H1 [H2 [H3 [H4 H5]]]].
  destruct (Nat.ltb 1 (length dataFreqs)).
  - apply bind_Ok in H. destruct H as [u' [_ H]].
    match type of H with (if ?b then _ else _) = _ => destruct b end;
      [| match type of H with (if ?b then _ else _) = _ => destruct b end];
      injection H as <-; repeat split; assumption.
  - injection H as <-. repeat split; assumption.
Qed.

Lemma getChannelRange_selected (it it1 : TableConstDataIterator) (r : nat * nat) :
  getChannelRange backw it = Ok (r, it1) ->
  itsChannelsSelected it1 = true /\
  r = (itsNumberOfChannelsSelected it1, itsStartChannelSelected it1) /\
  sameChunk it it1.
Proof.
  unfold getChannelRange. intros H.
  apply bind_Ok in H. destruct H as [it2 [H2 H]]. injection H as <- <-.
  split; [| split; [reflexivity |]].
  - destruct (itsChannelsSelected it) eqn:E; cbn [negb] in H2.
    + injection H2 as <-. exact E.
    + apply bind_Ok in H2. destruct H2 as [it3 [_ H2]]. injection H2 as <-. reflexivity.
  - destruct (itsChannelsSelected it) eqn:E; cbn [negb] in H2.
    + injection H2 as <-. repeat split.
    + apply bind_Ok in H2. destruct H2 as [it3 [H3 H2]]. injection H2 as <-.
      destruct (frequenciesSelected (itsSelector (set_itsFlagData true it))).
      * apply frequencyRange_chunk in H3. exact H3.
      * injection H3 as <-. repeat split.
Qed.

(** What the whole write does to the table. *)
Lemma writeCube_effect (T : Type) (col : Row -> Array T)
    (setcol : Array T -> Row -> Row) (cube : Cube T) (it it' : TableConstDataIterator) :
  (forall a r, col (setcol a r) = a) ->
  (forall r, setcol (col r) r = r) ->
  (forall a b r, setcol a (setcol b r) = setcol a r) ->
  NoDup (itsCurrentIteration it) ->
  writeCube backw col setcol cube it = Ok it' ->
  itsChannelsSelected it' = true /\
  sameChunk it (set_table_ (table_ it) it') /\
  nrow cube = itsNumberOfRows it' /\
  ncolumn cube = itsNumberOfChannelsSelected it' /\
  nplane cube = itsNumberOfPols it' /\
  length (rows (table_ it')) = length (rows (table_ it)) /\
  hasFLAG_ROW (table_ it') = hasFLAG_ROW (table_ it) /\
  (forall k, k < nrow cube ->
     holdsRow col it' cube (itsNumberOfChannelsSelected it')
              (itsStartChannelSelected it') k) /\
  (forall m,
     (forall k, k < nrow cube ->
        nth_error (itsCurrentIteration it) (itsCurrentTopRow it + k) <> Some m) ->
     nth_error (rows (table_ it')) m = nth_error (rows (table_ it)) m) /\
  (forall m r r',
     nth_error (rows (table_ it)) m = Some r ->
     nth_error (rows (table_ it')) m = Some r' -> sameBut col setcol r r').
Proof.
  intros L1 L2 L3 Hnd H. unfold writeCube, nChannel, startChannel in H.
  apply bind_Ok in H. destruct H as [[nChan it1] [Hn H]].
  apply bind_Ok in Hn. destruct Hn as [[r1 it1'] [Hr1 Hn]].
  cbn [fst snd] in Hn. injection Hn as <- <-.
  apply getChannelRange_selected in Hr1. destruct Hr1 as [Hsel [-> Hch]].
  cbn [fst snd] in H.
  rewrite (getChannelRange_cached backw it1' Hsel) in H. cbn [bind fst snd] in H.
  apply bind_Ok in H. destruct H as [u [Hshape H]]. apply check_Ok in Hshape.
  apply andb_true_iff in Hshape. destruct Hshape as [Hshape Hp].
  apply andb_true_iff in Hshape. destruct Hshape as [Hr Hc].
  apply Nat.eqb_eq in Hr. apply Nat.eqb_eq in Hc. apply Nat.eqb_eq in Hp.
  destruct Hch as [Ht [Hv [Htop [Hrows Hpols]]]].
  apply (@writeCube_loop_effect T col setcol L1 L2 L3) in H; [| rewrite Hv; exact Hnd].
  destruct H as [[t' ->] [Hlen [Hfr [Hheld [Hframe Hsame]]]]].
  cbn [itsChannelsSelected set_table_ itsNumberOfRows itsNumberOfChannelsSelected
       itsStartChannelSelected itsNumberOfPols table_] in *.
  split; [exact Hsel |]. split; [repeat split; assumption |].
  split; [exact Hr |]. split; [exact Hc |]. split; [exact Hp |].
  split; [rewrite Hlen, Ht; reflexivity |].
  split; [rewrite Hfr, Ht; reflexivity |]. split; [| split].
  - intros k Hk. apply Hheld. lia.
  - intros m Hm. rewrite Hframe, Ht; [reflexivity |].
    intros k Hk. rewrite Hv, Htop. apply Hm. lia.
  - intros m r r' Hr0 Hr'. apply (Hsame m r r'); [rewrite Ht; exact Hr0 | exact Hr'].
Qed.

Lemma DATA_setDATA (a : Array Complex) (r : Row) : DATA (setDATA a r) = a.
Proof. reflexivity. Qed.

Lemma setDATA_DATA (r : Row) : setDATA (DATA r) r = r.
Proof. destruct r; reflexivity. Qed.

Lemma setDATA_setDATA (a b : Array Complex) (r : Row) :
  setDATA a (setDATA b r) = setDATA a r.
Proof. reflexivity. Qed.

Lemma FLAG_setFLAG (a : Array bool) (r : Row) : FLAG (setFLAG a r) = a.
Proof. reflexivity. Qed.

Lemma setFLAG_FLAG (r : Row) : setFLAG (FLAG r) r = r.
Proof. destruct r; reflexivity. Qed.

Lemma setFLAG_setFLAG (a b : Array bool) (r : Row) :
  setFLAG a (setFLAG b r) = setFLAG a r.
Proof. reflexivity. Qed.

Lemma resize_shape (T : Type) (dflt : T) (c : Cube T) (n m k : nat) :
  nrow (resize dflt c n m k) = n /\
  ncolumn (resize dflt c n m k) = m /\
  nplane (resize dflt c n m k) = k.
Proof.
  unfold resize.
  match goal with |- context [if ?b then _ else _] => destruct b eqn:E end.
  - apply andb_true_iff in E. destruct E as [E E3].
    apply andb_true_iff in E. destruct E as [E1 E2].
    apply Nat.eqb_eq in E1. apply Nat.eqb_eq in E2. apply Nat.eqb_eq in E3.
    repeat split; assumption.
  - repeat split.
Qed.

(** One row of visibilities read. *)
Lemma fillCube_row_DATA (it : TableConstDataIterator) (nChan startChan row : nat)
    (cube cube' : Cube Complex) :
  fillCube_row (WholeRowFlagger_any Complex) DATA it nChan startChan row cube = Ok cube' ->
  exists rd,
    cell (table_ it) (itsCurrentIteration it) (row + itsCurrentTopRow it) = Ok rd /\
    cube' = copy_row (fun pol chan => elem (DATA rd) pol (startChan + chan))
                     row nChan (itsNumberOfPols it) cube.
Proof.
  unfold fillCube_row. intros H.
  apply bind_Ok in H. destruct H as [rs [_ H]].
  apply bind_Ok in H. destruct H as [u1 [_ H]].
  apply bind_Ok in H. destruct H as [u2 [_ H]].
  apply bind_Ok in H. destruct H as [u3 [_ H]].
  cbn [copyRequired WholeRowFlagger_any bind fst snd] in H.
  apply bind_Ok in H. destruct H as [rd [Hrd H]].
  apply bind_Ok in H. destruct H as [buf [Hbuf H]].
  injection H as <-. exists rd. split; [exact Hrd |].
  unfold getSlice in Hbuf.
  match type of Hbuf with (if ?b then _ else _) = _ => destruct b end; [| discriminate].
  injection Hbuf as <-. reflexivity.
Qed.

Lemma fillCube_loop_DATA (it : TableConstDataIterator) (nChan startChan : nat)
    (todo : nat) :
  forall (row : nat) (cube cube' : Cube Complex),
    fillCube_loop (WholeRowFlagger_any Complex) DATA it nChan startChan row todo cube
    = Ok cube' ->
    nrow cube' = nrow cube /\ ncolumn cube' = ncolumn cube /\ nplane cube' = nplane cube /\
    (forall k ch pol, row <= k < row + todo -> ch < nChan -> pol < itsNumberOfPols it ->
       exists rd,
         cell (table_ it) (itsCurrentIteration it) (k + itsCurrentTopRow it) = Ok rd /\
         at_ cube' k ch pol = elem (DATA rd) pol (startChan + ch)) /\
    (forall k ch pol, k < row -> at_ cube' k ch pol = at_ cube k ch pol).
Proof.
  induction todo as [| todo IH]; intros row cube cube' H.
  - cbn [fillCube_loop] in H. injection H as <-.
    repeat split; try reflexivity. intros k ch pol Hk. lia.
  - cbn [fillCube_loop] in H. apply bind_Ok in H. destruct H as [cube1 [Hrow H]].
    apply fillCube_row_DATA in Hrow. destruct Hrow as [rd [Hrd ->]].
    destruct (IH (S row) _ _ H) as [Hn [Hc [Hp [Hread Hkeep]]]].
    cbn [copy_row nrow ncolumn nplane] in Hn, Hc, Hp.
    split; [exact Hn |]. split; [exact Hc |]. split; [exact Hp |]. split.
    + intros k ch pol Hk Hch Hpol. destruct (Nat.eq_dec k row) as [-> | Hne].
      * exists rd. split; [exact Hrd |]. rewrite Hkeep by lia.
        cbn [copy_row at_]. rewrite Nat.eqb_refl.
        replace (Nat.ltb ch nChan) with true by (symmetry; apply Nat.ltb_lt; lia).
        replace (Nat.ltb pol (itsNumberOfPols it)) with true
          by (symmetry; apply Nat.ltb_lt; lia).
        reflexivity.
      * apply Hread; lia.
    + intros k ch pol Hk. rewrite Hkeep by lia. cbn [copy_row at_].
      replace (Nat.eqb k row) with false by (symmetry; apply Nat.eqb_neq; lia).
      reflexivity.
Qed.

(** One row of flags read: the row is set as a whole when the row of the
    group at its number is flagged as a whole, and copied otherwise. *)
Lemma fillCube_row_FLAG (it : TableConstDataIterator) (nChan startChan row : nat)
    (cube cube' : Cube bool) :
  itsCurrentTopRow it = 0 \/ hasFLAG_ROW (table_ it) = false ->
  fillCube_row WholeRowFlagger_Bool FLAG it nChan startChan row cube = Ok cube' ->
  nrow cube' = nrow cube /\ ncolumn cube' = ncolumn cube /\ nplane cube' = nplane cube /\
  (forall k ch pol, k <> row -> at_ cube' k ch pol = at_ cube k ch pol) /\
  ((hasFLAG_ROW (table_ it) = true /\
    (exists r, cell (table_ it) (itsCurrentIteration it) (row + itsCurrentTopRow it)
               = Ok r /\
               FLAG_ROW r = true) /\
    forall ch pol, at_ cube' row ch pol = true) \/
   (exists rd,
      cell (table_ it) (itsCurrentIteration it) (row + itsCurrentTopRow it) = Ok rd /\
      forall ch pol, ch < nChan -> pol < itsNumberOfPols it ->
        at_ cube' row ch pol = elem (FLAG rd) pol (startChan + ch))).
Proof.
  unfold fillCube_row. intros Htop H.
  apply bind_Ok in H. destruct H as [rs [_ H]].
  apply bind_Ok in H. destruct H as [u1 [_ H]].
  apply bind_Ok in H. destruct H as [u2 [_ H]].
  apply bind_Ok in H. destruct H as [u3 [_ H]].
  apply bind_Ok in H. destruct H as [[b c] [Hc H]]. cbn [fst snd] in H.
  assert (Hcopy : b = true -> c = cube ->
            nrow cube' = nrow cube /\ ncolumn cube' = ncolumn cube /\
            nplane cube' = nplane cube /\
            (forall k ch pol, k <> row -> at_ cube' k ch pol = at_ cube k ch pol) /\
            exists rd,
              cell (table_ it) (itsCurrentIteration it) (row + itsCurrentTopRow it)
              = Ok rd /\
              forall ch pol, ch < nChan -> pol < itsNumberOfPols it ->
                at_ cube' row ch pol = elem (FLAG rd) pol (startChan + ch)).
  { intros -> ->. apply bind_Ok in H. destruct H as [rd [Hrd H]].
    apply bind_Ok in H. destruct H as [buf [Hbuf H]]. injection H as <-.
    unfold getSlice in Hbuf.
    match type of Hbuf with (if ?b then _ else _) = _ => destruct b end; [| discriminate].
    injection Hbuf as <-. cbn [copy_row nrow ncolumn nplane at_].
    split; [reflexivity |]. split; [reflexivity |]. split; [reflexivity |]. split.
    - intros k ch pol Hk.
      replace (Nat.eqb k row) with false by (symmetry; apply Nat.eqb_neq; exact Hk).
      reflexivity.
    - exists rd. split; [exact Hrd |]. intros ch pol Hch Hpol.
      rewrite Nat.eqb_refl.
      replace (Nat.ltb ch nChan) with true by (symmetry; apply Nat.ltb_lt; lia).
      replace (Nat.ltb pol (itsNumberOfPols it)) with true
        by (symmetry; apply Nat.ltb_lt; lia).
      reflexivity. }
  cbn [copyRequired WholeRowFlagger_Bool] in Hc.
  destruct (hasFLAG_ROW (table_ it)) eqn:Hfr.
  - apply bind_Ok in Hc. destruct Hc as [r [Hr Hc]].
    destruct (FLAG_ROW r) eqn:Hrf.
    + destruct Htop as [Htop | Hno]; [| discriminate].
      apply bind_Ok in Hc. destruct Hc as [c' [Hset Hc]]. injection Hc as <- <-.
      injection H as <-. unfold set_yzPlane in Hset.
      rewrite Htop, Nat.add_0_r in Hset.
      destruct (Nat.leb (nrow cube) row); [discriminate |]. injection Hset as <-.
      cbn [nrow ncolumn nplane at_].
      split; [reflexivity |]. split; [reflexivity |]. split; [reflexivity |]. split.
      * intros k ch pol Hk.
        replace (Nat.eqb k row) with false by (symmetry; apply Nat.eqb_neq; exact Hk).
        reflexivity.
      * left. split; [reflexivity |]. split; [exists r; split; assumption |].
        intros ch pol. rewrite Nat.eqb_refl. reflexivity.
    + injection Hc as <- <-.
      destruct (Hcopy eq_refl eq_refl) as [H1 [H2 [H3 [H4 H5]]]].
      repeat (split; [assumption |]). right. exact H5.
  - injection Hc as <- <-.
    destruct (Hcopy eq_refl eq_refl) as [H1 [H2 [H3 [H4 H5]]]].
    repeat (split; [assumption |]). right. exact H5.
Qed.

Lemma fillCube_loop_FLAG (it : TableConstDataIterator) (nChan startChan : nat)
    (todo : nat) :
  itsCurrentTopRow it = 0 \/ hasFLAG_ROW (table_ it) = false ->
  forall (row : nat) (cube cube' : Cube bool),
    fillCube_loop WholeRowFlagger_Bool FLAG it nChan startChan row todo cube = Ok cube' ->
    nrow cube' = nrow cube /\ ncolumn cube' = ncolumn cube /\ nplane cube' = nplane cube /\
    (forall k ch pol, k < row -> at_ cube' k ch pol = at_ cube k ch pol) /\
    (forall k, row <= k < row + todo ->
       (hasFLAG_ROW (table_ it) = true /\
        (exists r, cell (table_ it) (itsCurrentIteration it) (k + itsCurrentTopRow it)
                   = Ok r /\
                   FLAG_ROW r = true) /\
        forall ch pol, at_ cube' k ch pol = true) \/
       (exists rd,
          cell (table_ it) (itsCurrentIteration it) (k + itsCurrentTopRow it) = Ok rd /\
          forall ch pol, ch < nChan -> pol < itsNumberOfPols it ->
            at_ cube' k ch pol = elem (FLAG rd) pol (startChan + ch))).
Proof.
  intros Htop. induction todo as [| todo IH]; intros row cube cube' H.
  - cbn [fillCube_loop] in H. injection H as <-.
    repeat split; try reflexivity. intros k Hk. lia.
  - cbn [fillCube_loop] in H. apply bind_Ok in H. destruct H as [cube1 [Hrow H]].
    apply (@fillCube_row_FLAG it nChan startChan row cube cube1 Htop) in Hrow. destruct Hrow as [R1 [R2 [R3 [R4 R5]]]].
    destruct (IH (S row) _ _ H) as [Hn [Hc [Hp [Hkeep Hread]]]].
    split; [congruence |]. split; [congruence |]. split; [congruence |]. split.
    + intros k ch pol Hk. rewrite Hkeep by lia. apply R4. lia.
    + intros k Hk. destruct (Nat.eq_dec k row) as [-> | Hne]; [| apply Hread; lia].
      destruct R5 as [[Hf [Hr Hall]] | [rd [Hrd Hall]]].
      * left. split; [exact Hf |]. split; [exact Hr |].
        intros ch pol. rewrite Hkeep by lia. apply Hall.
      * right. exists rd. split; [exact Hrd |].
        intros ch pol Hch Hpol. rewrite Hkeep by lia. apply Hall; assumption.
Qed.

(** The rows of the new flag cube that pass the check against FLAG_ROW. *)
Lemma checkRowFlags_Ok (it : TableConstDataIterator) (flags : Cube bool) (todo : nat) :
  forall row,
    checkRowFlags it flags row todo = Ok tt ->
    forall k r, row <= k < row + todo ->
      cell (table_ it) (itsCurrentIteration it) (k + itsCurrentTopRow it) = Ok r ->
      FLAG_ROW r = true ->
      forall ch pol, ch < ncolumn flags -> pol < nplane flags ->
        at_ flags k ch pol = true.
Proof.
  induction todo as [| todo IH]; intros row H k r Hk Hr Hfr ch pol Hch Hpol; [lia |].
  cbn [checkRowFlags] in H.
  apply bind_Ok in H. destruct H as [r0 [Hr0 H]].
  apply bind_Ok in H. destruct H as [u [Hchk H]].
  destruct (Nat.eq_dec k row) as [-> | Hne].
  - rewrite Hr in Hr0. injection Hr0 as <-. rewrite Hfr in Hchk.
    apply check_Ok in Hchk. apply negb_true_iff in Hchk.
    destruct (at_ flags row ch pol) eqn:E; [reflexivity |].
    assert (Hone : oneUnflagged flags row = true)
      by (apply oneUnflagged_true; exists ch, pol; repeat split; assumption).
    congruence.
  - apply (IH (S row) H k r ltac:(lia) Hr Hfr ch pol Hch Hpol).
Qed.

(** X22: writing the visibilities of a chunk back changes the DATA cells of
    the rows of the chunk only: every other row of the table is as before,
    no row is added or removed, and in every row all columns but DATA are
    as before. *)
Theorem writeOriginalVis_touches_DATA_of_chunk_only
    (vis : Cube Complex) (it it' : TableConstDataIterator) :
  NoDup (itsCurrentIteration it) ->
  writeOriginalVis backw vis it = Ok it' ->
  length (rows (table_ it')) = length (rows (table_ it)) /\
  (forall m,
     (forall k, k < itsNumberOfRows it ->
        nth_error (itsCurrentIteration it) (itsCurrentTopRow it + k) <> Some m) ->
     nth_error (rows (table_ it')) m = nth_error (rows (table_ it)) m) /\
  (forall m r r',
     nth_error (rows (table_ it)) m = Some r ->
     nth_error (rows (table_ it')) m = Some r' ->
     r' = setDATA (DATA r') r).
Proof.
  intros Hnd H.
  destruct (@writeCube_effect _ DATA setDATA vis it it'
              DATA_setDATA setDATA_DATA setDATA_setDATA Hnd H)
    as [_ [Hch [Hr [_ [_ [Hlen [_ [_ [Hframe Hsame]]]]]]]]].
  destruct Hch as [_ [_ [_ [Hrows _]]]]. cbn [itsNumberOfRows set_table_] in Hrows.
  split; [exact Hlen |]. split; [| exact Hsame].
  intros m Hm. apply Hframe. intros k Hk. apply Hm. lia.
Qed.

(** X23: the visibilities written back for a chunk are the visibilities
    read for it afterwards, element by element, whatever cube is handed in
    to be filled. *)
Theorem visibilities_written_are_read_back
    (vis buffer vis' : Cube Complex) (it it' it'' : TableConstDataIterator) :
  NoDup (itsCurrentIteration it) ->
  writeOriginalVis backw vis it = Ok it' ->
  fillVisibility backw buffer it' = Ok (vis', it'') ->
  nrow vis' = nrow vis /\ ncolumn vis' = ncolumn vis /\ nplane vis' = nplane vis /\
  forall row ch pol,
    row < nrow vis -> ch < ncolumn vis -> pol < nplane vis ->
    at_ vis' row ch pol = at_ vis row ch pol.
Proof.
  intros Hnd Hw Hr.
  destruct (@writeCube_effect _ DATA setDATA vis it it'
              DATA_setDATA setDATA_DATA setDATA_setDATA Hnd Hw)
    as [Hsel [_ [Hrows [Hcols [Hpols [_ [_ [Hheld _]]]]]]]].
  unfold fillVisibility, fillCube, nChannel, startChannel in Hr.
  rewrite (getChannelRange_cached backw it' Hsel) in Hr. cbn [bind fst snd] in Hr.
  rewrite (getChannelRange_cached backw it' Hsel) in Hr. cbn [bind fst snd] in Hr.
  apply bind_Ok in Hr. destruct Hr as [cube' [Hloop Hr]]. injection Hr as <- <-.
  apply fillCube_loop_DATA in Hloop.
  destruct Hloop as [Hn [Hc [Hp [Hread _]]]].
  destruct (resize_shape (0%Q, 0%Q) buffer (itsNumberOfRows it')
              (itsNumberOfChannelsSelected it') (itsNumberOfPols it')) as [D1 [D2 D3]].
  split; [rewrite Hrows; exact (eq_trans Hn D1) |].
  split; [rewrite Hcols; exact (eq_trans Hc D2) |].
  split; [rewrite Hpols; exact (eq_trans Hp D3) |].
  intros row ch pol Hrow Hch Hpol.
  destruct (Hread row ch pol ltac:(lia) ltac:(lia) ltac:(lia)) as [rd [Hcell ->]].
  destruct (Hheld row Hrow) as [n [r [Hview [Hrow' Helem]]]].
  unfold cell in Hcell. rewrite (Nat.add_comm row), Hview, Hrow' in Hcell.
  injection Hcell as <-. apply Helem. lia.
Qed.

(** X25: the flags written back for a chunk are the flags read for it
    afterwards, element by element, when the chunk starts at the first row
    of its group or the table has no FLAG_ROW column, and the data are not
    flagged as a whole for the frequency selected. *)
Theorem flags_written_are_read_back
    (flags buffer flags' : Cube bool) (it it' it'' : TableConstDataIterator) :
  NoDup (itsCurrentIteration it) ->
  itsCurrentTopRow it = 0 \/ hasFLAG_ROW (table_ it) = false ->
  writeOriginalFlag backw flags it = Ok it' ->
  itsFlagData it' = false ->
  fillFlag backw buffer it' = Ok (flags', it'') ->
  nrow flags' = nrow flags /\ ncolumn flags' = ncolumn flags /\
  nplane flags' = nplane flags /\
  forall row ch pol,
    row < nrow flags -> ch < ncolumn flags -> pol < nplane flags ->
    at_ flags' row ch pol = at_ flags row ch pol.
Proof.
  intros Hnd Htop Hw Hfd Hr. unfold writeOriginalFlag in Hw.
  apply bind_Ok in Hw. destruct Hw as [[] [Hchk Hw]].
  destruct (@writeCube_effect _ FLAG setFLAG flags it it'
              FLAG_setFLAG setFLAG_FLAG setFLAG_setFLAG Hnd Hw)
    as [Hsel [Hch [Hrows [Hcols [Hpols [Hlen [Hfr [Hheld [_ Hsame]]]]]]]]].
  destruct Hch as [_ [Hv [Ht _]]]. cbn [itsCurrentIteration itsCurrentTopRow set_table_] in Hv, Ht.
  unfold fillFlag in Hr. apply bind_Ok in Hr. destruct Hr as [[cube1 it1] [Hfill Hr]].
  unfold fillCube, nChannel, startChannel in Hfill.
  rewrite (getChannelRange_cached backw it' Hsel) in Hfill. cbn [bind fst snd] in Hfill.
  rewrite (getChannelRange_cached backw it' Hsel) in Hfill. cbn [bind fst snd] in Hfill.
  apply bind_Ok in Hfill. destruct Hfill as [cube' [Hloop Hfill]].
  injection Hfill as <- <-. cbn [fst snd] in Hr.
  rewrite Hfd in Hr. injection Hr as <- <-.
  apply fillCube_loop_FLAG in Hloop; [| rewrite Ht, Hfr; exact Htop].
  destruct Hloop as [Hn [Hc [Hp [_ Hread]]]].
  destruct (resize_shape false buffer (itsNumberOfRows it')
              (itsNumberOfChannelsSelected it') (itsNumberOfPols it')) as [D1 [D2 D3]].
  split; [rewrite Hrows; exact (eq_trans Hn D1) |].
  split; [rewrite Hcols; exact (eq_trans Hc D2) |].
  split; [rewrite Hpols; exact (eq_trans Hp D3) |].
  intros row ch pol Hrow Hch Hpol.
  destruct (Hread row ltac:(lia)) as [[Hf [[r [Hcell Hrf]] Hall]] | [rd [Hcell Hall]]].
  - rewrite Hall. symmetry. rewrite Hfr in Hf.
    destruct Htop as [Htop | Hno]; [| congruence].
    rewrite Hf in Hchk.
    unfold cell in Hcell. rewrite Hv, Ht, Htop, Nat.add_0_r in Hcell.
    destruct (nth_error (itsCurrentIteration it) row) as [n |] eqn:En; [| discriminate].
    destruct (nth_error (rows (table_ it')) n) as [r' |] eqn:Er'; [| discriminate].
    injection Hcell as ->.
    destruct (nth_error (rows (table_ it)) n) as [r0 |] eqn:Er0.
    + pose proof (Hsame n r0 r Er0 Er') as Hsb. unfold sameBut in Hsb.
      assert (Hrf0 : FLAG_ROW r0 = true) by (rewrite Hsb in Hrf; exact Hrf).
      apply (@checkRowFlags_Ok it flags (nrow flags) 0 Hchk row r0 ltac:(lia));
        try assumption.
      unfold cell. rewrite Htop, Nat.add_0_r, En, Er0. reflexivity.
    + apply nth_error_None in Er0.
      assert (n < length (rows (table_ it'))) by (apply nth_error_Some; congruence).
      lia.
  - rewrite Hall by lia.
    destruct (Hheld row Hrow) as [n [r [Hview [Hrow' Helem]]]].
    unfold cell in Hcell. rewrite (Nat.add_comm row), Hview, Hrow' in Hcell.
    injection Hcell as <-. apply Helem. lia.
Qed.

End WriteRead.

Lemma writeOriginalVis_witness :
  exists it',
    writeOriginalVis Sample.sameFrame Sample.newVis Sample.flaggedChunk = Ok it' /\
    nth_error (rows (table_ it')) 0 = nth_error (rows (table_ Sample.flaggedChunk)) 0.
Proof.
  assert (Hnd : NoDup (itsCurrentIteration Sample.flaggedChunk)).
  { vm_compute. repeat constructor; cbn; intuition discriminate. }
  destruct (writeOriginalVis Sample.sameFrame Sample.newVis Sample.flaggedChunk)
    as [it' | e] eqn:Hw; [| vm_compute in Hw; discriminate].
  exists it'. split; [reflexivity |].
  apply (proj1 (proj2 (@writeOriginalVis_touches_DATA_of_chunk_only Sample.sameFrame
                         Sample.newVis Sample.flaggedChunk it' Hnd Hw))).
  intros k Hk. vm_compute in Hk.
  assert (k = 0 \/ k = 1) as [-> | ->] by lia; vm_compute; discriminate.
Defined.

Lemma visibilities_round_trip_witness :
  exists it' vis' it'',
    writeOriginalVis Sample.sameFrame Sample.newVis Sample.flaggedChunk = Ok it' /\
    fillVisibility Sample.sameFrame (emptyCube (0%Q, 0%Q)) it' = Ok (vis', it'') /\
    at_ vis' 1 0 1 = at_ Sample.newVis 1 0 1.
Proof.
  assert (Hnd : NoDup (itsCurrentIteration Sample.flaggedChunk)).
  { vm_compute. repeat constructor; cbn; intuition discriminate. }
  destruct (writeOriginalVis Sample.sameFrame Sample.newVis Sample.flaggedChunk)
    as [it' | e] eqn:Hw; [| vm_compute in Hw; discriminate].
  destruct (fillVisibility Sample.sameFrame (emptyCube (0%Q, 0%Q)) it')
    as [[vis' it''] | e] eqn:Hr.
  - exists it', vis', it''. split; [reflexivity |]. split; [exact Hr |].
    apply (@visibilities_written_are_read_back Sample.sameFrame Sample.newVis
             (emptyCube (0%Q, 0%Q)) vis' Sample.flaggedChunk it' it'' Hnd Hw Hr);
      cbn; lia.
  - exfalso. vm_compute in Hw. injection Hw as <-. vm_compute in Hr. discriminate.
Defined.

Lemma flags_round_trip_witness :
  exists it' flags' it'',
    writeOriginalFlag Sample.sameFrame Sample.newFlags Sample.flaggedFirstChunk = Ok it' /\
    fillFlag Sample.sameFrame (emptyCube false) it' = Ok (flags', it'') /\
    at_ flags' 1 0 1 = at_ Sample.newFlags 1 0 1.
Proof.
  assert (Hnd : NoDup (itsCurrentIteration Sample.flaggedFirstChunk)).
  { vm_compute. repeat constructor; cbn; intuition discriminate. }
  destruct (writeOriginalFlag Sample.sameFrame Sample.newFlags Sample.flaggedFirstChunk)
    as [it' | e] eqn:Hw; [| vm_compute in Hw; discriminate].
  assert (Hfd : itsFlagData it' = false).
  { vm_compute in Hw. injection Hw as <-. reflexivity. }
  destruct (fillFlag Sample.sameFrame (emptyCube false) it')
    as [[flags' it''] | e] eqn:Hr.
  - exists it', flags', it''. split; [reflexivity |]. split; [exact Hr |].
    apply (@flags_written_are_read_back Sample.sameFrame Sample.newFlags
             (emptyCube false) flags' Sample.flaggedFirstChunk it' it'' Hnd
             (or_introl eq_refl) Hw Hfd Hr);
      cbn; lia.
  - exfalso. vm_compute in Hw. injection Hw as <-. vm_compute in Hr. discriminate.
Defined.

(** ** Calibration solutions by time *)

Open Scope string_scope.

Section CalSolutionFacts.
Import TableCalSolutionSource.

Lemma searchBefore_S (col : nat -> Q) (time : Q) (n : nat) :
  searchBefore col time (S n)
  = if Qleb (col n) time then Return (Z.of_nat n, col n) else searchBefore col time n.
Proof.
  change (searchBefore col time (S n))
    with (if Qleb (col n) time then Return ((Z.of_nat (S n) - 1)%Z, col n)
          else searchBefore col time n).
  replace (Z.of_nat (S n) - 1)%Z with (Z.of_nat n) by lia. reflexivity.
Qed.

Lemma searchBefore_spec (col : nat -> Q) (time : Q) (n : nat) :
  (forall id cTime,
     searchBefore col time n = Return (id, cTime) <->
     exists row, row < n /\ id = Z.of_nat row /\ cTime = col row /\
                 Qleb (col row) time = true /\
                 forall j, row < j < n -> Qleb (col j) time = false) /\
  (searchBefore col time n
   = Throw (AskapError "Unable to find solution matching the time ") <->
   forall j, j < n -> Qleb (col j) time = false).
Proof.
  induction n as [| n [IH1 IH2]].
  - cbn [searchBefore]. split.
    + intros id cTime. split; [discriminate |]. intros [row [H _]]. lia.
    + split; [intros _ j Hj; lia | reflexivity].
  - rewrite searchBefore_S. destruct (Qleb (col n) time) eqn:E.
    + split.
      * intros id cTime. split.
        -- intros H. injection H as <- <-. exists n.
           split; [lia |]. split; [reflexivity |]. split; [reflexivity |].
           split; [exact E |]. intros j Hj. lia.
        -- intros [row [Hlt [Hid [Hc [Hle Hj]]]]].
           assert (row = n).
           { destruct (Nat.eq_dec row n) as [-> | Hne]; [reflexivity |].
             rewrite (Hj n ltac:(lia)) in E. discriminate. }
           subst row id cTime. reflexivity.
      * split; [discriminate |]. intros H. rewrite (H n ltac:(lia)) in E. discriminate.
    + split.
      * intros id cTime. rewrite IH1. split.
        -- intros [row [Hlt [Hid [Hc [Hle Hj]]]]]. exists row.
           split; [lia |]. split; [exact Hid |]. split; [exact Hc |]. split; [exact Hle |].
           intros j Hjn. destruct (Nat.eq_dec j n) as [-> | Hne]; [exact E |].
           apply Hj. lia.
        -- intros [row [Hlt [Hid [Hc [Hle Hj]]]]]. exists row.
           assert (row <> n) by (intros ->; congruence).
           split; [lia |]. split; [exact Hid |]. split; [exact Hc |]. split; [exact Hle |].
           intros j Hjn. apply Hj. lia.
      * rewrite IH2. split.
        -- intros H j Hj. destruct (Nat.eq_dec j n) as [-> | Hne]; [exact E |].
           apply H. lia.
        -- intros H j Hj. apply H. lia.
Qed.

Lemma searchBefore_total (col : nat -> Q) (time : Q) (n : nat) :
  (exists r, searchBefore col time n = Return r) \/
  searchBefore col time n = Throw (AskapError "Unable to find solution matching the time ").
Proof.
  induction n as [| n IH]; [right; reflexivity |]. rewrite searchBefore_S.
  destruct (Qleb (col n) time); [left; eexists; reflexivity | exact IH].
Qed.

(** X13: the solution found for a time is the last row of the table whose time
    stamp is not after that time; when every row is later, the look-up
    raises the error, and an empty table fails the assertion. *)
Theorem solutionIDBefore_last_row_not_after
    (tab : Table) (col : nat -> Q) (time : Q) :
  TIME tab = Some col ->
  (forall id cTime,
     solutionIDBefore tab time = Return (id, cTime) <->
     exists row, row < nrow tab /\ id = Z.of_nat row /\ cTime = col row /\
                 Qleb (col row) time = true /\
                 forall j, row < j < nrow tab -> Qleb (col j) time = false) /\
  (nrow tab <> 0 ->
   (solutionIDBefore tab time
    = Throw (AskapError "Unable to find solution matching the time ") <->
    forall j, j < nrow tab -> Qleb (col j) time = false)) /\
  (nrow tab = 0 -> solutionIDBefore tab time = Throw (Raised AssertError)).
Proof.
  intros Hcol. unfold solutionIDBefore, bufCol. rewrite Hcol.
  destruct (searchBefore_spec col time (nrow tab)) as [H1 H2].
  destruct (nrow tab) as [| n] eqn:Hn.
  - cbn [Nat.ltb Nat.leb check call andThen]. split; [| split].
    + intros id cTime. split; [discriminate |]. intros [row [H _]]. lia.
    + congruence.
    + reflexivity.
  - change (Nat.ltb 0 (S n)) with true. cbn [check call andThen].
    split; [exact H1 |]. split; [intros _; exact H2 | discriminate].
Qed.

Lemma solutionIDBefore_witness :
  TIME Sample.solutions = Some Sample.solutionTimes /\
  solutionIDBefore Sample.solutions 25 = Return (1%Z, 20%Q).
Proof.
  split; [reflexivity |].
  apply (proj1 (@solutionIDBefore_last_row_not_after
                  Sample.solutions Sample.solutionTimes 25 eq_refl)).
  exists 1. split; [cbn; lia |]. split; [reflexivity |]. split; [reflexivity |].
  split; [reflexivity |]. intros j Hj. cbn in Hj.
  assert (j = 2) as -> by lia. reflexivity.
Defined.

Lemma searchAfter_spec (col : nat -> Q) (time : Q) (todo : nat) :
  forall row,
    (forall id cTime,
       searchAfter col time row todo = Some (id, cTime) <->
       exists k, row <= k < row + todo /\ id = Z.of_nat k /\ cTime = col k /\
                 Qleb time (col k) = true /\
                 forall j, row <= j < k -> Qleb time (col j) = false) /\
    (searchAfter col time row todo = None <->
     forall j, row <= j < row + todo -> Qleb time (col j) = false).
Proof.
  induction todo as [| todo IH]; intros row.
  - cbn [searchAfter]. split.
    + intros id cTime. split; [discriminate |]. intros [k [H _]]. lia.
    + split; [intros _ j Hj; lia | reflexivity].
  - cbn [searchAfter]. destruct (IH (S row)) as [IH1 IH2].
    destruct (Qleb time (col row)) eqn:E.
    + split.
      * intros id cTime. split.
        -- intros H. injection H as <- <-. exists row.
           split; [lia |]. split; [reflexivity |]. split; [reflexivity |].
           split; [exact E |]. intros j Hj. lia.
        -- intros [k [Hk [Hid [Hc [Hle Hj]]]]].
           assert (k = row).
           { destruct (Nat.eq_dec k row) as [-> | Hne]; [reflexivity |].
             rewrite (Hj row ltac:(lia)) in E. discriminate. }
           subst k id cTime. reflexivity.
      * split; [discriminate |]. intros H. rewrite (H row ltac:(lia)) in E. discriminate.
    + split.
      * intros id cTime. rewrite IH1. split.
        -- intros [k [Hk [Hid [Hc [Hle Hj]]]]]. exists k.
           split; [lia |]. split; [exact Hid |]. split; [exact Hc |]. split; [exact Hle |].
           intros j Hjk. destruct (Nat.eq_dec j row) as [-> | Hne]; [exact E |].
           apply Hj. lia.
        -- intros [k [Hk [Hid [Hc [Hle Hj]]]]]. exists k.
           assert (k <> row) by (intros ->; congruence).
           split; [lia |]. split; [exact Hid |]. split; [exact Hc |]. split; [exact Hle |].
           intros j Hjk. apply Hj. lia.
      * rewrite IH2. split.
        -- intros H j Hj. destruct (Nat.eq_dec j row) as [-> | Hne]; [exact E |].
           apply H. lia.
        -- intros H j Hj. apply H. lia.
Qed.

Lemma Qleb_total (x y : Q) : Qleb x y = false -> Qleb y x = true.
Proof.
  unfold Qleb. intros H. apply Qle_bool_iff.
  destruct (Qlt_le_dec y x) as [Hlt | Hle].
  - apply Qlt_le_weak. exact Hlt.
  - apply Qle_bool_iff in Hle. congruence.
Qed.

(** X14: on a table with rows, the look-up of the first solution at or after a
    time never fails: it gives the first row whose time stamp is not before
    that time and, when every row is earlier, the last row of the table. *)
Theorem solutionIDAfter_first_row_not_before_or_last
    (tab : Table) (col : nat -> Q) (time : Q) :
  TIME tab = Some col ->
  nrow tab <> 0 ->
  exists row,
    solutionIDAfter tab time = Return (Z.of_nat row, col row) /\
    row < nrow tab /\
    ((Qleb time (col row) = true /\
      forall j, j < row -> Qleb time (col j) = false) \/
     (row = nrow tab - 1 /\
      forall j, j < nrow tab -> Qleb time (col j) = false)).
Proof.
  intros Hcol Hn. unfold solutionIDAfter, bufCol. rewrite Hcol.
  assert (Hlt : Nat.ltb 0 (nrow tab) = true) by (apply Nat.ltb_lt; lia).
  rewrite Hlt. cbn [check call andThen].
  destruct (searchAfter_spec col time (nrow tab) 0) as [H1 H2].
  destruct (searchAfter col time 0 (nrow tab)) as [[id cTime] |] eqn:E.
  - destruct (proj1 (H1 id cTime) eq_refl) as [k [Hk [Hid [Hc [Hle Hj]]]]].
    exists k. subst id cTime. split; [reflexivity |]. split; [lia |].
    left. split; [exact Hle |]. intros j Hjk. apply Hj. lia.
  - pose proof (proj1 H2 eq_refl) as Hall.
    exists (nrow tab - 1). split.
    + unfold solutionIDBefore, bufCol. rewrite Hcol, Hlt. cbn [check call andThen].
      apply (proj1 (searchBefore_spec col time (nrow tab))).
      exists (nrow tab - 1). split; [lia |]. split; [reflexivity |]. split; [reflexivity |].
      split; [apply Qleb_total; apply Hall; lia |]. intros j Hj. lia.
    + split; [lia |]. right. split; [reflexivity |]. intros j Hj. apply Hall. lia.
Qed.

Lemma solutionIDAfter_witness :
  exists row, solutionIDAfter Sample.solutions 15
              = Return (Z.of_nat row, Sample.solutionTimes row) /\
              row < 3.
Proof.
  destruct (@solutionIDAfter_first_row_not_before_or_last
              Sample.solutions Sample.solutionTimes 15 eq_refl
              ltac:(discriminate)) as [row [H1 [H2 _]]].
  exists row. split; [exact H1 | exact H2].
Defined.

Lemma Qleb_refl (x : Q) : Qleb x x = true.
Proof. unfold Qleb. apply Qle_bool_iff. apply Qle_refl. Qed.

(** X15: a new solution gets the next row number as its ID, which is not
    accepted as a solution ID before and is accepted afterwards; the new
    solution becomes the most recent one and the one found for its own time
    stamp and for every later time; the time stamps of the solutions
    already in the table stay as they are. *)
Theorem newSolutionID_is_found_again (tab : Table) (time : Q) :
  let id := fst (newSolutionID tab time) in
  let tab' := snd (newSolutionID tab time) in
  id = Z.of_nat (nrow tab) /\
  checkSolutionID tab id = Throw (CheckError "Requested solution id=") /\
  checkSolutionID tab' id = Return tt /\
  mostRecentSolution tab' = id /\
  (forall later, Qleb time later = true -> solutionID tab' later = Return id) /\
  (forall col, TIME tab = Some col ->
     exists col', TIME tab' = Some col' /\ forall row, row < nrow tab -> col' row = col row).
Proof.
  cbv zeta. unfold newSolutionID. cbn [fst snd].
  split; [reflexivity |]. split; [| split; [| split]].
  - unfold checkSolutionID. rewrite Z.ltb_irrefl, andb_false_r. reflexivity.
  - unfold checkSolutionID. cbn [nrow].
    replace (Z.leb 0 (Z.of_nat (nrow tab))) with true by (symmetry; apply Z.leb_le; lia).
    replace (Z.ltb (Z.of_nat (nrow tab)) (Z.of_nat (S (nrow tab)))) with true
      by (symmetry; apply Z.ltb_lt; lia).
    reflexivity.
  - unfold mostRecentSolution. cbn [nrow]. change (Nat.ltb 0 (S (nrow tab))) with true.
    cbv iota. lia.
  - split.
    + intros later Hl. unfold solutionID, solutionIDBefore, bufCol. cbn [nrow TIME].
      change (Nat.ltb 0 (S (nrow tab))) with true. cbn [check call andThen].
      rewrite searchBefore_S, Nat.eqb_refl, Hl. reflexivity.
    + intros col Hcol. rewrite Hcol. cbn [TIME]. eexists. split; [reflexivity |].
      intros row Hrow. cbv beta.
      destruct (Nat.eqb row (nrow tab)) eqn:E; [| reflexivity].
      apply Nat.eqb_eq in E. lia.
Qed.

End CalSolutionFacts.

(** ** The Jones matrix of a calibration solution *)

Section JonesFacts.
Import ICalSolutionConstAccessor JonesAlgebra.

Ltac jones_terms acc index chan :=
  unfold jonesValid, jones, jonesAllValid, jonesAndValidity, effectiveLeakage,
    gainMatrix, leakageMatrix, identityMatrix, gainsValid, leakagesValid;
  destruct (gain acc index) as [[g1r g1i] g1v [g2r g2i] g2v];
  destruct (bandpass acc index chan) as [[b1r b1i] b1v [b2r b2i] b2v];
  destruct (leakage acc index) as [[d12r d12i] d12v [d21r d21i] d21v];
  destruct (bpleakage acc index chan) as [[e12r e12i] e12v [e21r e21i] e21v];
  cbn [g1 g2 g1IsValid g2IsValid d12 d21 d12IsValid d21IsValid].

(** X16: a Jones matrix that is reported valid is the product of the gain
    matrix, the leakage matrix and the bandpass matrix, in this order, with
    1 in place of every gain and bandpass element that is not valid, and
    with the leakage of the bandpass only when the frequency-independent
    leakage does not have both elements valid. *)
Theorem jones_is_product_of_gain_leakage_bandpass
    (acc : Accessor) (index : JonesIndex) (chan : Z) :
  jonesValid acc index chan = true ->
  Meq (elements (jones acc index chan))
      (Mmul (Mmul (gainMatrix (gain acc index))
                  (effectiveLeakage (leakage acc index) (bpleakage acc index chan)))
            (gainMatrix (bandpass acc index chan))).
Proof.
  jones_terms acc index chan.
  destruct g1v, g2v, b1v, b2v, d12v, d21v, e12v, e21v;
    cbn -[Qmult Qplus Qminus Qopp]; try discriminate;
    intros _; unfold Ceq; cbn -[Qmult Qplus Qminus Qopp Qeq];
    repeat split; ring.
Qed.

Lemma jones_product_witness :
  jonesValid (Sample.solution true true false false) (0%Z, 0%Z) 0 = true /\
  Meq (elements (jones (Sample.solution true true false false) (0%Z, 0%Z) 0))
      ((2, 0)%Q, (2, 2)%Q, (6, 0)%Q, (0, 3)%Q).
Proof.
  split; [reflexivity |].
  pose proof (@jones_is_product_of_gain_leakage_bandpass
                (Sample.solution true true false false) (0%Z, 0%Z) 0 eq_refl) as H.
  vm_compute in H. vm_compute. exact H.
Defined.

(** X17: a Jones matrix is reported not valid exactly when none of gains,
    leakages, bandpass and bandpass leakages has both its elements valid,
    and the matrix is then the identity, whatever valid single elements
    there are. *)
Theorem jones_not_valid_is_identity
    (acc : Accessor) (index : JonesIndex) (chan : Z) :
  (jonesValid acc index chan = false <->
   gainsValid (gain acc index) = false /\
   leakagesValid (leakage acc index) = false /\
   gainsValid (bandpass acc index chan) = false /\
   leakagesValid (bpleakage acc index chan) = false) /\
  (jonesValid acc index chan = false ->
   jones acc index chan = ScalarId (1, 0)%Q /\
   jonesAllValid acc index chan = false).
Proof.
  jones_terms acc index chan.
  destruct g1v, g2v, b1v, b2v, d12v, d21v, e12v, e21v; cbn;
    (split; [split; [try discriminate; repeat split
                    | intros [H1 [H2 [H3 H4]]]; try discriminate; reflexivity]
            | try discriminate; split; reflexivity]).
Qed.

(** X18: when all eight elements of a solution are valid the Jones matrix is
    valid and is the product of the stored gains, the frequency-independent
    leakages and the stored bandpass; the leakages of the bandpass do not
    enter. *)
Theorem jonesAllValid_ignores_bandpass_leakage
    (acc : Accessor) (index : JonesIndex) (chan : Z) :
  jonesAllValid acc index chan = true ->
  jonesValid acc index chan = true /\
  Meq (elements (jones acc index chan))
      (Mmul (Mmul (g1 (gain acc index), (0, 0)%Q, (0, 0)%Q, g2 (gain acc index))
                  (leakageMatrix (leakage acc index)))
            (g1 (bandpass acc index chan), (0, 0)%Q, (0, 0)%Q,
             g2 (bandpass acc index chan))).
Proof.
  jones_terms acc index chan.
  destruct g1v, g2v, b1v, b2v, d12v, d21v, e12v, e21v;
    cbn -[Qmult Qplus Qminus Qopp]; try discriminate.
  intros _. split; [reflexivity |].
  unfold Ceq; cbn -[Qmult Qplus Qminus Qopp Qeq]. repeat split; ring.
Qed.

Lemma jonesAllValid_witness :
  jonesAllValid (Sample.solution true true true true) (0%Z, 0%Z) 0 = true /\
  jonesValid (Sample.solution true true true true) (0%Z, 0%Z) 0 = true.
Proof.
  split; [reflexivity |].
  exact (proj1 (@jonesAllValid_ignores_bandpass_leakage
                  (Sample.solution true true true true) (0%Z, 0%Z) 0 eq_refl)).
Defined.

End JonesFacts.

(** ** Calibration solutions in the table and in memory *)

Section FillerFacts.
Import TableCalSolutionFiller.

Variable cellDefined : string -> Z -> outcome bool.

Lemma findDefinedCube_loop_spec (name : string) (todo : nat) (r : Z) :
  findDefinedCube_loop cellDefined name todo = Return r <->
  (0 <= r < Z.of_nat todo)%Z /\ cellDefined name r = Return true /\
  forall j, (r < j < Z.of_nat todo)%Z -> cellDefined name j = Return false.
Proof.
  induction todo as [| todo IH].
  - cbn [findDefinedCube_loop]. split; [discriminate |]. intros [H _]. lia.
  - cbn [findDefinedCube_loop].
    destruct (cellDefined name (Z.of_nat todo)) as [[|] | e] eqn:E; cbn [andThen].
    + split.
      * intros H. injection H as <-. split; [lia |]. split; [exact E |].
        intros j Hj. lia.
      * intros [Hr [Hd Hj]].
        destruct (Z.eq_dec r (Z.of_nat todo)) as [-> | Hne]; [reflexivity |].
        rewrite (Hj (Z.of_nat todo)) in E by lia. discriminate.
    + rewrite IH. split.
      * intros [Hr [Hd Hj]]. split; [lia |]. split; [exact Hd |].
        intros j Hjr. destruct (Z.eq_dec j (Z.of_nat todo)) as [-> | Hne]; [exact E |].
        apply Hj. lia.
      * intros [Hr [Hd Hj]].
        assert (r <> Z.of_nat todo) by (intros ->; congruence).
        split; [lia |]. split; [exact Hd |]. intros j Hjr. apply Hj. lia.
    + split; [discriminate |]. intros [Hr [Hd Hj]].
      destruct (Z.eq_dec r (Z.of_nat todo)) as [-> | Hne]; [congruence |].
      rewrite (Hj (Z.of_nat todo)) in E by lia. discriminate.
Qed.

Lemma findDefinedCube_loop_none (name : string) (todo : nat) :
  (forall j, (0 <= j < Z.of_nat todo)%Z -> cellDefined name j = Return false) ->
  findDefinedCube_loop cellDefined name todo
  = Throw (AskapError "Unable to find valid element in column ").
Proof.
  induction todo as [| todo IH]; intros H; [reflexivity |].
  cbn [findDefinedCube_loop]. rewrite (H (Z.of_nat todo)) by lia. cbn [andThen].
  apply IH. intros j Hj. apply H. lia.
Qed.

(** X19: the backward search for a defined cube returns the last row at or
    before the reference row of the filler at which the cell of the column
    is defined, never a negative number; when no cell from the first row to
    the reference row is defined, and for a negative reference row, it
    throws the error. *)
Theorem findDefinedCube_last_defined_row (itsRefRow : Z) (name : string) :
  (forall r,
     findDefinedCube cellDefined itsRefRow name = Return r <->
     (0 <= r <= itsRefRow)%Z /\ cellDefined name r = Return true /\
     forall j, (r < j <= itsRefRow)%Z -> cellDefined name j = Return false) /\
  ((forall j, (0 <= j <= itsRefRow)%Z -> cellDefined name j = Return false) ->
   findDefinedCube cellDefined itsRefRow name
   = Throw (AskapError "Unable to find valid element in column ")).
Proof.
  unfold findDefinedCube. split.
  - intros r. rewrite findDefinedCube_loop_spec.
    destruct (Z_lt_le_dec itsRefRow 0) as [Hneg | Hpos].
    + replace (Z.to_nat (itsRefRow + 1)) with 0 by lia.
      split; intros [H _]; lia.
    + rewrite Z2Nat.id by lia. split; intros [Hr [Hd Hj]].
      * split; [lia |]. split; [exact Hd |]. intros j Hjr. apply Hj. lia.
      * split; [lia |]. split; [exact Hd |]. intros j Hjr. apply Hj. lia.
  - intros H. apply findDefinedCube_loop_none. intros j Hj. apply H. lia.
Qed.

End FillerFacts.

Section AccessorFacts.
Import ICalSolutionConstAccessor MemCalSolutionAccessor.

Lemma ASKAPCHECK_Return (cond : bool) (message : string) :
  ASKAPCHECK cond message = Return tt <-> cond = true.
Proof. destruct cond; cbn; split; congruence. Qed.

Lemma store_Return (cubes cubes' : CubePair) (val : Complex) (isValid : bool)
    (row : Z) (index : JonesIndex) :
  store cubes val isValid row index = Return cubes' ->
  (0 <= antenna index < Z.of_nat (ncolumn (fst cubes)))%Z /\
  (0 <= beam index < Z.of_nat (nplane (fst cubes)))%Z /\
  cubes' = (assign (fst cubes) (Z.to_nat row) (Z.to_nat (antenna index))
                   (Z.to_nat (beam index)) val,
            assign (snd cubes) (Z.to_nat row) (Z.to_nat (antenna index))
                   (Z.to_nat (beam index)) isValid).
Proof.
  unfold store.
  destruct (Z.leb 0 (antenna index) && Z.ltb (antenna index) (Z.of_nat (ncolumn (fst cubes))))
    eqn:Ea; cbn [ASKAPCHECK andThen]; [| discriminate].
  destruct (Z.leb 0 (beam index) && Z.ltb (beam index) (Z.of_nat (nplane (fst cubes))))
    eqn:Eb; cbn [ASKAPCHECK andThen]; [| discriminate].
  intros H. injection H as <-.
  apply andb_true_iff in Ea. destruct Ea as [Ea1 Ea2].
  apply andb_true_iff in Eb. destruct Eb as [Eb1 Eb2].
  apply Z.leb_le in Ea1. apply Z.ltb_lt in Ea2.
  apply Z.leb_le in Eb1. apply Z.ltb_lt in Eb2.
  repeat split; lia.
Qed.

Lemma store_accepts (cubes : CubePair) (val : Complex) (isValid : bool)
    (row : Z) (index : JonesIndex) :
  (0 <= antenna index < Z.of_nat (ncolumn (fst cubes)))%Z ->
  (0 <= beam index < Z.of_nat (nplane (fst cubes)))%Z ->
  store cubes val isValid row index
  = Return (assign (fst cubes) (Z.to_nat row) (Z.to_nat (antenna index))
                   (Z.to_nat (beam index)) val,
            assign (snd cubes) (Z.to_nat row) (Z.to_nat (antenna index))
                   (Z.to_nat (beam index)) isValid).
Proof.
  intros Ha Hb. unfold store.
  replace (Z.leb 0 (antenna index) && Z.ltb (antenna index) (Z.of_nat (ncolumn (fst cubes))))
    with true by (symmetry; apply andb_true_iff; split;
                  [apply Z.leb_le | apply Z.ltb_lt]; lia).
  replace (Z.leb 0 (beam index) && Z.ltb (beam index) (Z.of_nat (nplane (fst cubes))))
    with true by (symmetry; apply andb_true_iff; split;
                  [apply Z.leb_le | apply Z.ltb_lt]; lia).
  reflexivity.
Qed.

(** What is stored is extracted again. *)
Lemma extract_store_same (cubes cubes' : CubePair) (val : Complex) (isValid : bool)
    (row : Z) (index : JonesIndex) :
  store cubes val isValid row index = Return cubes' ->
  (0 <= row < Z.of_nat (nrow (fst cubes)))%Z ->
  extract cubes' row index = Return (val, isValid).
Proof.
  intros H Hrow. apply store_Return in H. destruct H as [Ha [Hb ->]].
  unfold extract. cbn [fst snd assign nrow ncolumn nplane at_].
  replace (Z.leb 0 (antenna index) && Z.ltb (antenna index) (Z.of_nat (ncolumn (fst cubes))))
    with true by (symmetry; apply andb_true_iff; split;
                  [apply Z.leb_le | apply Z.ltb_lt]; lia).
  replace (Z.leb 0 (beam index) && Z.ltb (beam index) (Z.of_nat (nplane (fst cubes))))
    with true by (symmetry; apply andb_true_iff; split;
                  [apply Z.leb_le | apply Z.ltb_lt]; lia).
  replace (Z.leb 0 row && Z.ltb row (Z.of_nat (nrow (fst cubes))))
    with true by (symmetry; apply andb_true_iff; split;
                  [apply Z.leb_le | apply Z.ltb_lt]; lia).
  cbn [ASKAPCHECK andThen]. rewrite !Nat.eqb_refl. reflexivity.
Qed.

(** What is stored elsewhere is left as it was. *)
Lemma extract_store_other (cubes cubes' : CubePair) (val : Complex) (isValid : bool)
    (row row' : Z) (index index' : JonesIndex) :
  store cubes val isValid row index = Return cubes' ->
  (0 <= row)%Z ->
  row' <> row \/ index' <> index ->
  extract cubes' row' index' = extract cubes row' index'.
Proof.
  intros H Hrow Hne. apply store_Return in H. destruct H as [Ha [Hb ->]].
  unfold extract. cbn [fst snd assign nrow ncolumn nplane at_].
  destruct (Z.leb 0 (antenna index') && Z.ltb (antenna index') (Z.of_nat (ncolumn (fst cubes))))
    eqn:Ea; cbn [ASKAPCHECK andThen]; [| reflexivity].
  destruct (Z.leb 0 (beam index') && Z.ltb (beam index') (Z.of_nat (nplane (fst cubes))))
    eqn:Eb; cbn [ASKAPCHECK andThen]; [| reflexivity].
  destruct (Z.leb 0 row' && Z.ltb row' (Z.of_nat (nrow (fst cubes))))
    eqn:Er; cbn [ASKAPCHECK andThen]; [| reflexivity].
  apply andb_true_iff in Ea. destruct Ea as [Ea1 _]. apply Z.leb_le in Ea1.
  apply andb_true_iff in Eb. destruct Eb as [Eb1 _]. apply Z.leb_le in Eb1.
  apply andb_true_iff in Er. destruct Er as [Er1 _]. apply Z.leb_le in Er1.
  assert (Hf : Nat.eqb (Z.to_nat row') (Z.to_nat row)
               && Nat.eqb (Z.to_nat (antenna index')) (Z.to_nat (antenna index))
               && Nat.eqb (Z.to_nat (beam index')) (Z.to_nat (beam index)) = false).
  { destruct (Nat.eqb (Z.to_nat row') (Z.to_nat row)) eqn:E1; [| reflexivity].
    destruct (Nat.eqb (Z.to_nat (antenna index')) (Z.to_nat (antenna index))) eqn:E2;
      [| reflexivity].
    destruct (Nat.eqb (Z.to_nat (beam index')) (Z.to_nat (beam index))) eqn:E3;
      [| reflexivity].
    apply Nat.eqb_eq in E1. apply Nat.eqb_eq in E2. apply Nat.eqb_eq in E3.
    exfalso. destruct Hne as [Hne | Hne]; apply Hne; [lia |].
    destruct index as [a b], index' as [a' b']. unfold antenna, beam in *.
    cbn [fst snd] in *. f_equal; lia. }
  rewrite Hf. reflexivity.
Qed.

Lemma store_shape (cubes cubes' : CubePair) (val : Complex) (isValid : bool)
    (row : Z) (index : JonesIndex) :
  store cubes val isValid row index = Return cubes' ->
  nrow (fst cubes') = nrow (fst cubes) /\
  ncolumn (fst cubes') = ncolumn (fst cubes) /\
  nplane (fst cubes') = nplane (fst cubes).
Proof.
  intros H. apply store_Return in H. destruct H as [_ [_ ->]].
  cbn. repeat split.
Qed.

(** X20: the gains set for an antenna and beam are the gains obtained for
    them afterwards, and the gains of every other antenna and beam are as
    before; only an accessor that allows setters takes them. *)
Theorem gains_set_are_obtained
    (itsSettersAllowed noGain flushNeeded : bool) (buf buf' : CubePair)
    (index : JonesIndex) (gains : JonesJTerm) :
  setGain itsSettersAllowed (Return buf) index gains = Return buf' ->
  2 <= nrow (fst buf) ->
  noGain && negb flushNeeded = false ->
  itsSettersAllowed = true /\
  gain noGain flushNeeded (Return buf') index = Return gains /\
  forall index', index' <> index ->
    gain noGain flushNeeded (Return buf') index'
    = gain noGain flushNeeded (Return buf) index'.
Proof.
  intros Hset Hrows Hread. unfold setGain in Hset.
  destruct itsSettersAllowed; cbn [ASKAPCHECK andThen] in Hset; [| discriminate].
  destruct (store buf (g1 gains) (g1IsValid gains) 0 index) as [buf1 | e] eqn:E1;
    cbn [andThen] in Hset; [| discriminate].
  pose proof (store_shape _ _ _ _ _ E1) as [Hn1 _].
  split; [reflexivity |]. unfold gain. rewrite Hread. cbn [andThen]. split.
  - rewrite (@extract_store_other buf1 buf' (g2 gains) (g2IsValid gains) 1 0 index index
               Hset ltac:(lia) ltac:(left; lia)).
    rewrite (@extract_store_same buf buf1 (g1 gains) (g1IsValid gains) 0 index
               E1 ltac:(lia)).
    cbn [andThen].
    rewrite (@extract_store_same buf1 buf' (g2 gains) (g2IsValid gains) 1 index
               Hset ltac:(lia)).
    cbn [andThen fst snd]. destruct gains; reflexivity.
  - intros index' Hne.
    rewrite !(@extract_store_other buf1 buf' (g2 gains) (g2IsValid gains) 1 _ index index'
                Hset ltac:(lia) ltac:(right; exact Hne)).
    rewrite !(@extract_store_other buf buf1 (g1 gains) (g1IsValid gains) 0 _ index index'
                E1 ltac:(lia) ltac:(right; exact Hne)).
    reflexivity.
Qed.

Lemma gains_set_witness :
  gain false false (setGain true (Return (Sample.emptyCubes 2)) (1, 0)%Z Sample.gains)
       (1, 0)%Z
  = Return Sample.gains.
Proof.
  destruct (setGain true (Return (Sample.emptyCubes 2)) (1, 0)%Z Sample.gains)
    as [buf' | e] eqn:E; [| vm_compute in E; discriminate].
  exact (proj1 (proj2 (@gains_set_are_obtained true false false
                         (Sample.emptyCubes 2) buf' (1, 0)%Z Sample.gains
                         E ltac:(cbn; lia) eq_refl))).
Defined.

(** X21: the bandpass set for an antenna, beam and channel is the bandpass
    obtained for them afterwards, and the bandpass of every other channel,
    antenna or beam is as before, for channels below 2^31. *)
Theorem bandpass_set_is_obtained
    (itsSettersAllowed noBandpass flushNeeded : bool) (buf buf' : CubePair)
    (index : JonesIndex) (bp : JonesJTerm) (chan : Z) :
  setBandpass itsSettersAllowed (Return buf) index bp chan = Return buf' ->
  (0 <= chan < 2 ^ 31)%Z ->
  (2 * chan + 1 < Z.of_nat (nrow (fst buf)))%Z ->
  noBandpass && negb flushNeeded = false ->
  bandpass noBandpass flushNeeded (Return buf') index chan = Return bp /\
  forall index' chan',
    (0 <= chan' < 2 ^ 31)%Z ->
    index' <> index \/ chan' <> chan ->
    bandpass noBandpass flushNeeded (Return buf') index' chan'
    = bandpass noBandpass flushNeeded (Return buf) index' chan'.
Proof.
  intros Hset Hchan Hrows Hread. unfold setBandpass in Hset.
  destruct itsSettersAllowed; cbn [ASKAPCHECK andThen] in Hset; [| discriminate].
  rewrite (to_uInt_small (z := chan * 2)) in Hset by lia.
  rewrite (to_uInt_small (z := chan * 2 + 1)) in Hset by lia.
  destruct (store buf (g1 bp) (g1IsValid bp) (chan * 2) index) as [buf1 | e] eqn:E1;
    cbn [andThen] in Hset; [| discriminate].
  pose proof (store_shape _ _ _ _ _ E1) as [Hn1 _].
  unfold bandpass. rewrite Hread. cbn [andThen]. split.
  - rewrite (to_uInt_small (z := 2 * chan)) by lia.
    rewrite (to_uInt_small (z := 2 * chan + 1)) by lia.
    rewrite (@extract_store_other buf1 buf' (g2 bp) (g2IsValid bp) (chan * 2 + 1)
               (2 * chan) index index Hset ltac:(lia) ltac:(left; lia)).
    replace (2 * chan)%Z with (chan * 2)%Z by lia.
    rewrite (@extract_store_same buf buf1 (g1 bp) (g1IsValid bp) (chan * 2) index
               E1 ltac:(lia)).
    cbn [andThen].
    rewrite (@extract_store_same buf1 buf' (g2 bp) (g2IsValid bp) (chan * 2 + 1) index
               Hset ltac:(lia)).
    cbn [andThen fst snd]. destruct bp; reflexivity.
  - intros index' chan' Hchan' Hne.
    rewrite (to_uInt_small (z := 2 * chan')) by lia.
    rewrite (to_uInt_small (z := 2 * chan' + 1)) by lia.
    assert (Hd : forall row', (row' = 2 * chan' \/ row' = 2 * chan' + 1)%Z ->
                 extract buf' row' index' = extract buf row' index').
    { intros row' Hrow'.
      rewrite (@extract_store_other buf1 buf' (g2 bp) (g2IsValid bp) (chan * 2 + 1)
                 row' index index' Hset ltac:(lia)).
      - apply (@extract_store_other buf buf1 (g1 bp) (g1IsValid bp) (chan * 2)
                 row' index index' E1 ltac:(lia)).
        destruct Hne as [Hne | Hne]; [right; exact Hne | left; lia].
      - destruct Hne as [Hne | Hne]; [right; exact Hne | left; lia]. }
    rewrite !Hd by auto. reflexivity.
Qed.

Lemma bandpass_set_witness :
  bandpass false false
           (setBandpass true (Return (Sample.emptyCubes 8)) (1, 0)%Z Sample.gains 3)
           (1, 0)%Z 3
  = Return Sample.gains.
Proof.
  destruct (setBandpass true (Return (Sample.emptyCubes 8)) (1, 0)%Z Sample.gains 3)
    as [buf' | e] eqn:E; [| vm_compute in E; discriminate].
  exact (proj1 (@bandpass_set_is_obtained true false false
                  (Sample.emptyCubes 8) buf' (1, 0)%Z Sample.gains 3
                  E ltac:(lia) ltac:(cbn; lia) eq_refl)).
Defined.

End AccessorFacts.

Close Scope string_scope.
